(** * LoudnessSorter: a Rocq model of [pyloud.py] and its checked properties

    The program scans a folder for audio files, keeps a JSON cache of their
    integrated loudness, measures the files the cache does not know yet and
    returns the files sorted by loudness.

    The model follows the Python source function by function.  What the
    source takes from libraries is modelled next to it, on a POSIX host:
    - [str] is [string]; [float] is the kernel's binary64 [float], whose
      comparison [<] is [PrimFloat.ltb] (false whenever an operand is NaN);
    - a [dict] is an association list in insertion order with unique keys;
    - [os.path] is [posixpath], on strings;
    - the file system is a tree of directories and files without links
      and without permissions; a file is known by what [json.load] makes
      of its bytes; path strings hold no NUL character;
    - the log file [loudness_processing.log] that the logging handler
      appends every record to is not a file of that tree: the records are
      kept in the trace of events, and where a property speaks of files
      it says whether the log file is among them;
    - [glob.glob] and [fnmatch] follow CPython's [glob.py] and [fnmatch.py];
    - [soundfile] and [pyloudnorm] are black boxes;
    - uncaught Python exceptions are results [Raise e]; what the program
      logs, submits to the thread pool and opens for writing is recorded as
      a trace of events. *)

From Stdlib Require Import String Ascii List Bool Arith Lia ZArith PArith.
From Stdlib Require Import Floats Permutation.
Import ListNotations.
Open Scope string_scope.
Open Scope list_scope.

Set Implicit Arguments.

(** ** Python values *)

(** Uncaught exceptions, by class. *)
Inductive exn :=
| JSONDecodeError
| UnicodeDecodeError
| AttributeError
| ValueError
| FileNotFoundError
| IsADirectoryError
| LibsndfileError
| OtherException.

Inductive result (A : Type) :=
| Ok (a : A)
| Raise (e : exn).
Arguments Ok {A} a.
Arguments Raise {A} e.

(** [x in xs] for a list of strings. *)
Definition mem (x : string) (xs : list string) : bool :=
  existsb (String.eqb x) xs.

(** *** dict: insertion-ordered, unique keys *)

Section Dict.
Variable V : Type.

Definition dict := list (string * V).

Fixpoint dict_get (d : dict) (k : string) : option V :=
  match d with
  | [] => None
  | (k', v) :: d' => if String.eqb k' k then Some v else dict_get d' k
  end.

(** [k in d] *)
Definition dict_mem (d : dict) (k : string) : bool :=
  match dict_get d k with Some _ => true | None => false end.

(** [d[k] = v]: an existing key keeps its position, a new key goes last. *)
Fixpoint dict_set (d : dict) (k : string) (v : V) : dict :=
  match d with
  | [] => [(k, v)]
  | (k', v') :: d' =>
      if String.eqb k' k then (k', v) :: d' else (k', v') :: dict_set d' k v
  end.

(** [{k: v for k, v in items}] and [dict(items)]. *)
Definition dict_of_items (items : list (string * V)) : dict :=
  fold_left (fun d kv => dict_set d (fst kv) (snd kv)) items [].

Definition keys (d : dict) : list string := map fst d.

End Dict.

(** *** float comparison and [list.sort(key=lambda x: x[1])]

    [list.sort] is stable and compares keys with [<] only.  It is modelled
    by the stable insertion sort: for keys that [<] orders (no NaN) every
    stable sort returns the same list, and on two elements CPython's sort
    does exactly one comparison, the one made here. *)

Definition song := (string * float)%type.

Definition loudness_lt (a b : song) : bool := PrimFloat.ltb (snd a) (snd b).

Fixpoint sort_insert (x : song) (l : list song) : list song :=
  match l with
  | [] => [x]
  | y :: l' => if loudness_lt y x then y :: sort_insert x l' else x :: y :: l'
  end.

Definition sort_by_loudness (l : list song) : list song :=
  fold_right sort_insert [] l.

(** ** posixpath *)

Definition sep : ascii := "/"%char.

Definition startswith_sep (s : string) : bool :=
  match s with
  | String c _ => Ascii.eqb c sep
  | EmptyString => false
  end.

Fixpoint endswith_sep (s : string) : bool :=
  match s with
  | EmptyString => false
  | String c EmptyString => Ascii.eqb c sep
  | String _ s' => endswith_sep s'
  end.

(** [s.split('/')] *)
Fixpoint split_sep (s : string) : list string :=
  match s with
  | EmptyString => [EmptyString]
  | String c s' =>
      if Ascii.eqb c sep then EmptyString :: split_sep s'
      else match split_sep s' with
           | h :: t => String c h :: t
           | [] => [String c EmptyString]
           end
  end.

(** ['/'.join(comps)] *)
Definition join_sep (comps : list string) : string := String.concat "/" comps.

Definition isabs (s : string) : bool := startswith_sep s.

(** [os.path.join(a, b)] *)
Definition join (a b : string) : string :=
  if startswith_sep b then b
  else if String.eqb a "" || endswith_sep a then (a ++ b)%string
  else (a ++ "/" ++ b)%string.

(** [os.path.join( *comps)] for a non-empty list. *)
Definition join_all (comps : list string) : string :=
  match comps with
  | [] => ""
  | a :: rest => fold_left join rest a
  end.

(** [s.rstrip('/')] *)
Fixpoint rstrip_sep (s : string) : string :=
  match s with
  | EmptyString => EmptyString
  | String c s' =>
      let r := rstrip_sep s' in
      if String.eqb r "" && Ascii.eqb c sep then EmptyString else String c r
  end.

(** [p[:p.rfind('/') + 1], p[p.rfind('/') + 1:]] *)
Fixpoint rsplit_sep (s : string) : string * string :=
  match s with
  | EmptyString => (EmptyString, EmptyString)
  | String c s' =>
      let (h, t) := rsplit_sep s' in
      if Ascii.eqb c sep then (String c h, t)
      else if String.eqb h "" then (EmptyString, String c t)
      else (String c h, t)
  end.

(** [os.path.split(p)]: the head loses its trailing slashes unless it is
    made of slashes only. *)
Definition path_split (p : string) : string * string :=
  let (head, tail) := rsplit_sep p in
  (if String.eqb (rstrip_sep head) "" then head else rstrip_sep head, tail).

(** The number [normpath] keeps of the leading slashes: POSIX allows one or
    two, three or more count as one. *)
Definition initial_slashes (path : string) : nat :=
  match path with
  | String c1 (String c2 (String c3 _)) =>
      if Ascii.eqb c1 sep
      then if Ascii.eqb c2 sep && negb (Ascii.eqb c3 sep) then 2 else 1
      else 0
  | String c1 (String c2 EmptyString) =>
      if Ascii.eqb c1 sep then if Ascii.eqb c2 sep then 2 else 1 else 0
  | String c1 EmptyString => if Ascii.eqb c1 sep then 1 else 0
  | EmptyString => 0
  end.

(** One turn of [normpath]'s loop; [new_comps] is kept newest first. *)
Definition normpath_step (slashes : nat) (new_comps : list string) (comp : string)
  : list string :=
  if String.eqb comp "" || String.eqb comp "." then new_comps
  else if negb (String.eqb comp "..")
          || (Nat.eqb slashes 0 && match new_comps with [] => true | _ => false end)
          || match new_comps with last :: _ => String.eqb last ".." | [] => false end
       then comp :: new_comps
       else tl new_comps.

Definition slashes_string (n : nat) : string :=
  match n with
  | 0 => ""
  | 1 => "/"
  | _ => "//"
  end.

(** [os.path.normpath(path)] *)
Definition normpath (path : string) : string :=
  if String.eqb path "" then "."
  else
    let n := initial_slashes path in
    let comps := rev (fold_left (normpath_step n) (split_sep path) []) in
    let path' := (slashes_string n ++ join_sep comps)%string in
    if String.eqb path' "" then "." else path'.

(** [os.path.abspath(path)], with [cwd] the value of [os.getcwd()]. *)
Definition abspath (cwd path : string) : string :=
  normpath (if isabs path then path else join cwd path).

(** [[x for x in abspath(p).split('/') if x]] *)
Definition path_list (cwd path : string) : list string :=
  filter (fun x => negb (String.eqb x "")) (split_sep (abspath cwd path)).

(** [len(os.path.commonprefix([a, b]))] for two lists of components. *)
Fixpoint common_prefix_len (a b : list string) : nat :=
  match a, b with
  | x :: a', y :: b' => if String.eqb x y then S (common_prefix_len a' b') else 0
  | _, _ => 0
  end.

(** [os.path.relpath(path)], relative to the working directory; raises
    [ValueError] on the empty path. *)
Definition relpath (cwd path : string) : result string :=
  if String.eqb path "" then Raise ValueError
  else
    let start_list := path_list cwd "." in
    let p_list := path_list cwd path in
    let i := common_prefix_len start_list p_list in
    let rel_list := repeat ".." (length start_list - i) ++ skipn i p_list in
    match rel_list with
    | [] => Ok "."
    | _ => Ok (join_all rel_list)
    end.

(** ** The file system *)

(** A cache file as [json.load] sees it: a JSON object whose members map
    names to numbers (in file order, a name possibly more than once), a
    JSON value that is no object (an array, a string, a number, [true],
    [false], [null]: none has [items]), text that is not JSON, or bytes
    that are not text.  An object with a member that is no number
    ([null], a string, an array, ...) is left out of the model:
    [load_cache] would return it as it is, and sorting or displaying such
    a value can raise [TypeError]; a property that needs the values to be
    numbers is stated for the runs that return. *)
Inductive json :=
| JObject (members : list (string * float))
| JOther.

Inductive content :=
| Json (j : json)
| NotJson
| NotText.

#[local] Unset Elimination Schemes.
Inductive node :=
| File (c : content)
| Dir (entries : list (string * node)).
#[local] Set Elimination Schemes.

Definition is_dir (n : node) : bool :=
  match n with Dir _ => true | File _ => false end.

Fixpoint lookup (A : Type) (name : string) (es : list (string * A)) : option A :=
  match es with
  | [] => None
  | (x, a) :: es' => if String.eqb x name then Some a else lookup name es'
  end.

(** Replace the entry called [name], or add it. *)
Fixpoint set_entry (A : Type) (es : list (string * A)) (name : string) (a : A)
  : list (string * A) :=
  match es with
  | [] => [(name, a)]
  | (x, b) :: es' =>
      if String.eqb x name then (x, a) :: es' else (x, b) :: set_entry es' name a
  end.

(** The node at a physical location: the names from the root down. *)
Fixpoint get (n : node) (names : list string) : option node :=
  match names with
  | [] => Some n
  | x :: rest =>
      match n with
      | Dir es =>
          match lookup x es with
          | Some child => get child rest
          | None => None
          end
      | File _ => None
      end
  end.

(** Put [new] under the name [name] in the directory at [dir]. *)
Fixpoint put (dir : list string) (name : string) (new : node) (n : node)
  : option node :=
  match n with
  | File _ => None
  | Dir es =>
      match dir with
      | [] => Some (Dir (set_entry es name new))
      | x :: rest =>
          match lookup x es with
          | Some child =>
              match put rest name new child with
              | Some child' => Some (Dir (set_entry es x child'))
              | None => None
              end
          | None => None
          end
      end
  end.

(** Path resolution, component by component.  [stack] is the physical
    location reached so far, innermost name first; every component, also
    [.], [..] and the empty one a doubled or trailing slash leaves, is
    looked up in a directory.  The last name need not exist. *)
Fixpoint locate (root : node) (stack : list string) (comps : list string)
  : option (list string) :=
  match comps with
  | [] => Some stack
  | c :: rest =>
      match get root (rev stack) with
      | Some (Dir _) =>
          if String.eqb c "" || String.eqb c "." then locate root stack rest
          else if String.eqb c ".." then locate root (tl stack) rest
          else locate root (c :: stack) rest
      | _ => None
      end
  end.

(** What the program reads and acts on: the working directory (the value
    of [os.getcwd()]) and the tree of files. *)
Record filesys := mkFs {
  cwd : string;
  root : node
}.

(** The physical location a path string names; the empty path names
    nothing. *)
Definition resolve (h : filesys) (path : string) : option (list string) :=
  if String.eqb path "" then None
  else
    let start :=
      if isabs path then []
      else rev (filter (fun x => negb (String.eqb x "")) (split_sep (cwd h))) in
    locate (root h) start (split_sep path).

Definition stat (h : filesys) (path : string) : option node :=
  match resolve h path with
  | Some stack => get (root h) (rev stack)
  | None => None
  end.

(** [os.path.exists], [os.path.isdir] *)
Definition path_exists (h : filesys) (path : string) : bool :=
  match stat h path with Some _ => true | None => false end.

Definition path_isdir (h : filesys) (path : string) : bool :=
  match stat h path with Some n => is_dir n | None => false end.

(** [open(path, 'r')] followed by reading all of it. *)
Definition read_file (h : filesys) (path : string) : result content :=
  match stat h path with
  | Some (File c) => Ok c
  | Some (Dir _) => Raise IsADirectoryError
  | None => Raise FileNotFoundError
  end.

(** [open(path, 'w')] followed by writing [c]: creates or replaces a file
    in an existing directory. *)
Definition write_file (h : filesys) (path : string) (c : content) : result filesys :=
  match resolve h path with
  | Some (name :: parent) =>
      match get (root h) (rev (name :: parent)) with
      | Some (Dir _) => Raise IsADirectoryError
      | _ =>
          match put (rev parent) name (File c) (root h) with
          | Some r => Ok (mkFs (cwd h) r)
          | None => Raise FileNotFoundError
          end
      end
  | Some [] => Raise IsADirectoryError
  | None => Raise FileNotFoundError
  end.

(** [json.load(f)] *)
Definition json_load (c : content) : result json :=
  match c with
  | Json j => Ok j
  | NotJson => Raise JSONDecodeError
  | NotText => Raise UnicodeDecodeError
  end.

(** ** fnmatch *)

Inductive tok :=
| TStar
| TAny
| TSet (negated : bool) (body : list ascii)
| TLit (c : ascii).

Fixpoint contains (c : ascii) (s : string) : bool :=
  match s with
  | EmptyString => false
  | String c' s' => Ascii.eqb c c' || contains c s'
  end.

(** After a [[]: is there a closing bracket, the first character after an
    optional [!] not counting as one? *)
Definition set_closes (rest : string) : bool :=
  let r1 := match rest with
            | String c r => if Ascii.eqb c "!" then r else rest
            | EmptyString => rest
            end in
  let r2 := match r1 with
            | String c r => if Ascii.eqb c "]" then r else r1
            | EmptyString => r1
            end in
  contains "]" r2.

Inductive scan_mode :=
| Plain
| SetStart
| SetAfterBang
| InSet (negated : bool) (seen : list ascii).

(** The pattern as [fnmatch.translate] reads it. *)
Fixpoint tokens (m : scan_mode) (pat : string) : list tok :=
  match pat with
  | EmptyString => []
  | String c rest =>
      match m with
      | Plain =>
          if Ascii.eqb c "*" then TStar :: tokens Plain rest
          else if Ascii.eqb c "?" then TAny :: tokens Plain rest
          else if Ascii.eqb c "[" then
            if set_closes rest then tokens SetStart rest
            else TLit c :: tokens Plain rest
          else TLit c :: tokens Plain rest
      | SetStart =>
          if Ascii.eqb c "!" then tokens SetAfterBang rest
          else tokens (InSet false [c]) rest
      | SetAfterBang => tokens (InSet true [c]) rest
      | InSet neg seen =>
          if Ascii.eqb c "]" then TSet neg (rev seen) :: tokens Plain rest
          else tokens (InSet neg (c :: seen)) rest
      end
  end.

(** Membership in a bracket expression: single characters and ranges
    [a-z]. *)
Fixpoint in_set (body : list ascii) (c : ascii) : bool :=
  match body with
  | [] => false
  | lo :: body' =>
      match body' with
      | dash :: hi :: body'' =>
          if Ascii.eqb dash "-"
          then (Nat.leb (nat_of_ascii lo) (nat_of_ascii c)
                && Nat.leb (nat_of_ascii c) (nat_of_ascii hi))
               || in_set body'' c
          else Ascii.eqb lo c || in_set body' c
      | _ => Ascii.eqb lo c || in_set body' c
      end
  end.

Fixpoint matches (toks : list tok) (s : string) : bool :=
  match toks with
  | [] => String.eqb s ""
  | TStar :: toks' =>
      (fix star (s : string) : bool :=
         matches toks' s
         || match s with
            | String _ s' => star s'
            | EmptyString => false
            end) s
  | TAny :: toks' =>
      match s with
      | String _ s' => matches toks' s'
      | EmptyString => false
      end
  | TSet neg body :: toks' =>
      match s with
      | String c s' => xorb neg (in_set body c) && matches toks' s'
      | EmptyString => false
      end
  | TLit c :: toks' =>
      match s with
      | String c' s' => Ascii.eqb c c' && matches toks' s'
      | EmptyString => false
      end
  end.

(** [fnmatch.fnmatch(name, pat)]; on POSIX the case of letters counts. *)
Definition fnmatch (name pat : string) : bool := matches (tokens Plain pat) name.

(** ** glob *)

(** [magic_check.search(s) is not None] *)
Definition has_magic (s : string) : bool :=
  contains "*" s || contains "?" s || contains "[" s.

Definition ishidden (name : string) : bool :=
  match name with
  | String c _ => Ascii.eqb c "."
  | EmptyString => false
  end.

Definition isrecursive (pattern : string) : bool := String.eqb pattern "**".

(** [_join(dirname, basename)] *)
Definition glob_join (dirname basename : string) : string :=
  if String.eqb dirname "" || String.eqb basename ""
  then (if String.eqb dirname "" then basename else dirname)
  else join dirname basename.

(** [_listdir(dirname, None, dironly)]: the names in a directory, none when
    [os.scandir] raises [OSError] (no such directory, not a directory).
    On a name with a NUL character [os.scandir] raises [ValueError], which
    is not caught: such names are outside the model, and a property that
    needs it says that the folder holds no NUL. *)
Definition listdir (h : filesys) (dirname : string) (dironly : bool) : list string :=
  match stat h (if String.eqb dirname "" then "." else dirname) with
  | Some (Dir es) =>
      map fst (filter (fun e => negb dironly || is_dir (snd e)) es)
  | _ => []
  end.

Definition glob0 (h : filesys) (dirname basename : string) (dironly : bool)
  : list string :=
  if negb (String.eqb basename "")
  then (if path_exists h (glob_join dirname basename) then [basename] else [])
  else (if path_isdir h dirname then [basename] else []).

Definition glob1 (h : filesys) (dirname pattern : string) (dironly : bool)
  : list string :=
  let names := listdir h dirname dironly in
  let names :=
    if negb (ishidden pattern) then filter (fun x => negb (ishidden x)) names
    else names in
  filter (fun name => fnmatch name pattern) names.

(** [_rlistdir]: every name below a directory that is not hidden and does
    not lie in a hidden directory, relative to it, parents first.  The walk
    descends into the child nodes themselves. *)
Fixpoint rlist (dironly : bool) (n : node) {struct n} : list string :=
  match n with
  | File _ => []
  | Dir es =>
      (fix each (es : list (string * node)) : list string :=
         match es with
         | [] => []
         | (x, child) :: es' =>
             (if (negb dironly || is_dir child) && negb (ishidden x)
              then x :: map (join x) (rlist dironly child)
              else [])
             ++ each es'
         end) es
  end.

Definition rlistdir (h : filesys) (dirname : string) (dironly : bool) : list string :=
  match stat h (if String.eqb dirname "" then "." else dirname) with
  | Some n => rlist dironly n
  | None => []
  end.

Definition glob2 (h : filesys) (dirname pattern : string) (dironly : bool)
  : list string :=
  (if String.eqb dirname "" || path_isdir h dirname then [""] else [])
  ++ rlistdir h dirname dironly.

(** [_iglob(pathname, None, None, True, dironly)]; every call is on a
    proper prefix of the pattern, so its length bounds the depth. *)
Fixpoint iglob (fuel : nat) (h : filesys) (pathname : string) (dironly : bool)
  : list string :=
  match fuel with
  | 0 => []
  | S fuel' =>
      let (dirname, basename) := path_split pathname in
      if negb (has_magic pathname) then
        if negb (String.eqb basename "")
        then (if path_exists h pathname then [pathname] else [])
        else (if path_isdir h dirname then [pathname] else [])
      else if String.eqb dirname "" then
        if isrecursive basename then glob2 h "" basename dironly
        else glob1 h "" basename dironly
      else
        let dirs :=
          if negb (String.eqb dirname pathname) && has_magic dirname
          then iglob fuel' h dirname true
          else [dirname] in
        let glob_in_dir :=
          if has_magic basename
          then (if isrecursive basename then glob2 else glob1)
          else glob0 in
        flat_map
          (fun dirname =>
             map (join dirname) (glob_in_dir h dirname basename dironly))
          dirs
  end.

(** [glob.glob(pathname, recursive=True)] *)
Definition glob (h : filesys) (pathname : string) : list string :=
  let it := iglob (S (String.length pathname)) h pathname false in
  if String.eqb pathname "" || isrecursive (substring 0 2 pathname) then
    match it with
    | first :: rest => if String.eqb first "" then rest else it
    | [] => []
    end
  else it.

(** ** pyloud.py *)

(** The state a run threads through: the file system and the trace of what
    the program logged, submitted to the thread pool and opened for
    writing.  [logging.basicConfig] sends every record to the console and
    appends it to the log file; the trace keeps the records, and [fs]
    stands for the files other than the log file. *)
Inductive level := INFO | ERROR.

Inductive event :=
| Logged (lv : level) (message : string)
| Submitted (file : string)
| Opened_for_writing (path : string).

Record state := mkState {
  fs : filesys;
  events : list event
}.

Definition emit (e : event) (s : state) : state :=
  mkState (fs s) (events s ++ [e]).

(** [logging.FileHandler("loudness_processing.log")]: the file in the
    working directory that every log record is appended to. *)
Definition log_file : string := "loudness_processing.log".

Section Pyloud.

Set Default Proof Using "Type".

(** [soundfile] and [pyloudnorm]: what [sf.read], [pyln.Meter] and
    [Meter.integrated_loudness] return or raise. *)
Variables samples rate meter : Type.
Variable sf_read : string -> result (samples * rate).
Variable Meter : rate -> result meter.
Variable integrated_loudness : meter -> samples -> result float.

(** [as_completed]: the order in which the submitted computations finish;
    each of them finishes once. *)
Variable as_completed : list string -> list string.
Hypothesis as_completed_perm : forall l, Permutation (as_completed l) l.

(** Propositional steps never need the black boxes: they are put aside
    first, so that a lemma depends on them only when it is about them. *)
Ltac aside :=
  try clear as_completed_perm; try clear as_completed;
  try clear integrated_loudness; try clear Meter; try clear sf_read;
  try clear meter; try clear rate; try clear samples.
Ltac pure_tauto := aside; tauto.
Ltac pure_intuition := aside; intuition congruence.

(** [load_cache(cache_path)]: only [json.JSONDecodeError] is caught. *)
Definition load_cache (cache_path : string) (s : state)
  : result (dict float) * state :=
  if path_exists (fs s) cache_path then
    match read_file (fs s) cache_path with
    | Raise e => (Raise e, s)
    | Ok text =>
        match json_load text with
        | Ok (JObject members) =>
            let cache := dict_of_items members in
            (Ok (dict_of_items
                   (map (fun kv => (abspath (cwd (fs s)) (fst kv), snd kv)) cache)),
             s)
        | Ok JOther => (Raise AttributeError, s)
        | Raise JSONDecodeError =>
            (Ok [],
             emit (Logged ERROR
                     ("Error reading cache file " ++ cache_path
                      ++ ". A new cache will be created.")) s)
        | Raise e => (Raise e, s)
        end
    end
  else (Ok [], s).

(** [[(os.path.relpath(k), v) for k, v in cache.items()]], up to the first
    key [relpath] refuses. *)
Fixpoint relative_items (cwd : string) (items : list (string * float))
  : result (list (string * float)) :=
  match items with
  | [] => Ok []
  | (k, v) :: rest =>
      match relpath cwd k with
      | Raise e => Raise e
      | Ok r =>
          match relative_items cwd rest with
          | Ok l => Ok ((r, v) :: l)
          | Raise e => Raise e
          end
      end
  end.

(** [save_cache(cache_path, cache)]: every exception is caught and logged. *)
Definition save_cache (cache_path : string) (cache : dict float) (s : state)
  : state :=
  match relative_items (cwd (fs s)) cache with
  | Raise _ => emit (Logged ERROR "Error saving cache") s
  | Ok items =>
      let relative_cache := dict_of_items items in
      match write_file (fs s) cache_path (Json (JObject relative_cache)) with
      | Ok fs' => emit (Opened_for_writing cache_path) (mkState fs' (events s))
      | Raise _ => emit (Logged ERROR "Error saving cache") s
      end
  end.

(** The body of [calculate_loudness]'s [try]. *)
Definition measure (file_path : string) : result float :=
  match sf_read file_path with
  | Raise e => Raise e
  | Ok (data, r) =>
      match Meter r with
      | Raise e => Raise e
      | Ok m => integrated_loudness m data
      end
  end.

(** [calculate_loudness(file_path)]: [None] stands for Python's [None]. *)
Definition calculate_loudness (file_path : string) (s : state)
  : option float * state :=
  match measure file_path with
  | Ok loudness => (Some loudness, s)
  | Raise LibsndfileError =>
      (None, emit (Logged ERROR ("Error reading file " ++ file_path)) s)
  | Raise _ =>
      (None, emit (Logged ERROR ("Error calculating loudness for " ++ file_path)) s)
  end.

Definition extensions : list string := ["mp3"; "wav"; "flac"; "ogg"].

Definition upper_char (c : ascii) : ascii :=
  let n := nat_of_ascii c in
  if Nat.leb 97 n && Nat.leb n 122 then ascii_of_nat (n - 32) else c.

(** [str.upper] *)
Fixpoint upper (s : string) : string :=
  match s with
  | EmptyString => EmptyString
  | String c s' => String (upper_char c) (upper s')
  end.

(** [get_audio_files(folder)] *)
Definition get_audio_files (h : filesys) (folder : string) : list string :=
  let files :=
    flat_map
      (fun ext =>
         glob h (join folder ("**/*." ++ ext))
         ++ glob h (join folder ("**/*." ++ upper ext)))
      extensions in
  map (abspath (cwd h)) files.

(** [{file: loudness for file, loudness in cache.items() if file in files}] *)
Definition reconcile (cache : dict float) (files : list string) : dict float :=
  dict_of_items (filter (fun kv => mem (fst kv) files) cache).

(** [[file for file in files if file not in cache]] *)
Definition detect_new (cache : dict float) (files : list string) : list string :=
  filter (fun file => negb (dict_mem cache file)) files.

(** One turn of the loop over the completed futures. *)
Definition collect (acc : dict float * state) (file : string)
  : dict float * state :=
  let (cache, s) := acc in
  match calculate_loudness file s with
  | (Some loudness, s') => (dict_set cache file loudness, s')
  | (None, s') => (cache, s')
  end.

(** The [if new_files: ... else: ...] of [sort_songs_by_loudness]. *)
Definition process (cache_path : string) (files : list string)
           (cache : dict float) (s : state) : dict float * state :=
  let new_files := detect_new cache files in
  match new_files with
  | _ :: _ =>
      let s := emit (Logged INFO "Detected new songs. Processing...") s in
      let s := fold_left (fun s file => emit (Submitted file) s) new_files s in
      let (cache, s) := fold_left collect (as_completed new_files) (cache, s) in
      (cache, save_cache cache_path cache s)
  | [] => (cache, emit (Logged INFO "No new songs detected for processing.") s)
  end.

(** The list of pairs, sorted. *)
Definition sorted_songs (cache : dict float) (files : list string) : list song :=
  sort_by_loudness (filter (fun kv => mem (fst kv) files) cache).

(** [sort_songs_by_loudness(folder, cache_path)] *)
Definition sort_songs_by_loudness (folder cache_path : string) (s : state)
  : result (list song) * state :=
  match load_cache cache_path s with
  | (Raise e, s) => (Raise e, s)
  | (Ok cache, s) =>
      let files := get_audio_files (fs s) folder in
      let cache := reconcile cache files in
      let (cache, s) := process cache_path files cache s in
      (Ok (sorted_songs cache files), s)
  end.

(** *** main *)

(** [os.path.basename(p)]: what follows the last slash. *)
Definition basename (p : string) : string := snd (rsplit_sep p).

Definition digit (n : Z) : ascii := ascii_of_nat (48 + Z.to_nat n).

Fixpoint digits (fuel : nat) (n : Z) (acc : string) : string :=
  match fuel with
  | 0 => acc
  | S fuel' =>
      let acc' := String (digit (n mod 10)) acc in
      if (n <? 10)%Z then acc' else digits fuel' (n / 10) acc'
  end.

(** The decimal digits of a natural number. *)
Definition decimal (n : Z) : string := digits (S (Z.to_nat (Z.log2 n))) n "".

(** [m * 2^e] in hundredths, rounded to the nearest integer, a tie to the
    even one: the correctly rounded conversion of the format [.2f]. *)
Definition hundredths (m : positive) (e : Z) : Z :=
  if (0 <=? e)%Z then (Zpos m * 2 ^ e * 100)%Z
  else
    let d := (2 ^ (- e))%Z in
    let q := (Zpos m * 100 / d)%Z in
    let r := (Zpos m * 100 mod d)%Z in
    if (2 * r <? d)%Z then q
    else if (d <? 2 * r)%Z then (q + 1)%Z
    else if Z.even q then q else (q + 1)%Z.

(** [f"{x:.2f}"] *)
Definition format_2f (x : float) : string :=
  match Prim2SF x with
  | S754_nan => "nan"
  | S754_infinity s => if s then "-inf" else "inf"
  | S754_zero s => if s then "-0.00" else "0.00"
  | S754_finite s m e =>
      let n := hundredths m e in
      (if s then "-" else "")
      ++ decimal (n / 100) ++ "."
      ++ String (digit (n mod 100 / 10)) (String (digit (n mod 10)) "")
  end.

(** [f"  {os.path.basename(file_name)}: {loudness:.2f} LUFS"] *)
Definition song_line (a : song) : string :=
  "  " ++ basename (fst a) ++ ": " ++ format_2f (snd a) ++ " LUFS".

Definition newline : string := String (ascii_of_nat 10) "".

(** [main()], from the parsed arguments [args.folder] and
    [args.cache_path] on. *)
Definition main (folder cache_path : string) (s : state) : result unit * state :=
  match sort_songs_by_loudness folder cache_path s with
  | (Raise e, s) => (Raise e, s)
  | (Ok songs, s) =>
      match songs with
      | _ :: _ =>
          let s :=
            emit (Logged INFO
                    (newline ++ "Songs sorted by loudness (lowest to highest):")) s in
          (Ok tt, fold_left (fun s a => emit (Logged INFO (song_line a)) s) songs s)
      | [] => (Ok tt, emit (Logged INFO "No songs to display.") s)
      end
  end.

(** ** The vocabulary of the properties *)

Unset Implicit Arguments.

(** Every pair of neighbours is in order: [l[i][1] <= l[i+1][1]]. *)
Definition ascending (l : list song) : Prop :=
  forall i a b,
    nth_error l i = Some a -> nth_error l (S i) = Some b ->
    PrimFloat.leb (snd a) (snd b) = true.

Fixpoint chain (l : list song) : Prop :=
  match l with
  | a :: (b :: _) as l' => PrimFloat.leb (snd a) (snd b) = true /\ chain l'
  | _ => True
  end.

(** The two branches of [process]. *)
Definition announced (s : state) (new_files : list string) : state :=
  fold_left (fun s file => emit (Submitted file) s) new_files
            (emit (Logged INFO "Detected new songs. Processing...") s).

Definition no_sep (c : string) : bool := negb (contains sep c).

(** A proper name: not empty, not [.] or [..], without a slash. *)
Definition clean (c : string) : bool :=
  negb (String.eqb c "") && negb (String.eqb c ".") && negb (String.eqb c "..")
  && no_sep c.

(** The working directory as [os.getcwd()] returns it: absolute and
    normalized, with one leading slash. *)
Definition wf_cwd (cwd : string) : bool :=
  Nat.eqb (initial_slashes cwd) 1 && String.eqb (normpath cwd) cwd.

Definition norm_comps (n : nat) (comps : list string) : list string :=
  rev (fold_left (normpath_step n) comps []).

(** What [relpath] joins: one [..] for every component of the start that
    is not shared, then the rest of the path. *)
Definition rel_list (S P : list string) : list string :=
  repeat ".." (length S - common_prefix_len S P) ++ skipn (common_prefix_len S P) P.

Definition rel_string (S P : list string) : string :=
  match rel_list S P with
  | [] => "."
  | l => join_all l
  end.

(** A component [join] just appends: not empty, no slash. *)
Definition plain (c : string) : bool := negb (String.eqb c "") && no_sep c.

Definition is_dir_at (n : node) (names : list string) : bool :=
  match get n names with
  | Some (Dir _) => true
  | _ => false
  end.

(** Whether [open(path, 'w')] succeeds does not depend on what is written. *)
Definition writable (h : filesys) (path : string) : bool :=
  match write_file h path NotText with
  | Ok _ => true
  | Raise _ => false
  end.

Definition rekey (V : Type) (g : string -> string) (kv : string * V) : string * V :=
  (g (fst kv), snd kv).
Arguments rekey {V} g kv.

(** [relpath] as a function, for the paths it accepts. *)
Definition rel (cwd k : string) : string :=
  rel_string (path_list cwd ".") (path_list cwd k).

(** [abspath] with a single leading slash. *)
Definition collapse (cwd k : string) : string :=
  String sep (join_sep (path_list cwd k)).

(** What [save_cache] writes. *)
Definition saved_members (cwd : string) (cache : dict float) : list (string * float) :=
  dict_of_items (map (rekey (rel cwd)) cache).

(** The directory part of the pattern: the folder without its trailing
    slashes, or the folder itself when it is made of slashes. *)
Definition scan_root (folder : string) : string :=
  if String.eqb (rstrip_sep folder) "" then folder else rstrip_sep folder.

Fixpoint distinct (names : list string) : bool :=
  match names with
  | [] => true
  | x :: rest => negb (mem x rest) && distinct rest
  end.

(** Every directory holds proper names (a file system has no entry called
    [.], [..] or with a slash in it), each once. *)
Fixpoint wf_node (n : node) : bool :=
  match n with
  | File _ => true
  | Dir es =>
      distinct (map fst es)
      && (fix all (es : list (string * node)) : bool :=
            match es with
            | [] => true
            | (x, child) :: es' => clean x && wf_node child && all es'
            end) es
  end.

Definition visible (name : string) : bool := negb (ishidden name).

Definition stat_from (r : node) (stack comps : list string) : option node :=
  match locate r stack comps with
  | Some stack' => get r (rev stack')
  | None => None
  end.

Definition start_stack (h : filesys) (path : string) : list string :=
  if isabs path then []
  else rev (filter (fun x => negb (String.eqb x "")) (split_sep (cwd h))).

(** [name] ends in [suffix]. *)
Definition has_suffix (name suffix : string) : Prop :=
  exists stem, name = (stem ++ suffix)%string.

Definition root_or_dot (D : string) : string := if String.eqb D "" then "." else D.

(** The path [glob] builds for the directory reached from [D] through
    [names]. *)
Definition dir_string (D : string) (names : list string) : string :=
  join D (join_sep names).

(** Trailing slashes of the folder. *)
Fixpoint seps (k : nat) : string :=
  match k with
  | 0 => ""
  | S k => String sep (seps k)
  end.

(** The files a run finds to be new. *)
Definition new_files_of (folder cache_path : string) (s : state) : list string :=
  match load_cache cache_path s with
  | (Ok loaded, s1) =>
      let files := get_audio_files (fs s1) folder in
      detect_new (reconcile loaded files) files
  | (Raise _, _) => []
  end.


(** The content of the file at a physical location, when a file is
    there. *)
Definition file_at (n : node) (names : list string) : option content :=
  match get n names with
  | Some (File c) => Some c
  | _ => None
  end.

(** ** A small music folder, for the scenarios

    The user's home [/home/u] holds the folder [music] and, next to it,
    what else a scenario needs (the cache file).  The black boxes read the
    loudness of a file from a table; a file the table does not know cannot
    be decoded. *)

Definition audio : node := File NotText.

Definition home (music others : list (string * node)) : filesys :=
  mkFs "/home/u" (Dir [("home", Dir [("u", Dir (("music", Dir music) :: others))])]).

Definition cache_file (members : list (string * float)) : string * node :=
  ("cache.json", File (Json (JObject members))).

Definition levels : list (string * float) :=
  [("/home/u/music/a.mp3", (-20.5)%float);
   ("/home/u/music/c.WAV", (-14.5)%float);
   ("/home/u/music/sub/d.flac", (-9.25)%float)].

Definition table_read (path : string) : result (float * unit) :=
  match lookup path levels with
  | Some level => Ok (level, tt)
  | None => Raise LibsndfileError
  end.

Definition table_meter (r : unit) : result unit := Ok tt.

Definition table_loudness (m : unit) (data : float) : result float := Ok data.

(** The futures complete last submitted first. *)
Definition last_first (submitted : list string) : list string := rev submitted.

(** A visit to the folder: what [music] holds and what the cache file
    remembers, nothing logged yet. *)
Definition visit (music : list (string * node)) (members : list (string * float))
  : state :=
  mkState (home music [cache_file members]) [].

Definition collection : list (string * node) :=
  [("a.mp3", audio); ("b.Mp3", audio); ("c.WAV", audio); ("bad.wav", audio);
   (".hidden.mp3", audio); ("notes.txt", audio); ("sub", Dir [("d.flac", audio)])].

(** The cache remembers [a.mp3] and a file that is gone; [c.WAV], [d.flac]
    and [bad.wav] are new, the last of them cannot be decoded. *)
Definition first_visit : state :=
  visit collection [("music/a.mp3", (-20.5)%float); ("music/gone.mp3", (-7)%float)].

(** The same cache, every new file readable. *)
Definition second_visit : state :=
  visit [("a.mp3", audio); ("c.WAV", audio); ("sub", Dir [("d.flac", audio)])]
        [("music/a.mp3", (-20.5)%float); ("music/gone.mp3", (-7)%float)].


Definition both_cached : list (string * float) :=
  [("music/a.mp3", (-20.5)%float); ("music/c.WAV", (-14.5)%float)].

Definition before_removal : state :=
  visit [("a.mp3", audio); ("c.WAV", audio)] both_cached.

Definition after_removal : state := visit [("a.mp3", audio)] both_cached.

(** The cache file holds [NaN] for [a.mp3], which [json.load] reads. *)
Definition unreadable_level : state :=
  visit [("a.mp3", audio); ("c.WAV", audio)]
        [("music/a.mp3", PrimFloat.nan); ("music/c.WAV", (-14.5)%float)].

(** What [load_cache] and [get_audio_files] give on the first visit. *)
Definition loaded : dict float :=
  [("/home/u/music/a.mp3", (-20.5)%float); ("/home/u/music/gone.mp3", (-7)%float)].

Definition scanned : list string :=
  ["/home/u/music/a.mp3"; "/home/u/music/bad.wav"; "/home/u/music/c.WAV";
   "/home/u/music/sub/d.flac"].

Definition measured : dict float :=
  [("/home/u/music/a.mp3", (-9.25)%float); ("/home/u/music/c.WAV", (-20.5)%float);
   ("/home/u/music/gone.mp3", (-30)%float); ("/home/u/music/sub/d.flac", (-14.5)%float)].


(** * Properties *)

(** ** Strings and lists *)

Lemma mem_In (x : string) (xs : list string) : mem x xs = true <-> In x xs.
Proof.
  unfold mem. rewrite existsb_exists. split.
  - intros [y [Hy E]]. apply String.eqb_eq in E. now subst.
  - intros H. exists x. split; [assumption | apply String.eqb_refl].
Qed.

Lemma mem_false (x : string) (xs : list string) : mem x xs = false <-> ~ In x xs.
Proof.
  rewrite <- mem_In. destruct (mem x xs); split; intros; congruence.
Qed.

(** ** dict *)

Section DictFacts.
Variable V : Type.
Implicit Types (d : dict V) (k : string) (v : V).

Lemma dict_get_In d k v : dict_get d k = Some v -> In (k, v) d.
Proof.
  induction d as [|[k' v'] d IH]; simpl; [discriminate|].
  destruct (String.eqb_spec k' k) as [->|_].
  - intros [= ->]. now left.
  - intros H. right. now apply IH.
Qed.

Lemma dict_get_None d k : dict_get d k = None <-> ~ In k (keys d).
Proof.
  induction d as [|[k' v'] d IH]; simpl.
  - split; auto.
  - destruct (String.eqb_spec k' k) as [->|Hne].
    + split; [discriminate | intros H; exfalso; apply H; now left].
    + rewrite IH. split; intros H; [intros [E|HIn]; auto | auto].
Qed.

Lemma dict_mem_In d k : dict_mem d k = true <-> In k (keys d).
Proof.
  unfold dict_mem. destruct (dict_get d k) eqn:E.
  - split; [intros _ | reflexivity].
    apply dict_get_In in E. apply (in_map fst) in E. exact E.
  - apply dict_get_None in E. split; [discriminate | contradiction].
Qed.

Lemma dict_mem_false d k : dict_mem d k = false <-> ~ In k (keys d).
Proof.
  rewrite <- dict_mem_In. destruct (dict_mem d k); split; intros; congruence.
Qed.

Lemma In_dict_get d k v : NoDup (keys d) -> In (k, v) d -> dict_get d k = Some v.
Proof.
  induction d as [|[k' v'] d IH]; simpl; [contradiction|].
  intros Hnd [E|HIn].
  - injection E as -> ->. now rewrite String.eqb_refl.
  - inversion Hnd as [|? ? Hnot Hnd']; subst.
    destruct (String.eqb_spec k' k) as [->|_].
    + exfalso. apply Hnot. apply (in_map fst) in HIn. exact HIn.
    + now apply IH.
Qed.

Lemma dict_get_set_same d k v : dict_get (dict_set d k v) k = Some v.
Proof.
  induction d as [|[k' v'] d IH]; simpl.
  - now rewrite String.eqb_refl.
  - destruct (String.eqb_spec k' k) as [->|Hne]; simpl.
    + now rewrite String.eqb_refl.
    + destruct (String.eqb_spec k' k); [contradiction | exact IH].
Qed.

Lemma dict_get_set_other d k k' v :
  k <> k' -> dict_get (dict_set d k v) k' = dict_get d k'.
Proof.
  intros Hne. induction d as [|[k0 v0] d IH]; simpl.
  - destruct (String.eqb_spec k k'); [contradiction | reflexivity].
  - destruct (String.eqb_spec k0 k) as [->|Hne0]; simpl.
    + destruct (String.eqb_spec k k'); [contradiction | reflexivity].
    + now rewrite IH.
Qed.

Lemma keys_dict_set d k v k' :
  In k' (keys (dict_set d k v)) <-> k' = k \/ In k' (keys d).
Proof.
  induction d as [|[k0 v0] d IH]; simpl.
  - split; [intros [->|[]]; now left | intros [->|[]]; now left].
  - destruct (String.eqb_spec k0 k) as [->|Hne]; simpl.
    + split; [intros [->|H]; auto | intros [->|[->|H]]; auto].
    + rewrite IH. split; [intros [->|[->|H]]; auto | intros [->|[->|H]]; auto].
Qed.

Lemma dict_set_fresh d k v : ~ In k (keys d) -> dict_set d k v = d ++ [(k, v)].
Proof.
  induction d as [|[k0 v0] d IH]; simpl; intros Hnot; [reflexivity|].
  destruct (String.eqb_spec k0 k) as [->|Hne].
  - exfalso. apply Hnot. now left.
  - f_equal. apply IH. intros H. apply Hnot. now right.
Qed.

Lemma NoDup_dict_set d k v : NoDup (keys d) -> NoDup (keys (dict_set d k v)).
Proof.
  induction d as [|[k0 v0] d IH]; simpl; intros Hnd.
  - constructor; [intros [] | constructor].
  - inversion Hnd as [|? ? Hnot Hnd']; subst.
    destruct (String.eqb_spec k0 k) as [->|Hne]; simpl.
    + constructor; assumption.
    + constructor; [|now apply IH].
      change (~ In k0 (keys (dict_set d k v))).
      rewrite keys_dict_set. intros [E|HIn]; [now subst | contradiction].
Qed.

Lemma fold_dict_set_NoDup (items : list (string * V)) d :
  NoDup (keys d) ->
  NoDup (keys (fold_left (fun d kv => dict_set d (fst kv) (snd kv)) items d)).
Proof.
  revert d. induction items as [|[k v] items IH]; simpl; intros d Hnd; [assumption|].
  apply IH. now apply NoDup_dict_set.
Qed.

Lemma NoDup_dict_of_items (items : list (string * V)) :
  NoDup (keys (dict_of_items items)).
Proof. apply fold_dict_set_NoDup. constructor. Qed.

Lemma fold_dict_set_fresh (items : list (string * V)) d :
  NoDup (keys (d ++ items)) ->
  fold_left (fun d kv => dict_set d (fst kv) (snd kv)) items d = d ++ items.
Proof.
  revert d. induction items as [|[k v] items IH]; simpl; intros d Hnd.
  - now rewrite app_nil_r.
  - assert (Hnot : ~ In k (keys d)).
    { unfold keys in *. rewrite map_app in Hnd. simpl in Hnd.
      apply NoDup_remove_2 in Hnd. intros H. apply Hnd. apply in_or_app. now left. }
    rewrite (dict_set_fresh d k v Hnot).
    rewrite IH; rewrite <- app_assoc; [reflexivity | exact Hnd].
Qed.

(** A list of items with distinct keys is the dict it builds. *)
Lemma dict_of_items_NoDup (items : list (string * V)) :
  NoDup (keys items) -> dict_of_items items = items.
Proof. intros H. unfold dict_of_items. now rewrite fold_dict_set_fresh. Qed.

Lemma NoDup_keys_filter (f : string * V -> bool) d :
  NoDup (keys d) -> NoDup (keys (filter f d)).
Proof.
  induction d as [|[k v] d IH]; simpl; intros Hnd; [constructor|].
  inversion Hnd as [|? ? Hnot Hnd']; subst.
  destruct (f (k, v)); simpl; [|now apply IH].
  constructor; [|now apply IH].
  intros H. apply Hnot. unfold keys in *.
  apply in_map_iff in H. destruct H as [[k' v'] [E H]]. simpl in E. subst.
  apply filter_In in H. destruct H as [H _]. apply (in_map fst) in H. exact H.
Qed.

End DictFacts.

(** ** Floats: what [<] and [<=] give when no operand is NaN *)

Lemma SFcompare_None_nan x y :
  SFcompare x y = None -> x = S754_nan \/ y = S754_nan.
Proof. destruct x, y; simpl; intros H; try discriminate; auto. Qed.

Lemma SFcompare_antisym x y :
  SFcompare y x = option_map CompOpp (SFcompare x y).
Proof.
  destruct x as [s|s| |s m e], y as [s'|s'| |s' m' e']; simpl; try reflexivity;
    try (destruct s; reflexivity); try (destruct s'; reflexivity);
    try (destruct s, s'; reflexivity).
  change (IntDef.Z.compare e' e) with (Z.compare e' e).
  change (IntDef.Z.compare e e') with (Z.compare e e').
  change PosDef.Pos.compare_cont with Pos.compare_cont.
  destruct s, s'; simpl; try reflexivity;
    rewrite (Z.compare_antisym e' e); destruct (Z.compare e' e); simpl;
    try reflexivity.
  - rewrite (Pos.compare_cont_antisym m' m Eq). simpl.
    now rewrite CompOpp_involutive.
  - now rewrite (Pos.compare_cont_antisym m m' Eq).
Qed.

Lemma is_nan_false_spec x : PrimFloat.is_nan x = false -> Prim2SF x <> S754_nan.
Proof.
  unfold PrimFloat.is_nan. rewrite FloatAxioms.eqb_spec. unfold SFeqb.
  intros H E. rewrite E in H. discriminate.
Qed.

Lemma ltb_leb x y : PrimFloat.ltb x y = true -> PrimFloat.leb x y = true.
Proof.
  rewrite ltb_spec, leb_spec. unfold SFltb, SFleb.
  destruct (SFcompare _ _) as [[]|]; congruence.
Qed.

Lemma not_ltb_leb x y :
  PrimFloat.is_nan x = false -> PrimFloat.is_nan y = false ->
  PrimFloat.ltb y x = false -> PrimFloat.leb x y = true.
Proof.
  intros Hx Hy. apply is_nan_false_spec in Hx, Hy.
  rewrite ltb_spec, leb_spec. unfold SFltb, SFleb.
  rewrite (SFcompare_antisym (Prim2SF x) (Prim2SF y)).
  destruct (SFcompare (Prim2SF x) (Prim2SF y)) as [[]|] eqn:E; simpl; try congruence.
  apply SFcompare_None_nan in E. pure_tauto.
Qed.

(** ** The sort *)

Lemma chain_ascending l : chain l -> ascending l.
Proof.
  induction l as [|a l IH]; intros Hc i x y Hx Hy.
  - destruct i; discriminate.
  - destruct l as [|b l]; [destruct i as [|[|i]]; discriminate|].
    destruct Hc as [Hab Hc]. destruct i as [|i].
    + simpl in Hx, Hy. injection Hx as <-. injection Hy as <-. exact Hab.
    + apply (IH Hc i); assumption.
Qed.

Lemma ascending_chain l : ascending l -> chain l.
Proof.
  induction l as [|a l IH]; intros H; [exact I|].
  destruct l as [|b l]; [exact I|]. split.
  - apply (H 0); reflexivity.
  - apply IH. intros i x y Hx Hy. apply (H (S i)); assumption.
Qed.

Lemma sort_insert_perm x l : Permutation (sort_insert x l) (x :: l).
Proof.
  induction l as [|y l IH]; simpl; [reflexivity|].
  destruct (loudness_lt y x); [|reflexivity].
  rewrite IH. apply perm_swap.
Qed.

Lemma sort_by_loudness_perm l : Permutation (sort_by_loudness l) l.
Proof.
  induction l as [|x l IH]; simpl; [reflexivity|].
  rewrite sort_insert_perm. now constructor.
Qed.

Lemma sort_by_loudness_In l a : In a (sort_by_loudness l) <-> In a l.
Proof.
  split; apply Permutation_in;
    [apply sort_by_loudness_perm | symmetry; apply sort_by_loudness_perm].
Qed.

Lemma sort_insert_chain x l :
  PrimFloat.is_nan (snd x) = false ->
  (forall a, In a l -> PrimFloat.is_nan (snd a) = false) ->
  chain l -> chain (sort_insert x l).
Proof.
  intros Hx. induction l as [|y l IH]; intros Hl Hc; [exact I|].
  simpl. unfold loudness_lt. destruct (PrimFloat.ltb (snd y) (snd x)) eqn:E.
  - assert (Hc' : chain (sort_insert x l)).
    { apply IH; [intros a Ha; apply Hl; now right|].
      destruct l; [exact I | apply Hc]. }
    destruct l as [|z l]; simpl in *.
    + split; [now apply ltb_leb | exact I].
    + unfold loudness_lt in *. destruct (PrimFloat.ltb (snd z) (snd x)).
      * split; [apply Hc | exact Hc'].
      * split; [now apply ltb_leb | exact Hc'].
  - split; [|exact Hc].
    apply not_ltb_leb; [exact Hx | apply Hl; now left | exact E].
Qed.

Lemma sort_by_loudness_chain l :
  (forall a, In a l -> PrimFloat.is_nan (snd a) = false) ->
  chain (sort_by_loudness l).
Proof.
  induction l as [|x l IH]; intros Hl; [exact I|].
  change (sort_by_loudness (x :: l)) with (sort_insert x (sort_by_loudness l)).
  apply sort_insert_chain.
  - apply Hl. now left.
  - intros a Ha. apply Hl. right. exact (proj1 (sort_by_loudness_In l a) Ha).
  - apply IH. intros a Ha. apply Hl. now right.
Qed.

(** ** What each step of the program touches *)

Lemma emit_fs e s : fs (emit e s) = fs s.
Proof. reflexivity. Qed.

Lemma In_events_emit e e' s :
  In e (events (emit e' s)) <-> In e (events s) \/ e = e'.
Proof.
  simpl. rewrite in_app_iff. simpl.
  split; [intros [H|[H|[]]]; auto | intros [H|H]; auto].
Qed.

(** [calculate_loudness] returns [None] exactly when the measurement
    raises, and then logs one error; it never touches the files. *)
Lemma calculate_loudness_spec file s :
  match measure file with
  | Ok l => calculate_loudness file s = (Some l, s)
  | Raise _ =>
      exists msg, calculate_loudness file s = (None, emit (Logged ERROR msg) s)
  end.
Proof.
  unfold calculate_loudness. destruct (measure file) as [l|e]; [reflexivity|].
  destruct e; eexists; reflexivity.
Qed.

Lemma calculate_loudness_fs file s : fs (snd (calculate_loudness file s)) = fs s.
Proof.
  pose proof (calculate_loudness_spec file s) as H.
  destruct (measure file); [now rewrite H | destruct H as [msg ->]; reflexivity].
Qed.

Lemma calculate_loudness_submitted file s f :
  In (Submitted f) (events (snd (calculate_loudness file s))) ->
  In (Submitted f) (events s).
Proof.
  pose proof (calculate_loudness_spec file s) as H.
  destruct (measure file); [now rewrite H | destruct H as [msg ->]].
  simpl. rewrite in_app_iff. simpl. intros [H|[H|[]]]; [exact H | discriminate].
Qed.

Lemma collect_fs acc file : fs (snd (collect acc file)) = fs (snd acc).
Proof.
  destruct acc as [c s]. unfold collect.
  pose proof (calculate_loudness_fs file s) as H.
  destruct (calculate_loudness file s) as [[l|] s']; exact H.
Qed.

Lemma collect_submitted acc file f :
  In (Submitted f) (events (snd (collect acc file))) ->
  In (Submitted f) (events (snd acc)).
Proof.
  destruct acc as [c s]. unfold collect.
  pose proof (calculate_loudness_submitted file s f) as H.
  destruct (calculate_loudness file s) as [[l|] s']; exact H.
Qed.

Lemma collect_keys acc file k :
  In k (keys (fst (collect acc file))) -> In k (keys (fst acc)) \/ k = file.
Proof.
  destruct acc as [c s]. unfold collect.
  destruct (calculate_loudness file s) as [[l|] s']; simpl; [|now left].
  rewrite keys_dict_set. pure_tauto.
Qed.

Lemma collect_get acc file k :
  k <> file -> dict_get (fst (collect acc file)) k = dict_get (fst acc) k.
Proof.
  intros Hne. destruct acc as [c s]. unfold collect.
  destruct (calculate_loudness file s) as [[l|] s']; simpl; [|reflexivity].
  apply dict_get_set_other. congruence.
Qed.

Lemma collect_NoDup acc file :
  NoDup (keys (fst acc)) -> NoDup (keys (fst (collect acc file))).
Proof.
  destruct acc as [c s]. unfold collect.
  destruct (calculate_loudness file s) as [[l|] s']; simpl; [|trivial].
  apply NoDup_dict_set.
Qed.

(** A file whose measurement raises gets no entry. *)
Lemma collect_failed acc file f e :
  measure f = Raise e ->
  In f (keys (fst (collect acc file))) -> In f (keys (fst acc)).
Proof.
  intros Hf. destruct acc as [c s]. unfold collect.
  pose proof (calculate_loudness_spec file s) as H.
  destruct (measure file) as [l|e'] eqn:Hm.
  - rewrite H. simpl. rewrite keys_dict_set. intros [->|HIn]; [congruence | exact HIn].
  - destruct H as [msg ->]. trivial.
Qed.

Section FoldCollect.
Variable done : list string.

Lemma fold_collect_fs acc : fs (snd (fold_left collect done acc)) = fs (snd acc).
Proof.
  revert acc. induction done as [|file l IH]; intros acc; simpl; [reflexivity|].
  rewrite IH. apply collect_fs.
Qed.

Lemma fold_collect_submitted acc f :
  In (Submitted f) (events (snd (fold_left collect done acc))) ->
  In (Submitted f) (events (snd acc)).
Proof.
  revert acc. induction done as [|file l IH]; intros acc; simpl; [trivial|].
  intros H. apply IH in H. now apply collect_submitted in H.
Qed.

Lemma fold_collect_keys acc k :
  In k (keys (fst (fold_left collect done acc))) ->
  In k (keys (fst acc)) \/ In k done.
Proof.
  revert acc. induction done as [|file l IH]; intros acc; simpl; [now left|].
  intros H. apply IH in H. destruct H as [H|H]; [|now right; right].
  apply collect_keys in H. destruct H as [H| ->]; [now left | now right; left].
Qed.

Lemma fold_collect_get acc k :
  ~ In k done -> dict_get (fst (fold_left collect done acc)) k = dict_get (fst acc) k.
Proof.
  revert acc. induction done as [|file l IH]; intros acc Hnot; simpl; [reflexivity|].
  rewrite IH by (intros H; apply Hnot; now right).
  apply collect_get. intros ->. apply Hnot. now left.
Qed.

Lemma fold_collect_NoDup acc :
  NoDup (keys (fst acc)) -> NoDup (keys (fst (fold_left collect done acc))).
Proof.
  revert acc. induction done as [|file l IH]; intros acc H; simpl; [exact H|].
  apply IH. now apply collect_NoDup.
Qed.

Lemma fold_collect_failed acc f e :
  measure f = Raise e ->
  In f (keys (fst (fold_left collect done acc))) -> In f (keys (fst acc)).
Proof.
  intros Hf. revert acc. induction done as [|file l IH]; intros acc; simpl; [trivial|].
  intros H. apply IH in H. now apply (collect_failed acc file f e Hf) in H.
Qed.

End FoldCollect.

Lemma fold_emit_submitted_fs l s :
  fs (fold_left (fun s file => emit (Submitted file) s) l s) = fs s.
Proof. revert s. induction l as [|x l IH]; intros s; simpl; [reflexivity | now rewrite IH]. Qed.

Lemma fold_emit_submitted_In l s f :
  In (Submitted f) (events (fold_left (fun s file => emit (Submitted file) s) l s))
  <-> In (Submitted f) (events s) \/ In f l.
Proof.
  revert s. induction l as [|x l IH]; intros s; simpl; [pure_tauto|].
  rewrite IH, In_events_emit. split.
  - intros [[H|H]|H]; [now left | injection H as ->; now right; left | now right; right].
  - intros [H|[->|H]]; [now left; left | now left; right | now right].
Qed.

Lemma fold_emit_events l s e :
  In e (events s) ->
  In e (events (fold_left (fun s file => emit (Submitted file) s) l s)).
Proof.
  revert s. induction l as [|x l IH]; intros s H; simpl; [exact H|].
  apply IH. apply In_events_emit. now left.
Qed.

Lemma save_cache_cwd cache_path cache s :
  cwd (fs (save_cache cache_path cache s)) = cwd (fs s).
Proof.
  unfold save_cache. destruct (relative_items _ _); [|reflexivity].
  unfold write_file. destruct (resolve _ _) as [[|name parent]|]; try reflexivity.
  destruct (get _ _) as [[]|]; try reflexivity;
    destruct (put _ _ _ _); reflexivity.
Qed.

Lemma save_cache_submitted cache_path cache s f :
  In (Submitted f) (events (save_cache cache_path cache s)) ->
  In (Submitted f) (events s).
Proof.
  unfold save_cache.
  destruct (relative_items _ _);
    [destruct (write_file _ _ _)|]; simpl; rewrite in_app_iff; simpl;
    (intros [H|[H|[]]]; [exact H | discriminate]).
Qed.

Lemma load_cache_fs cache_path s : fs (snd (load_cache cache_path s)) = fs s.
Proof.
  unfold load_cache. destruct (path_exists _ _); [|reflexivity].
  destruct (read_file _ _) as [c|]; [|reflexivity].
  destruct (json_load c) as [[]|[]]; reflexivity.
Qed.

Lemma load_cache_NoDup cache_path s c s' :
  load_cache cache_path s = (Ok c, s') -> NoDup (keys c).
Proof.
  unfold load_cache. destruct (path_exists _ _); [|intros [= <- _]; constructor].
  destruct (read_file _ _) as [t|]; [|discriminate].
  destruct (json_load t) as [[]|[]]; try discriminate; intros [= <- _];
    [apply NoDup_dict_of_items | constructor].
Qed.

(** ** Reconciliation and the batch *)

Lemma reconcile_filter cache files :
  NoDup (keys cache) ->
  reconcile cache files = filter (fun kv => mem (fst kv) files) cache.
Proof.
  intros H. unfold reconcile. apply dict_of_items_NoDup. now apply NoDup_keys_filter.
Qed.

Lemma reconcile_NoDup cache files : NoDup (keys (reconcile cache files)).
Proof. apply NoDup_dict_of_items. Qed.

Lemma In_detect_new cache files f :
  In f (detect_new cache files) <-> In f files /\ ~ In f (keys cache).
Proof.
  unfold detect_new. rewrite filter_In, negb_true_iff, dict_mem_false. pure_tauto.
Qed.

Lemma collect_events_mono acc file e :
  In e (events (snd acc)) -> In e (events (snd (collect acc file))).
Proof.
  destruct acc as [c s]. unfold collect. intros H.
  pose proof (calculate_loudness_spec file s) as Hc.
  destruct (measure file).
  - rewrite Hc. exact H.
  - destruct Hc as [msg ->]. apply In_events_emit. now left.
Qed.

Lemma fold_collect_events_mono done acc e :
  In e (events (snd acc)) -> In e (events (snd (fold_left collect done acc))).
Proof.
  revert acc. induction done as [|file l IH]; intros acc H; simpl; [exact H|].
  apply IH. now apply collect_events_mono.
Qed.

Lemma save_cache_events_mono cache_path cache s e :
  In e (events s) -> In e (events (save_cache cache_path cache s)).
Proof.
  intros H. unfold save_cache.
  destruct (relative_items _ _); [destruct (write_file _ _ _)|];
    apply In_events_emit; now left.
Qed.

Lemma process_no_new cache_path files cache s :
  detect_new cache files = [] ->
  process cache_path files cache s
  = (cache, emit (Logged INFO "No new songs detected for processing.") s).
Proof. unfold process. now intros ->. Qed.

Lemma process_new cache_path files cache s :
  detect_new cache files <> [] ->
  let done := fold_left collect (as_completed (detect_new cache files))
                        (cache, announced s (detect_new cache files)) in
  process cache_path files cache s
  = (fst done, save_cache cache_path (fst done) (snd done)).
Proof.
  unfold process, announced. destruct (detect_new cache files) as [|f l] eqn:E;
    [congruence|].
  intros _. simpl. destruct (fold_left collect _ _). reflexivity.
Qed.

Lemma process_NoDup cache_path files cache s :
  NoDup (keys cache) -> NoDup (keys (fst (process cache_path files cache s))).
Proof.
  intros H. destruct (detect_new cache files) as [|f l] eqn:E.
  - now rewrite process_no_new.
  - rewrite process_new by congruence. simpl. now apply fold_collect_NoDup.
Qed.

Lemma process_cwd cache_path files cache s :
  cwd (fs (snd (process cache_path files cache s))) = cwd (fs s).
Proof.
  destruct (detect_new cache files) as [|f l] eqn:E.
  - now rewrite process_no_new.
  - rewrite process_new by congruence. simpl.
    rewrite save_cache_cwd, fold_collect_fs. unfold announced. simpl.
    now rewrite fold_emit_submitted_fs.
Qed.

(** A run that returns went through these steps. *)
Lemma run_steps folder cache_path s songs s' :
  sort_songs_by_loudness folder cache_path s = (Ok songs, s') ->
  exists loaded s1,
    load_cache cache_path s = (Ok loaded, s1) /\ fs s1 = fs s /\
    let files := get_audio_files (fs s) folder in
    let batch := process cache_path files (reconcile loaded files) s1 in
    songs = sorted_songs (fst batch) files /\ s' = snd batch.
Proof.
  unfold sort_songs_by_loudness.
  pose proof (load_cache_fs cache_path s) as Hfs.
  destruct (load_cache cache_path s) as [[loaded|e] s1]; [|discriminate].
  simpl in Hfs. cbv zeta. rewrite Hfs.
  destruct (process _ _ _ _) as [c s2] eqn:E. intros [= <- <-].
  exists loaded, s1. split; [reflexivity|]. split; [exact Hfs|].
  rewrite E. now split.
Qed.

Lemma sorted_songs_In cache files a :
  In a (sorted_songs cache files) <-> In a cache /\ In (fst a) files.
Proof.
  unfold sorted_songs. rewrite sort_by_loudness_In, filter_In, mem_In. pure_tauto.
Qed.

Lemma sorted_songs_NoDup cache files :
  NoDup (keys cache) -> NoDup (map fst (sorted_songs cache files)).
Proof.
  intros H. unfold sorted_songs.
  apply (Permutation_NoDup (l := map fst (filter (fun kv => mem (fst kv) files) cache))).
  - apply Permutation_map. symmetry. apply sort_by_loudness_perm.
  - now apply NoDup_keys_filter.
Qed.

(** ** The claims about the batch, the sorter and the result *)

(** C5.  For every file list [F] and loaded cache [C] (a dict: its keys
    are distinct), after reconciliation and the processing of the new
    files every key of the resulting cache is in [F], every file of [F]
    that [C] had a value for still has that value, and no computation was
    submitted for it. *)
Theorem batch_keeps_cached_values (F : list string) (C : dict float)
        (cache_path : string) (s : state) :
  NoDup (keys C) ->
  let batch := process cache_path F (reconcile C F) s in
  (forall k, In k (keys (fst batch)) -> In k F) /\
  (forall f v, In f F -> dict_get C f = Some v -> dict_get (fst batch) f = Some v) /\
  (forall f, In f F -> In f (keys C) ->
             In (Submitted f) (events (snd batch)) -> In (Submitted f) (events s)).
Proof using Type as_completed_perm.
  intros Hnd batch.
  assert (Hrec : reconcile C F = filter (fun kv => mem (fst kv) F) C)
    by now apply reconcile_filter.
  assert (Hkeys : forall k, In k (keys (reconcile C F)) <-> In k (keys C) /\ In k F).
  { intros k. rewrite Hrec. unfold keys. rewrite !in_map_iff. split.
    - intros [[k' v] [E H]]. simpl in E. subst k'.
      apply filter_In in H. destruct H as [H Hm]. apply mem_In in Hm. split; [|exact Hm].
      exists (k, v). now split.
    - intros [[[k' v] [E H]] HF]. simpl in E. subst k'.
      exists (k, v). split; [reflexivity|]. apply filter_In. split; [exact H|].
      now apply mem_In. }
  assert (Hget : forall f v, In f F -> dict_get C f = Some v ->
                             dict_get (reconcile C F) f = Some v).
  { intros f v HF Hv. apply In_dict_get; [apply reconcile_NoDup|].
    rewrite Hrec. apply filter_In. split; [now apply dict_get_In|].
    now apply mem_In. }
  subst batch.
  destruct (detect_new (reconcile C F) F) as [|x l] eqn:E.
  - rewrite process_no_new by exact E. simpl. repeat split.
    + intros k Hk. now apply Hkeys in Hk.
    + exact Hget.
    + intros f _ _ H. rewrite in_app_iff in H. simpl in H.
      destruct H as [H|[H|[]]]; [exact H | discriminate].
  - rewrite process_new by congruence. rewrite E. simpl.
    assert (Hdone : forall k, In k (as_completed (x :: l)) ->
                              In k F /\ ~ In k (keys (reconcile C F))).
    { intros k Hk. apply (Permutation_in _ (as_completed_perm (x :: l))) in Hk.
      rewrite <- E in Hk. now apply In_detect_new in Hk. }
    repeat split.
    + intros k Hk. apply fold_collect_keys in Hk. simpl in Hk.
      destruct Hk as [Hk|Hk]; [now apply Hkeys in Hk | now apply Hdone in Hk].
    + intros f v HF Hv. rewrite fold_collect_get; simpl; [now apply Hget|].
      intros Hin. apply Hdone in Hin. destruct Hin as [_ Hnot]. apply Hnot.
      apply Hkeys. split; [|exact HF].
      apply dict_get_In in Hv. apply (in_map fst) in Hv. exact Hv.
    + intros f HF HC H. apply save_cache_submitted in H.
      apply fold_collect_submitted in H. simpl in H. unfold announced in H.
      apply fold_emit_submitted_In in H. destruct H as [H|H].
      * apply In_events_emit in H. destruct H as [H|H]; [exact H | discriminate].
      * exfalso. rewrite <- E in H. apply In_detect_new in H.
        destruct H as [_ Hnot]. apply Hnot. apply Hkeys. now split.
Qed.

(** C6.  When decoding or the loudness computation raises for a file,
    [calculate_loudness] returns [None] after logging one error (it is a
    total function: nothing is raised past it); the batch adds no cache
    entry for the file; and every batch that finds the file on disk and not
    in its cache submits it again. *)
Theorem failed_measurement_is_logged_and_not_cached (file : string) (e : exn) :
  measure file = Raise e ->
  (forall s, exists msg,
        calculate_loudness file s = (None, emit (Logged ERROR msg) s)) /\
  (forall cache_path files cache s,
      ~ In file (keys cache) ->
      ~ In file (keys (fst (process cache_path files cache s)))) /\
  (forall cache_path files cache s,
      In file files -> ~ In file (keys cache) ->
      In (Submitted file) (events (snd (process cache_path files cache s)))).
Proof.
  intros Hm. repeat split.
  - intros s. pose proof (calculate_loudness_spec file s) as H.
    now rewrite Hm in H.
  - intros cache_path files cache s Hnot H. apply Hnot.
    destruct (detect_new cache files) as [|x l] eqn:E.
    + now rewrite process_no_new in H.
    + rewrite process_new in H by congruence. simpl in H.
      now apply (fold_collect_failed _ _ file e Hm) in H.
  - intros cache_path files cache s HF Hnot.
    assert (Hnew : In file (detect_new cache files)) by now apply In_detect_new.
    rewrite process_new by (intros E; now rewrite E in Hnew). simpl.
    apply save_cache_events_mono, fold_collect_events_mono. simpl.
    unfold announced. apply fold_emit_submitted_In. now right.
Qed.

(** C7, amended.  When no loudness in the result is NaN, neighbours in the
    sorter's result are in ascending order, [loudness[i] <= loudness[i+1]];
    and every entry of the result is an entry of the cache for a file of
    the current file list. *)
Theorem sorted_songs_ascending (cache : dict float) (files : list string) :
  (forall a, In a (sorted_songs cache files) -> PrimFloat.is_nan (snd a) = false) ->
  ascending (sorted_songs cache files) /\
  (forall file loudness,
      In (file, loudness) (sorted_songs cache files) ->
      In (file, loudness) cache /\ In file files).
Proof.
  intros Hnan. split.
  - apply chain_ascending. apply sort_by_loudness_chain.
    intros a Ha. apply Hnan. unfold sorted_songs. now apply sort_by_loudness_In.
  - intros file loudness H. now apply sorted_songs_In in H.
Qed.

(** C10.  The list a run returns names every file at most once, whatever
    the scanner's list holds: its entries come from a dict. *)
Theorem result_has_no_duplicate_file (folder cache_path : string) (s : state)
        (songs : list song) (s' : state) :
  sort_songs_by_loudness folder cache_path s = (Ok songs, s') ->
  NoDup (map fst songs).
Proof.
  intros H. apply run_steps in H. destruct H as [loaded [s1 [_ [_ H]]]].
  simpl in H. destruct H as [-> _].
  apply sorted_songs_NoDup, process_NoDup, reconcile_NoDup.
Qed.

(** ** posixpath: splitting and joining *)

Lemma clean_spec c :
  clean c = true <-> c <> "" /\ c <> "." /\ c <> ".." /\ no_sep c = true.
Proof.
  unfold clean. rewrite !andb_true_iff, !negb_true_iff, !String.eqb_neq. pure_tauto.
Qed.

Lemma split_sep_not_nil s : split_sep s <> [].
Proof.
  destruct s as [|c s]; simpl; [discriminate|].
  destruct (Ascii.eqb c sep); [discriminate|].
  destruct (split_sep s); discriminate.
Qed.

Lemma split_sep_cons_sep s : split_sep (String sep s) = "" :: split_sep s.
Proof. reflexivity. Qed.

Lemma no_sep_cons a c : no_sep (String a c) = negb (Ascii.eqb a sep) && no_sep c.
Proof.
  unfold no_sep. cbn [contains]. rewrite negb_orb, (Ascii.eqb_sym sep a). reflexivity.
Qed.

Lemma split_sep_no_sep c : no_sep c = true -> split_sep c = [c].
Proof.
  induction c as [|a c IH]; [reflexivity|].
  rewrite no_sep_cons, andb_true_iff, negb_true_iff. intros [Ha Hc].
  cbn [split_sep]. rewrite Ha, IH by exact Hc. reflexivity.
Qed.

Lemma split_sep_app a b :
  split_sep (a ++ String sep b) = split_sep a ++ split_sep b.
Proof.
  induction a as [|c a IH]; simpl; [reflexivity|].
  destruct (Ascii.eqb c sep); [now rewrite IH|].
  rewrite IH. pose proof (split_sep_not_nil a) as Hn.
  destruct (split_sep a); [congruence | reflexivity].
Qed.

Lemma split_sep_all_no_sep s : Forall (fun c => no_sep c = true) (split_sep s).
Proof.
  induction s as [|c s IH]; cbn [split_sep].
  - constructor; [reflexivity | constructor].
  - destruct (Ascii.eqb c sep) eqn:E; [constructor; [reflexivity | exact IH]|].
    destruct (split_sep s) as [|h t].
    + constructor; [|constructor]. rewrite no_sep_cons, E. reflexivity.
    + inversion IH; subst. constructor; [|assumption].
      rewrite no_sep_cons, E. assumption.
Qed.

Lemma join_sep_cons x y l : join_sep (x :: y :: l) = (x ++ String sep (join_sep (y :: l)))%string.
Proof. reflexivity. Qed.

Lemma split_join_sep l :
  l <> [] -> Forall (fun c => no_sep c = true) l -> split_sep (join_sep l) = l.
Proof.
  induction l as [|x l IH]; [congruence|]. intros _ H.
  inversion H as [|? ? Hx Hl]; subst.
  destruct l as [|y l].
  - simpl. now apply split_sep_no_sep.
  - rewrite join_sep_cons, split_sep_app, split_sep_no_sep by exact Hx.
    rewrite IH; [reflexivity | discriminate | exact Hl].
Qed.

Lemma clean_no_sep l :
  Forall (fun c => clean c = true) l -> Forall (fun c => no_sep c = true) l.
Proof.
  apply Forall_impl. intros c H. apply clean_spec in H. pure_tauto.
Qed.

Lemma filter_nonempty_clean l :
  Forall (fun c => clean c = true) l ->
  filter (fun x => negb (String.eqb x "")) l = l.
Proof.
  induction 1 as [|c l Hc _ IH]; simpl; [reflexivity|].
  apply clean_spec in Hc. destruct Hc as [Hc _].
  apply String.eqb_neq in Hc. rewrite Hc. simpl. now rewrite IH.
Qed.

(** The components of [slashes ++ '/'.join(P)] that are not empty are [P]. *)
Lemma nonempty_split_join n P :
  Forall (fun c => clean c = true) P ->
  filter (fun x => negb (String.eqb x "")) (split_sep (slashes_string n ++ join_sep P)) = P.
Proof.
  intros HP.
  assert (H0 : filter (fun x => negb (String.eqb x "")) (split_sep (join_sep P)) = P).
  { destruct P as [|x P]; [reflexivity|].
    rewrite split_join_sep; [now apply filter_nonempty_clean | discriminate |
                             now apply clean_no_sep]. }
  destruct n as [|[|n]]; simpl slashes_string.
  - exact H0.
  - change ("/" ++ join_sep P)%string with (String sep (join_sep P)).
    rewrite split_sep_cons_sep. simpl. exact H0.
  - change ("//" ++ join_sep P)%string with (String sep (String sep (join_sep P))).
    rewrite !split_sep_cons_sep. simpl. exact H0.
Qed.

(** ** posixpath: [normpath]'s loop *)

Lemma fold_step_app n l1 l2 acc :
  fold_left (normpath_step n) (l1 ++ l2) acc
  = fold_left (normpath_step n) l2 (fold_left (normpath_step n) l1 acc).
Proof. apply fold_left_app. Qed.

Lemma step_clean n acc c : clean c = true -> normpath_step n acc c = c :: acc.
Proof.
  intros H. apply clean_spec in H. destruct H as [H1 [H2 [H3 _]]].
  unfold normpath_step.
  apply String.eqb_neq in H1, H2, H3. now rewrite H1, H2, H3.
Qed.

Lemma fold_step_clean n S acc :
  Forall (fun c => clean c = true) S ->
  fold_left (normpath_step n) S acc = rev S ++ acc.
Proof.
  intros H. revert acc. induction H as [|c S Hc _ IH]; intros acc; simpl; [reflexivity|].
  rewrite step_clean by exact Hc. rewrite IH, <- app_assoc. reflexivity.
Qed.

Lemma step_parent n acc :
  n <> 0 -> Forall (fun c => clean c = true) acc ->
  normpath_step n acc ".." = tl acc.
Proof.
  intros Hn Hacc. unfold normpath_step. simpl.
  destruct n; [congruence|]. simpl.
  destruct acc as [|c acc]; [reflexivity|].
  inversion Hacc as [|? ? Hc _]; subst. apply clean_spec in Hc.
  destruct Hc as [_ [_ [Hc _]]]. apply String.eqb_neq in Hc. now rewrite Hc.
Qed.

Lemma fold_step_parents n k acc :
  n <> 0 -> Forall (fun c => clean c = true) acc ->
  fold_left (normpath_step n) (repeat ".." k) acc = skipn k acc.
Proof.
  intros Hn. revert acc. induction k as [|k IH]; intros acc Hacc; simpl; [reflexivity|].
  rewrite step_parent by assumption.
  rewrite IH by (destruct acc; [constructor | now inversion Hacc]).
  destruct acc; [now rewrite skipn_nil | reflexivity].
Qed.

(** From an absolute path the loop only ever holds proper names. *)
Lemma step_keeps_clean n acc c :
  n <> 0 -> no_sep c = true -> Forall (fun c => clean c = true) acc ->
  Forall (fun c => clean c = true) (normpath_step n acc c).
Proof.
  intros Hn Hc Hacc. unfold normpath_step.
  destruct (String.eqb_spec c ""); [exact Hacc|].
  destruct (String.eqb_spec c "."); [exact Hacc|]. simpl.
  destruct (String.eqb_spec c "..") as [->|Hdd]; simpl.
  - fold (normpath_step n acc ".."). destruct n; [congruence|]. simpl.
    destruct acc as [|a acc]; [constructor|].
    inversion Hacc as [|? ? Ha Hacc']; subst.
    pose proof Ha as Ha'. apply clean_spec in Ha'. destruct Ha' as [_ [_ [Ha' _]]].
    apply String.eqb_neq in Ha'. rewrite Ha'. exact Hacc'.
  - constructor; [|exact Hacc]. apply clean_spec. pure_tauto.
Qed.

Lemma fold_step_keeps_clean n l acc :
  n <> 0 -> Forall (fun c => no_sep c = true) l ->
  Forall (fun c => clean c = true) acc ->
  Forall (fun c => clean c = true) (fold_left (normpath_step n) l acc).
Proof.
  intros Hn Hl. revert acc. induction Hl as [|c l Hc _ IH]; intros acc Hacc; simpl;
    [exact Hacc|].
  apply IH. now apply step_keeps_clean.
Qed.

(** ** posixpath: [abspath] and [relpath] *)

Lemma initial_slashes_abs q :
  isabs q = true -> initial_slashes q = 1 \/ initial_slashes q = 2.
Proof.
  unfold isabs. destruct q as [|c1 [|c2 [|c3 q]]]; cbn [startswith_sep initial_slashes];
    try discriminate; intros ->.
  - now left.
  - destruct (Ascii.eqb c2 sep); auto.
  - destruct (Ascii.eqb c2 sep && negb (Ascii.eqb c3 sep)); auto.
Qed.

Lemma initial_slashes_rel q : isabs q = false -> initial_slashes q = 0.
Proof.
  unfold isabs. destruct q as [|c1 [|c2 [|c3 q]]]; cbn [startswith_sep initial_slashes];
    try reflexivity; now intros ->.
Qed.

Lemma initial_slashes_one r :
  startswith_sep r = false -> initial_slashes (String sep r) = 1.
Proof.
  destruct r as [|c2 [|c3 r]]; cbn [startswith_sep initial_slashes];
    rewrite ?Ascii.eqb_refl; [reflexivity | now intros -> | now intros ->].
Qed.

Lemma initial_slashes_two r :
  startswith_sep r = false -> initial_slashes (String sep (String sep r)) = 2.
Proof.
  destruct r as [|c3 r]; cbn [startswith_sep initial_slashes];
    rewrite ?Ascii.eqb_refl; [reflexivity | now intros ->].
Qed.

Lemma startswith_sep_no_sep c : no_sep c = true -> startswith_sep c = false.
Proof.
  destruct c as [|a c]; [reflexivity|].
  rewrite no_sep_cons, andb_true_iff, negb_true_iff. intros [H _]. exact H.
Qed.

Lemma startswith_sep_app a b :
  a <> "" -> startswith_sep (a ++ b) = startswith_sep a.
Proof. destruct a; [congruence | reflexivity]. Qed.

Lemma startswith_sep_join_sep l :
  Forall (fun c => clean c = true) l -> startswith_sep (join_sep l) = false.
Proof.
  destruct l as [|x l]; [reflexivity|]. intros H. inversion H as [|? ? Hx Hl]; subst.
  apply clean_spec in Hx. destruct Hx as [Hne [_ [_ Hx]]].
  destruct l as [|y l]; [now apply startswith_sep_no_sep|].
  rewrite join_sep_cons, startswith_sep_app by exact Hne.
  now apply startswith_sep_no_sep.
Qed.

Lemma normpath_abs q :
  isabs q = true ->
  normpath q
  = (slashes_string (initial_slashes q)
     ++ join_sep (norm_comps (initial_slashes q) (split_sep q)))%string.
Proof.
  intros Habs. unfold normpath, norm_comps.
  destruct q as [|c q]; [discriminate|]. cbn [String.eqb].
  destruct (initial_slashes_abs _ Habs) as [-> | ->]; reflexivity.
Qed.

Lemma norm_comps_clean n comps :
  n <> 0 -> Forall (fun c => no_sep c = true) comps ->
  Forall (fun c => clean c = true) (norm_comps n comps).
Proof.
  intros Hn H. unfold norm_comps. apply Forall_rev.
  apply fold_step_keeps_clean; [exact Hn | exact H | constructor].
Qed.

(** A normalized absolute path is its own normal form. *)
Lemma initial_slashes_normal n P :
  n = 1 \/ n = 2 -> Forall (fun c => clean c = true) P ->
  initial_slashes (slashes_string n ++ join_sep P) = n.
Proof.
  intros Hn HP. pose proof (startswith_sep_join_sep P HP) as Hs.
  destruct Hn as [-> | ->]; simpl slashes_string.
  - now apply initial_slashes_one.
  - now apply initial_slashes_two.
Qed.

Lemma isabs_normal n P :
  n = 1 \/ n = 2 -> isabs (slashes_string n ++ join_sep P) = true.
Proof. intros [-> | ->]; reflexivity. Qed.

Lemma step_empty n acc : normpath_step n acc "" = acc.
Proof. reflexivity. Qed.

Lemma norm_comps_normal n P :
  n = 1 \/ n = 2 -> Forall (fun c => clean c = true) P ->
  norm_comps n (split_sep (slashes_string n ++ join_sep P)) = P.
Proof.
  intros Hn HP. unfold norm_comps.
  assert (H0 : forall acc, fold_left (normpath_step n) (split_sep (join_sep P)) acc
                           = rev P ++ acc).
  { intros acc. destruct P as [|x P]; [reflexivity|].
    rewrite split_join_sep; [now apply fold_step_clean | discriminate |
                             now apply clean_no_sep]. }
  destruct Hn as [-> | ->]; simpl slashes_string.
  - change ("/" ++ join_sep P)%string with (String sep (join_sep P)).
    rewrite split_sep_cons_sep. cbn [fold_left]. rewrite step_empty, H0, app_nil_r.
    apply rev_involutive.
  - change ("//" ++ join_sep P)%string with (String sep (String sep (join_sep P))).
    rewrite !split_sep_cons_sep. cbn [fold_left]. rewrite !step_empty, H0, app_nil_r.
    apply rev_involutive.
Qed.

Lemma normpath_normal n P :
  n = 1 \/ n = 2 -> Forall (fun c => clean c = true) P ->
  normpath (slashes_string n ++ join_sep P) = (slashes_string n ++ join_sep P)%string.
Proof.
  intros Hn HP. rewrite normpath_abs by now apply isabs_normal.
  rewrite initial_slashes_normal, norm_comps_normal by assumption. reflexivity.
Qed.

(** The shape of the working directory. *)
Lemma wf_cwd_shape cwd :
  wf_cwd cwd = true ->
  exists S, Forall (fun c => clean c = true) S /\ cwd = String sep (join_sep S).
Proof.
  unfold wf_cwd. rewrite andb_true_iff, Nat.eqb_eq, String.eqb_eq. intros [Hn Hnorm].
  assert (Habs : isabs cwd = true).
  { destruct (isabs cwd) eqn:E; [reflexivity|].
    apply initial_slashes_rel in E. congruence. }
  rewrite normpath_abs, Hn in Hnorm by exact Habs.
  exists (norm_comps 1 (split_sep cwd)). split.
  - apply norm_comps_clean; [discriminate | apply split_sep_all_no_sep].
  - symmetry. exact Hnorm.
Qed.

Lemma endswith_sep_app a b : b <> "" -> endswith_sep (a ++ b) = endswith_sep b.
Proof.
  intros Hb. induction a as [|c a IH]; [reflexivity|].
  cbn [append endswith_sep]. rewrite IH.
  destruct (a ++ b)%string eqn:E; [|reflexivity].
  destruct a; simpl in E; [congruence | discriminate].
Qed.

Lemma endswith_sep_no_sep c : no_sep c = true -> endswith_sep c = false.
Proof.
  induction c as [|a c IH]; [reflexivity|].
  rewrite no_sep_cons, andb_true_iff, negb_true_iff. intros [Ha Hc].
  cbn [endswith_sep]. destruct c; [exact Ha | now apply IH].
Qed.

Lemma join_sep_nonempty l :
  l <> [] -> Forall (fun c => clean c = true) l -> join_sep l <> "".
Proof.
  destruct l as [|x l]; [congruence|]. intros _ H. inversion H as [|? ? Hx _]; subst.
  apply clean_spec in Hx. destruct Hx as [Hx _].
  destruct l; [exact Hx|]. rewrite join_sep_cons. destruct x; [congruence | discriminate].
Qed.

Lemma endswith_sep_join_sep l :
  Forall (fun c => clean c = true) l -> endswith_sep (join_sep l) = false.
Proof.
  induction 1 as [|x l Hx Hl IH]; [reflexivity|].
  destruct l as [|y l].
  - apply endswith_sep_no_sep. apply clean_spec in Hx. pure_tauto.
  - rewrite join_sep_cons.
    change (x ++ String sep (join_sep (y :: l)))%string
      with (x ++ (String sep (join_sep (y :: l))))%string.
    rewrite endswith_sep_app by discriminate.
    cbn [endswith_sep].
    destruct (join_sep (y :: l)) eqn:E; [|exact IH].
    exfalso. revert E. apply join_sep_nonempty; [discriminate | exact Hl].
Qed.

(** [abspath] of a relative path: the loop runs on from the components of
    the working directory. *)
Lemma abspath_rel S p :
  Forall (fun c => clean c = true) S -> startswith_sep p = false ->
  abspath (String sep (join_sep S)) p
  = String sep (join_sep (rev (fold_left (normpath_step 1) (split_sep p) (rev S)))).
Proof.
  intros HS Hp. unfold abspath, isabs. rewrite Hp. unfold join. rewrite Hp.
  cbn [String.eqb orb].
  assert (Hq : exists r,
             (if endswith_sep (String sep (join_sep S))
              then (String sep (join_sep S) ++ p)%string
              else (String sep (join_sep S) ++ "/" ++ p)%string) = String sep r
             /\ startswith_sep r = false
             /\ fold_left (normpath_step 1) (split_sep r) []
                = fold_left (normpath_step 1) (split_sep p) (rev S)).
  { destruct S as [|x S].
    - exists p. split; [reflexivity|]. split; [exact Hp | reflexivity].
    - exists (join_sep (x :: S) ++ String sep p)%string.
      assert (Hne : join_sep (x :: S) <> "")
        by (apply join_sep_nonempty; [discriminate | exact HS]).
      assert (He : endswith_sep (String sep (join_sep (x :: S))) = false).
      { cbn [endswith_sep]. destruct (join_sep (x :: S)) eqn:E; [congruence|].
        rewrite <- E. now apply endswith_sep_join_sep. }
      rewrite He. split; [reflexivity|]. split.
      + rewrite startswith_sep_app by exact Hne. now apply startswith_sep_join_sep.
      + rewrite split_sep_app, fold_step_app.
        rewrite (split_join_sep (x :: S)) by (try discriminate; now apply clean_no_sep).
        rewrite (fold_step_clean 1 (x :: S) [] HS). now rewrite app_nil_r. }
  destruct Hq as [r [-> [Hr Hfold]]].
  rewrite normpath_abs by reflexivity.
  rewrite (initial_slashes_one r Hr). unfold norm_comps.
  rewrite split_sep_cons_sep. cbn [fold_left]. rewrite step_empty, Hfold.
  reflexivity.
Qed.

Lemma abspath_abs cwd p :
  isabs p = true ->
  abspath cwd p
  = (slashes_string (initial_slashes p)
     ++ join_sep (norm_comps (initial_slashes p) (split_sep p)))%string.
Proof. intros H. unfold abspath. rewrite H. now apply normpath_abs. Qed.

(** Every absolute path [abspath] returns is one or two slashes followed by
    proper names; two slashes only for a path that begins with exactly
    two. *)
Lemma abspath_shape cwd p :
  wf_cwd cwd = true ->
  exists n P,
    (n = 1 \/ n = 2) /\ Forall (fun c => clean c = true) P /\
    abspath cwd p = (slashes_string n ++ join_sep P)%string /\
    path_list cwd p = P /\
    (n = 2 -> initial_slashes p = 2).
Proof.
  intros Hwf. destruct (wf_cwd_shape cwd Hwf) as [S [HS ->]].
  destruct (isabs p) eqn:Habs.
  - exists (initial_slashes p), (norm_comps (initial_slashes p) (split_sep p)).
    assert (Hn := initial_slashes_abs p Habs).
    assert (HP : Forall (fun c => clean c = true)
                        (norm_comps (initial_slashes p) (split_sep p))).
    { apply norm_comps_clean; [|apply split_sep_all_no_sep].
      destruct Hn as [-> | ->]; discriminate. }
    repeat split; trivial.
    + now apply abspath_abs.
    + unfold path_list. rewrite abspath_abs by exact Habs.
      now apply nonempty_split_join.
  - exists 1, (rev (fold_left (normpath_step 1) (split_sep p) (rev S))).
    assert (HP : Forall (fun c => clean c = true)
                        (rev (fold_left (normpath_step 1) (split_sep p) (rev S)))).
    { apply Forall_rev. apply fold_step_keeps_clean;
        [discriminate | apply split_sep_all_no_sep | now apply Forall_rev]. }
    repeat split; trivial.
    + now left.
    + now apply abspath_rel.
    + unfold path_list. rewrite abspath_rel by assumption.
      now apply (nonempty_split_join 1).
    + discriminate.
Qed.

Lemma abspath_idempotent cwd p :
  wf_cwd cwd = true -> abspath cwd (abspath cwd p) = abspath cwd p.
Proof.
  intros Hwf. destruct (abspath_shape cwd p Hwf) as [n [P [Hn [HP [E _]]]]].
  rewrite E. unfold abspath at 1. rewrite isabs_normal by exact Hn.
  now apply normpath_normal.
Qed.

Lemma abspath_isabs cwd p : wf_cwd cwd = true -> isabs (abspath cwd p) = true.
Proof.
  intros Hwf. destruct (abspath_shape cwd p Hwf) as [n [P [Hn [_ [E _]]]]].
  rewrite E. now apply isabs_normal.
Qed.

Lemma path_list_dot S :
  Forall (fun c => clean c = true) S ->
  path_list (String sep (join_sep S)) "." = S.
Proof.
  intros HS. unfold path_list. rewrite abspath_rel by (trivial; reflexivity).
  cbn [split_sep fold_left Ascii.eqb]. simpl split_sep. cbn [fold_left].
  change (normpath_step 1 (rev S) ".") with (rev S).
  rewrite rev_involutive. now apply (nonempty_split_join 1).
Qed.

Lemma relpath_rel_string cwd p :
  p <> "" ->
  relpath cwd p = Ok (rel_string (path_list cwd ".") (path_list cwd p)).
Proof.
  intros Hp. unfold relpath, rel_string, rel_list.
  apply String.eqb_neq in Hp. rewrite Hp.
  destruct (repeat _ _ ++ skipn _ _); reflexivity.
Qed.

Lemma common_prefix_len_le S P :
  common_prefix_len S P <= length S /\ common_prefix_len S P <= length P.
Proof.
  revert P. induction S as [|x S IH]; intros [|y P]; simpl; try lia.
  destruct (String.eqb x y); simpl; [|lia]. specialize (IH P). lia.
Qed.

Lemma common_prefix_firstn S P :
  firstn (common_prefix_len S P) S = firstn (common_prefix_len S P) P.
Proof.
  revert P. induction S as [|x S IH]; intros [|y P]; simpl; try reflexivity.
  destruct (String.eqb_spec x y) as [->|_]; simpl; [|reflexivity].
  now rewrite IH.
Qed.

Lemma join_plain a b :
  a <> "" -> endswith_sep a = false -> plain b = true ->
  join a b = (a ++ String sep b)%string.
Proof.
  intros Ha He Hb. unfold plain in Hb. apply andb_true_iff in Hb.
  destruct Hb as [_ Hb]. unfold join.
  rewrite (startswith_sep_no_sep b Hb), He.
  apply String.eqb_neq in Ha. now rewrite Ha.
Qed.

Lemma append_assoc (a b c : string) : ((a ++ b) ++ c = a ++ (b ++ c))%string.
Proof. induction a as [|x a IH]; simpl; [reflexivity | now rewrite IH]. Qed.

Lemma fold_join_plain rest a :
  a <> "" -> endswith_sep a = false ->
  Forall (fun c => plain c = true) rest ->
  fold_left join rest a
  = match rest with
    | [] => a
    | _ => (a ++ String sep (join_sep rest))%string
    end.
Proof.
  intros Ha He H. revert a Ha He.
  induction H as [|b rest Hb Hrest IH]; intros a Ha He; [reflexivity|].
  cbn [fold_left]. rewrite (join_plain a b Ha He Hb).
  assert (Hb' := Hb). unfold plain in Hb'. apply andb_true_iff in Hb'.
  destruct Hb' as [Hbne Hbs]. apply negb_true_iff, String.eqb_neq in Hbne.
  rewrite IH.
  - destruct rest as [|c rest]; [reflexivity|].
    rewrite join_sep_cons, append_assoc. reflexivity.
  - destruct a; [congruence | discriminate].
  - change (a ++ String sep b)%string with (a ++ (String sep b))%string.
    rewrite endswith_sep_app by discriminate. cbn [endswith_sep].
    destruct b; [congruence | now apply endswith_sep_no_sep].
Qed.

Lemma join_all_join_sep l :
  Forall (fun c => plain c = true) l -> join_all l = join_sep l.
Proof.
  destruct l as [|a l]; [reflexivity|]. intros H.
  inversion H as [|? ? Ha Hl]; subst. unfold join_all.
  unfold plain in Ha. apply andb_true_iff in Ha. destruct Ha as [Hane Has].
  apply negb_true_iff, String.eqb_neq in Hane.
  rewrite fold_join_plain; [|exact Hane | now apply endswith_sep_no_sep | exact Hl].
  destruct l; reflexivity.
Qed.

Lemma clean_plain c : clean c = true -> plain c = true.
Proof.
  intros H. apply clean_spec in H. destruct H as [H1 [_ [_ H4]]].
  unfold plain. apply String.eqb_neq in H1. now rewrite H1, H4.
Qed.

Lemma rel_list_plain S P :
  Forall (fun c => clean c = true) P ->
  Forall (fun c => plain c = true) (rel_list S P).
Proof.
  intros HP. unfold rel_list. apply Forall_app. split.
  - apply Forall_forall. intros c Hc. apply repeat_spec in Hc. now subst.
  - apply Forall_forall. intros c Hc. apply clean_plain.
    rewrite Forall_forall in HP. apply HP.
    rewrite <- (firstn_skipn (common_prefix_len S P) P). apply in_or_app. now right.
Qed.

Lemma plain_no_sep l :
  Forall (fun c => plain c = true) l -> Forall (fun c => no_sep c = true) l.
Proof.
  apply Forall_impl. intros c H. unfold plain in H. apply andb_true_iff in H. pure_tauto.
Qed.

(** The loop over what [relpath] returned, started from the working
    directory, ends on the components of the path. *)
Lemma fold_step_rel_list S P :
  Forall (fun c => clean c = true) S -> Forall (fun c => clean c = true) P ->
  fold_left (normpath_step 1) (rel_list S P) (rev S) = rev P.
Proof.
  intros HS HP. unfold rel_list. set (i := common_prefix_len S P).
  destruct (common_prefix_len_le S P) as [HiS HiP]. fold i in HiS, HiP.
  rewrite fold_step_app.
  rewrite fold_step_parents by (try discriminate; now apply Forall_rev).
  rewrite fold_step_clean.
  - rewrite skipn_rev.
    replace (length S - (length S - i)) with i by lia.
    unfold i at 2. rewrite common_prefix_firstn. fold i.
    rewrite <- rev_app_distr. now rewrite firstn_skipn.
  - rewrite Forall_forall in *. intros c Hc. apply HP.
    rewrite <- (firstn_skipn i P). apply in_or_app. now right.
Qed.

Lemma rel_list_nil S P :
  rel_list S P = [] -> firstn (common_prefix_len S P) S = S /\ P = firstn (common_prefix_len S P) P.
Proof.
  unfold rel_list. intros H. apply app_eq_nil in H. destruct H as [H1 H2].
  destruct (common_prefix_len_le S P) as [HiS HiP]. split.
  - apply firstn_all2. destruct (length S - common_prefix_len S P) eqn:E; [lia|discriminate].
  - rewrite <- (firstn_skipn (common_prefix_len S P) P) at 1. rewrite H2.
    now rewrite app_nil_r.
Qed.

Lemma abspath_rel_string S P :
  Forall (fun c => clean c = true) S -> Forall (fun c => clean c = true) P ->
  abspath (String sep (join_sep S)) (rel_string S P) = String sep (join_sep P).
Proof.
  intros HS HP. unfold rel_string. destruct (rel_list S P) as [|c l] eqn:E.
  - rewrite abspath_rel by (trivial; reflexivity).
    simpl split_sep. cbn [fold_left].
    change (normpath_step 1 (rev S) ".") with (rev S). rewrite rev_involutive.
    apply rel_list_nil in E. destruct E as [E1 E2].
    rewrite E2, <- common_prefix_firstn, E1. reflexivity.
  - pose proof (rel_list_plain S P HP) as Hpl. rewrite E in Hpl.
    rewrite join_all_join_sep by exact Hpl.
    rewrite abspath_rel; [|exact HS|].
    + rewrite split_join_sep by (try discriminate; now apply plain_no_sep).
      rewrite <- E, fold_step_rel_list by assumption. now rewrite rev_involutive.
    + inversion Hpl as [|? ? Hc Hl]; subst.
      unfold plain in Hc. apply andb_true_iff in Hc. destruct Hc as [Hcne Hcs].
      apply negb_true_iff, String.eqb_neq in Hcne.
      destruct l as [|d l]; [now apply startswith_sep_no_sep|].
      rewrite join_sep_cons, startswith_sep_app by exact Hcne.
      now apply startswith_sep_no_sep.
Qed.

(** The round trip of a cache key: [abspath(relpath(p))] is [abspath(p)]
    with a single leading slash. *)
Lemma abspath_relpath cwd p :
  wf_cwd cwd = true -> p <> "" ->
  exists r, relpath cwd p = Ok r
            /\ abspath cwd r = String sep (join_sep (path_list cwd p)).
Proof.
  intros Hwf Hp. exists (rel_string (path_list cwd ".") (path_list cwd p)).
  split; [now apply relpath_rel_string|].
  destruct (abspath_shape cwd p Hwf) as [n [P [_ [HP [_ [-> _]]]]]].
  destruct (wf_cwd_shape cwd Hwf) as [S [HS ->]].
  rewrite path_list_dot by exact HS. now apply abspath_rel_string.
Qed.

Lemma abspath_relpath_plain cwd p :
  wf_cwd cwd = true -> p <> "" -> initial_slashes p <> 2 ->
  exists r, relpath cwd p = Ok r /\ abspath cwd r = abspath cwd p.
Proof.
  intros Hwf Hp H2. destruct (abspath_relpath cwd p Hwf Hp) as [r [Hr Habs]].
  exists r. split; [exact Hr|]. rewrite Habs.
  destruct (abspath_shape cwd p Hwf) as [n [P [Hn [_ [-> [-> Hn2]]]]]].
  destruct Hn as [-> | ->]; [reflexivity | exfalso; apply H2; now apply Hn2].
Qed.

(** ** The file system: writing a file and reading it back *)

Lemma lookup_set_entry_same (A : Type) (es : list (string * A)) x a :
  lookup x (set_entry es x a) = Some a.
Proof.
  induction es as [|[y b] es IH]; simpl.
  - now rewrite String.eqb_refl.
  - destruct (String.eqb_spec y x) as [->|Hne]; simpl.
    + now rewrite String.eqb_refl.
    + destruct (String.eqb_spec y x); [contradiction | exact IH].
Qed.

Lemma lookup_set_entry_other (A : Type) (es : list (string * A)) x y a :
  x <> y -> lookup y (set_entry es x a) = lookup y es.
Proof.
  intros Hne. induction es as [|[z b] es IH]; simpl.
  - destruct (String.eqb_spec x y); [contradiction | reflexivity].
  - destruct (String.eqb_spec z x) as [->|Hzx]; simpl.
    + destruct (String.eqb_spec x y); [contradiction | reflexivity].
    + now rewrite IH.
Qed.

Lemma get_put dir name new n n' :
  put dir name new n = Some n' -> get n' (dir ++ [name]) = Some new.
Proof.
  revert n n'. induction dir as [|d dir IH]; intros [c|es] n'; simpl; try discriminate.
  - intros [= <-]. simpl. now rewrite lookup_set_entry_same.
  - destruct (lookup d es) as [child|] eqn:El; [|discriminate].
    destruct (put dir name new child) as [child'|] eqn:Ep; [|discriminate].
    intros [= <-]. simpl. rewrite lookup_set_entry_same. exact (IH child child' Ep).
Qed.

(** Writing a file where no directory is leaves every directory in place. *)
Lemma is_dir_at_put dir name c n n' :
  put dir name (File c) n = Some n' ->
  is_dir_at n (dir ++ [name]) = false ->
  forall q, is_dir_at n' q = is_dir_at n q.
Proof.
  unfold is_dir_at.
  revert n n'. induction dir as [|d dir IH]; intros [c0|es] n'; simpl; try discriminate.
  - intros [= <-] Hnd [|x q]; [reflexivity|]. simpl.
    destruct (String.eqb_spec name x) as [<-|Hne].
    + rewrite lookup_set_entry_same.
      destruct (lookup name es) as [[c1|es1]|]; try discriminate;
        destruct q; reflexivity.
    + now rewrite lookup_set_entry_other.
  - destruct (lookup d es) as [child|] eqn:El; [|discriminate].
    destruct (put dir name (File c) child) as [child'|] eqn:Ep; [|discriminate].
    intros [= <-] Hnd [|x q]; [reflexivity|]. simpl.
    destruct (String.eqb_spec d x) as [<-|Hne].
    + rewrite lookup_set_entry_same, El. exact (IH child child' Ep Hnd q).
    + now rewrite lookup_set_entry_other.
Qed.

Lemma locate_ext r r' :
  (forall q, is_dir_at r' q = is_dir_at r q) ->
  forall comps stack, locate r' stack comps = locate r stack comps.
Proof.
  intros H. induction comps as [|c comps IH]; intros stack; [reflexivity|].
  cbn [locate]. specialize (H (rev stack)). unfold is_dir_at in H.
  destruct (get r' (rev stack)) as [[|]|], (get r (rev stack)) as [[|]|];
    try discriminate; try reflexivity.
  now rewrite !IH.
Qed.

Lemma put_any dir name a b n n' :
  put dir name a n = Some n' -> exists n'', put dir name b n = Some n''.
Proof.
  revert n n'. induction dir as [|d dir IH]; intros [c|es] n'; simpl; try discriminate.
  - eauto.
  - destruct (lookup d es) as [child|]; [|discriminate].
    destruct (put dir name a child) as [child'|] eqn:Ep; [|discriminate].
    intros _. destruct (IH _ _ Ep) as [n'' ->]. eauto.
Qed.

Lemma writable_write h path c :
  writable h path = true -> exists h', write_file h path c = Ok h'.
Proof.
  unfold writable, write_file.
  destruct (resolve h path) as [[|name parent]|]; try discriminate.
  destruct (get (root h) (rev (name :: parent))) as [[c0|es]|]; try discriminate;
    (destruct (put (rev parent) name (File NotText) (root h)) as [r|] eqn:Ep;
     [|discriminate]; intros _;
     destruct (put_any _ _ _ (File c) _ _ Ep) as [r' ->]; eauto).
Qed.

Lemma write_not_writable h path c :
  writable h path = false -> exists e, write_file h path c = Raise e.
Proof.
  unfold writable, write_file.
  destruct (resolve h path) as [[|name parent]|]; eauto.
  destruct (get (root h) (rev (name :: parent))) as [[c0|es]|]; eauto;
    (destruct (put (rev parent) name (File NotText) (root h)) as [r|] eqn:Ep;
     [discriminate|]; intros _;
     destruct (put (rev parent) name (File c) (root h)) as [r'|] eqn:Ep'; eauto;
     destruct (put_any _ _ _ (File NotText) _ _ Ep') as [r'' E]; congruence).
Qed.

Lemma write_file_stat h path c h' :
  write_file h path c = Ok h' ->
  cwd h' = cwd h /\ stat h' path = Some (File c).
Proof.
  unfold write_file.
  destruct (resolve h path) as [[|name parent]|] eqn:Er; try discriminate.
  assert (Hcase : is_dir_at (root h) (rev parent ++ [name]) = false ->
                  match put (rev parent) name (File c) (root h) with
                  | Some r => Ok (mkFs (cwd h) r)
                  | None => Raise FileNotFoundError
                  end = Ok h' ->
                  cwd h' = cwd h /\ stat h' path = Some (File c)).
  { intros Hnd. destruct (put _ _ _ _) as [r|] eqn:Ep; [|discriminate].
    intros [= <-]. split; [reflexivity|].
    unfold stat, resolve in *. cbn [cwd root].
    destruct (String.eqb path ""); [discriminate|].
    rewrite (locate_ext (root h) r (is_dir_at_put _ _ _ _ _ Ep Hnd)), Er.
    cbn [rev]. exact (get_put _ _ _ _ _ Ep). }
  cbn [rev]. unfold is_dir_at in Hcase.
  destruct (get (root h) (rev parent ++ [name])) as [[c0|es]|];
    [now apply Hcase | discriminate | now apply Hcase].
Qed.

Lemma write_file_read h path c h' :
  write_file h path c = Ok h' ->
  path_exists h' path = true /\ read_file h' path = Ok c.
Proof.
  intros H. apply write_file_stat in H. destruct H as [_ H].
  unfold path_exists, read_file. now rewrite H.
Qed.

(** ** dict: renaming the keys *)

(** The keys of the dict a list of items builds. *)
Lemma keys_fold_dict_set (V : Type) (items : list (string * V)) (d : dict V) (k : string) :
  In k (keys (fold_left (fun d kv => dict_set d (fst kv) (snd kv)) items d))
  <-> In k (keys d) \/ In k (keys items).
Proof.
  revert d. induction items as [|[k0 v0] items IH]; intros d; cbn [fold_left].
  - simpl. pure_tauto.
  - rewrite IH, keys_dict_set. simpl. pure_intuition.
Qed.

Lemma keys_dict_of_items (V : Type) (items : list (string * V)) k :
  In k (keys (dict_of_items items)) <-> In k (keys items).
Proof. unfold dict_of_items. rewrite keys_fold_dict_set. simpl. pure_tauto. Qed.

Section Rekey.
Variable V : Type.
Variable g : string -> string.

Lemma keys_rekey (l : list (string * V)) : keys (map (rekey g) l) = map g (keys l).
Proof. unfold keys. rewrite !map_map. reflexivity. Qed.

Lemma dict_set_rekey (d : dict V) k v :
  (forall k', In k' (keys d) -> g k' = g k -> k' = k) ->
  dict_set (map (rekey g) d) (g k) v = map (rekey g) (dict_set d k v).
Proof.
  induction d as [|[k0 v0] d IH]; intros Hinj; [reflexivity|].
  cbn [map dict_set rekey fst snd].
  destruct (String.eqb_spec k0 k) as [->|Hne].
  - now rewrite String.eqb_refl.
  - destruct (String.eqb_spec (g k0) (g k)) as [E|_].
    + exfalso. apply Hne. apply Hinj; [now left | exact E].
    + cbn [map rekey fst snd]. f_equal. apply IH.
      intros k' Hk'. apply Hinj. now right.
Qed.

Lemma fold_dict_set_rekey (items : list (string * V)) (d : dict V) :
  (forall k1 k2, In k1 (keys d ++ keys items) -> In k2 (keys d ++ keys items) ->
                 g k1 = g k2 -> k1 = k2) ->
  fold_left (fun d kv => dict_set d (fst kv) (snd kv)) (map (rekey g) items)
            (map (rekey g) d)
  = map (rekey g) (fold_left (fun d kv => dict_set d (fst kv) (snd kv)) items d).
Proof.
  revert d. induction items as [|[k v] items IH]; intros d Hinj; [reflexivity|].
  cbn [map fold_left rekey fst snd].
  rewrite dict_set_rekey.
  - apply IH. intros k1 k2 H1 H2. apply Hinj.
    + rewrite in_app_iff in *. rewrite keys_dict_set in H1. simpl.
      pure_intuition.
    + rewrite in_app_iff in *. rewrite keys_dict_set in H2. simpl.
      pure_intuition.
  - intros k' Hk'. apply Hinj; rewrite in_app_iff; [now left | right; now left].
Qed.

(** Renaming keys with a function that keeps them apart commutes with
    building the dict. *)
Lemma dict_of_items_rekey (items : list (string * V)) :
  (forall k1 k2, In k1 (keys items) -> In k2 (keys items) -> g k1 = g k2 -> k1 = k2) ->
  dict_of_items (map (rekey g) items) = map (rekey g) (dict_of_items items).
Proof.
  intros Hinj. unfold dict_of_items.
  change (@nil (string * V)) with (map (rekey g) (@nil (string * V))) at 1.
  now apply fold_dict_set_rekey.
Qed.

Lemma dict_of_items_idempotent (items : list (string * V)) :
  dict_of_items (dict_of_items items) = dict_of_items items.
Proof. apply dict_of_items_NoDup, NoDup_dict_of_items. Qed.

End Rekey.

(** ** Saving and loading the cache *)

Lemma abspath_rel_collapse cwd k :
  wf_cwd cwd = true -> abspath cwd (rel cwd k) = collapse cwd k.
Proof.
  intros Hwf. unfold rel, collapse.
  destruct (abspath_shape cwd k Hwf) as [n [P [_ [HP [_ [-> _]]]]]].
  destruct (wf_cwd_shape cwd Hwf) as [S [HS ->]].
  rewrite path_list_dot by exact HS. now apply abspath_rel_string.
Qed.

Lemma collapse_abspath cwd k :
  wf_cwd cwd = true -> initial_slashes k <> 2 -> collapse cwd k = abspath cwd k.
Proof.
  intros Hwf H2. unfold collapse.
  destruct (abspath_shape cwd k Hwf) as [n [P [Hn [_ [-> [-> Hn2]]]]]].
  destruct Hn as [-> | ->]; [reflexivity | exfalso; apply H2; now apply Hn2].
Qed.

Lemma path_list_clean cwd k :
  wf_cwd cwd = true -> Forall (fun c => clean c = true) (path_list cwd k).
Proof.
  intros Hwf. now destruct (abspath_shape cwd k Hwf) as [n [P [_ [HP [_ [-> _]]]]]].
Qed.

Lemma collapse_path_list cwd k1 k2 :
  wf_cwd cwd = true ->
  collapse cwd k1 = collapse cwd k2 -> path_list cwd k1 = path_list cwd k2.
Proof.
  intros Hwf. unfold collapse. intros [= E].
  rewrite <- (nonempty_split_join 0 _ (path_list_clean cwd k1 Hwf)).
  rewrite <- (nonempty_split_join 0 _ (path_list_clean cwd k2 Hwf)).
  simpl. now rewrite E.
Qed.

Lemma rel_collapse_inj cwd k1 k2 :
  wf_cwd cwd = true ->
  abspath cwd (rel cwd k1) = abspath cwd (rel cwd k2) -> rel cwd k1 = rel cwd k2.
Proof.
  intros Hwf. rewrite !abspath_rel_collapse by exact Hwf. intros E.
  unfold rel. now rewrite (collapse_path_list cwd k1 k2 Hwf E).
Qed.

Lemma relative_items_ok cwd (items : list (string * float)) :
  (forall k, In k (keys items) -> k <> "") ->
  relative_items cwd items = Ok (map (rekey (rel cwd)) items).
Proof.
  induction items as [|[k v] items IH]; intros H; [reflexivity|].
  cbn [relative_items]. rewrite relpath_rel_string by (apply H; now left).
  rewrite IH by (intros k' Hk'; apply H; now right). reflexivity.
Qed.

Lemma relative_items_empty_key cwd (items : list (string * float)) :
  In "" (keys items) -> exists e, relative_items cwd items = Raise e.
Proof.
  induction items as [|[k v] items IH]; [intros []|].
  cbn [relative_items]. destruct (String.eqb_spec k "") as [->|Hne].
  - intros _. eexists. reflexivity.
  - intros [E|H]; [simpl in E; congruence|].
    rewrite relpath_rel_string by exact Hne.
    destruct (IH H) as [e ->]. eauto.
Qed.

Lemma save_cache_ok cache_path cache s :
  (forall k, In k (keys cache) -> k <> "") ->
  writable (fs s) cache_path = true ->
  exists h,
    write_file (fs s) cache_path
               (Json (JObject (saved_members (cwd (fs s)) cache))) = Ok h
    /\ save_cache cache_path cache s
       = emit (Opened_for_writing cache_path) (mkState h (events s)).
Proof.
  intros Hk Hw. unfold save_cache. rewrite relative_items_ok by exact Hk.
  destruct (writable_write _ _ (Json (JObject (saved_members (cwd (fs s)) cache))) Hw)
    as [h Hh].
  exists h. split; [exact Hh|]. unfold saved_members in Hh.
  cbv zeta. rewrite Hh. reflexivity.
Qed.

Lemma save_cache_failed cache_path cache s :
  In "" (keys cache) \/ writable (fs s) cache_path = false ->
  save_cache cache_path cache s = emit (Logged ERROR "Error saving cache") s.
Proof.
  intros H. unfold save_cache.
  destruct (relative_items (cwd (fs s)) cache) as [items|e] eqn:E; [|reflexivity].
  destruct H as [H|H].
  - destruct (relative_items_empty_key (cwd (fs s)) cache H) as [e E']. congruence.
  - destruct (write_not_writable _ _ (Json (JObject (dict_of_items items))) H)
      as [e ->]. reflexivity.
Qed.

Lemma load_cache_object cache_path s members :
  path_exists (fs s) cache_path = true ->
  read_file (fs s) cache_path = Ok (Json (JObject members)) ->
  load_cache cache_path s
  = (Ok (dict_of_items (map (rekey (abspath (cwd (fs s)))) (dict_of_items members))), s).
Proof. intros He Hr. unfold load_cache. now rewrite He, Hr. Qed.

(** Loading what was saved gives the cache keyed by [collapse]. *)
Lemma loaded_saved_members cwd (cache : dict float) :
  wf_cwd cwd = true ->
  dict_of_items (map (rekey (abspath cwd)) (dict_of_items (saved_members cwd cache)))
  = dict_of_items (map (rekey (collapse cwd)) cache).
Proof.
  intros Hwf. unfold saved_members. rewrite dict_of_items_idempotent.
  set (items := map (rekey (rel cwd)) cache).
  assert (Hinj : forall k1 k2, In k1 (keys items) -> In k2 (keys items) ->
                               abspath cwd k1 = abspath cwd k2 -> k1 = k2).
  { intros k1 k2 H1 H2. unfold items in H1, H2. rewrite keys_rekey in H1, H2.
    apply in_map_iff in H1, H2. destruct H1 as [x1 [<- _]], H2 as [x2 [<- _]].
    now apply rel_collapse_inj. }
  rewrite (dict_of_items_rekey float (abspath cwd) (dict_of_items items)).
  - rewrite dict_of_items_idempotent.
    rewrite <- (dict_of_items_rekey float (abspath cwd) items Hinj).
    unfold items. rewrite map_map. f_equal. apply map_ext. intros [k v].
    unfold rekey. cbn [fst snd]. now rewrite abspath_rel_collapse.
  - intros k1 k2 H1 H2.
    apply (proj1 (keys_dict_of_items float items k1)) in H1.
    apply (proj1 (keys_dict_of_items float items k2)) in H2.
    now apply Hinj.
Qed.


Lemma load_cache_absent cache_path s :
  path_exists (fs s) cache_path = false -> load_cache cache_path s = (Ok [], s).
Proof. intros H. unfold load_cache. now rewrite H. Qed.

Lemma load_cache_not_json cache_path s :
  read_file (fs s) cache_path = Ok NotJson ->
  load_cache cache_path s
  = (Ok [],
     emit (Logged ERROR ("Error reading cache file " ++ cache_path
                         ++ ". A new cache will be created.")) s).
Proof.
  intros H. unfold load_cache, path_exists. unfold read_file in H.
  destruct (stat (fs s) cache_path) as [[c|es]|] eqn:E; try discriminate.
  unfold read_file. rewrite E. injection H as ->. reflexivity.
Qed.

Lemma load_cache_not_object cache_path s :
  read_file (fs s) cache_path = Ok (Json JOther) ->
  load_cache cache_path s = (Raise AttributeError, s).
Proof.
  intros H. unfold load_cache, path_exists. unfold read_file in H.
  destruct (stat (fs s) cache_path) as [[c|es]|] eqn:E; try discriminate.
  unfold read_file. rewrite E. injection H as ->. reflexivity.
Qed.

(** ** glob: the pattern [get_audio_files] builds *)

Lemma contains_app c a b : contains c (a ++ b) = contains c a || contains c b.
Proof.
  induction a as [|x a IH]; [reflexivity|].
  cbn [append contains]. now rewrite IH, orb_assoc.
Qed.

Lemma has_magic_app a b : has_magic (a ++ b) = has_magic a || has_magic b.
Proof.
  unfold has_magic. rewrite !contains_app.
  destruct (contains "*" a), (contains "?" a), (contains "[" a),
    (contains "*" b), (contains "?" b), (contains "[" b); reflexivity.
Qed.

Lemma join_empty_l x : join "" x = x.
Proof. unfold join. now destruct (startswith_sep x). Qed.

Lemma rstrip_sep_id s : endswith_sep s = false -> rstrip_sep s = s.
Proof.
  induction s as [|c s IH]; [reflexivity|].
  cbn [endswith_sep rstrip_sep]. destruct s as [|c' s].
  - intros ->. reflexivity.
  - intros H. rewrite IH by exact H. cbn [rstrip_sep] in *.
    destruct (String.eqb_spec (String c' s) ""); [discriminate | reflexivity].
Qed.

Lemma rstrip_sep_snoc a : rstrip_sep (a ++ String sep "") = rstrip_sep a.
Proof.
  induction a as [|c a IH]; [reflexivity|].
  cbn [append rstrip_sep]. now rewrite IH.
Qed.

Lemma contains_rstrip_sep c s :
  contains c (rstrip_sep s) = true -> contains c s = true.
Proof.
  induction s as [|x s IH]; [trivial|].
  cbn [rstrip_sep contains].
  destruct (String.eqb (rstrip_sep s) "" && Ascii.eqb x sep); [discriminate|].
  cbn [contains]. rewrite !orb_true_iff. intros [H|H]; [now left | right; now apply IH].
Qed.

Lemma has_magic_rstrip_sep s : has_magic s = false -> has_magic (rstrip_sep s) = false.
Proof.
  unfold has_magic. rewrite !orb_false_iff. intros [[H1 H2] H3].
  repeat split;
    match goal with
    | |- contains ?c _ = false =>
        destruct (contains c (rstrip_sep s)) eqn:E; [|reflexivity];
        apply contains_rstrip_sep in E; congruence
    end.
Qed.

Lemma rsplit_sep_no_sep t : no_sep t = true -> rsplit_sep t = ("", t).
Proof.
  induction t as [|c t IH]; [reflexivity|].
  rewrite no_sep_cons, andb_true_iff, negb_true_iff. intros [Hc Ht].
  cbn [rsplit_sep]. rewrite (IH Ht), Hc. reflexivity.
Qed.

Lemma rsplit_sep_app a t :
  no_sep t = true -> rsplit_sep (a ++ String sep t) = ((a ++ "/")%string, t).
Proof.
  intros Ht. induction a as [|c a IH].
  - cbn [append rsplit_sep]. rewrite (rsplit_sep_no_sep t Ht).
    now rewrite Ascii.eqb_refl.
  - cbn [append rsplit_sep]. rewrite IH.
    destruct (Ascii.eqb c sep); [reflexivity|].
    destruct a; reflexivity.
Qed.

Lemma endswith_sep_snoc s : endswith_sep s = true -> exists F, s = (F ++ "/")%string.
Proof.
  induction s as [|c s IH]; [discriminate|].
  cbn [endswith_sep]. destruct s as [|c' s].
  - intros H. apply Ascii.eqb_eq in H. subst. now exists "".
  - intros H. destruct (IH H) as [F ->]. now exists (String c F).
Qed.

Lemma path_split_pattern F t :
  no_sep t = true -> t <> "" ->
  path_split (F ++ String sep t)
  = (if String.eqb (rstrip_sep F) "" then (F ++ "/")%string else rstrip_sep F, t).
Proof.
  intros Ht Hne. unfold path_split. rewrite rsplit_sep_app by exact Ht.
  now rewrite rstrip_sep_snoc.
Qed.

Lemma length_append (a b : string) :
  String.length (a ++ b) = String.length a + String.length b.
Proof. induction a as [|c a IH]; simpl; [reflexivity | now rewrite IH]. Qed.

Lemma append_longer (a b : string) : b <> "" -> (a ++ b)%string <> a.
Proof.
  intros Hb E. apply (f_equal String.length) in E. rewrite length_append in E.
  destruct b; [congruence | simpl in E; lia].
Qed.

Lemma append_empty_r (a : string) : (a ++ "")%string = a.
Proof. induction a as [|c a IH]; simpl; [reflexivity | now rewrite IH]. Qed.

Lemma fnmatch_suffix_nonempty e : fnmatch "" ("*." ++ e) = false.
Proof. reflexivity. Qed.

(** The folder with one slash at its end, as [os.path.join] leaves it
    before the pattern. *)
Lemma join_folder_tail folder t :
  folder <> "" -> startswith_sep t = false ->
  exists F, join folder t = (F ++ String sep t)%string
            /\ rstrip_sep F = rstrip_sep folder
            /\ (rstrip_sep folder = "" -> (F ++ "/")%string = folder).
Proof.
  intros Hne Ht. unfold join. rewrite Ht.
  apply String.eqb_neq in Hne. rewrite Hne. cbn [orb].
  destruct (endswith_sep folder) eqn:He.
  - destruct (endswith_sep_snoc folder He) as [F ->]. exists F.
    rewrite append_assoc. split; [reflexivity|]. split; [|reflexivity].
    now rewrite rstrip_sep_snoc.
  - exists folder. split; [reflexivity|]. split; [reflexivity|].
    rewrite (rstrip_sep_id folder He). intros ->. discriminate.
Qed.

(** One level of [iglob], with the split of the pattern named. *)
Lemma iglob_step fuel h pathname dironly dirname basename :
  path_split pathname = (dirname, basename) ->
  iglob (S fuel) h pathname dironly
  = if negb (has_magic pathname) then
      if negb (String.eqb basename "")
      then (if path_exists h pathname then [pathname] else [])
      else (if path_isdir h dirname then [pathname] else [])
    else if String.eqb dirname "" then
      if isrecursive basename then glob2 h "" basename dironly
      else glob1 h "" basename dironly
    else
      flat_map
        (fun dirname =>
           map (join dirname)
               ((if has_magic basename
                 then (if isrecursive basename then glob2 else glob1)
                 else glob0) h dirname basename dironly))
        (if negb (String.eqb dirname pathname) && has_magic dirname
         then iglob fuel h dirname true
         else [dirname]).
Proof. intros E. cbn [iglob]. rewrite E. reflexivity. Qed.

(** For a folder without wildcard characters, the pattern
    [folder/**/*.ext] lists every directory at or below the folder and
    matches [*.ext] against the names in each. *)
Lemma glob_pattern h folder e :
  has_magic folder = false -> no_sep e = true ->
  glob h (join folder ("**/*." ++ e))
  = flat_map (fun d => map (join d) (glob1 h d ("*." ++ e) false))
             (map (join (scan_root folder)) (glob2 h (scan_root folder) "**" true)).
Proof.
  intros Hmagic He.
  assert (Hb : no_sep ("*." ++ e) = true).
  { change ("*." ++ e)%string with (String "*" (String "." e)).
    rewrite !no_sep_cons, He. reflexivity. }
  assert (Hfirst : forall d name rest,
             map (join d) (glob1 h d ("*." ++ e) false) = name :: rest -> name <> "").
  { intros d name rest E Hn. subst name.
    assert (Hin : In "" (map (join d) (glob1 h d ("*." ++ e) false)))
      by (rewrite E; now left).
    apply in_map_iff in Hin. destruct Hin as [x [Hx Hin]].
    unfold glob1 in Hin. apply filter_In in Hin. destruct Hin as [_ Hm].
    assert (x = "").
    { unfold join in Hx. destruct (startswith_sep x); [exact Hx|].
      destruct (String.eqb d "" || endswith_sep d);
        destruct d; simpl in Hx; congruence. }
    subst x. rewrite fnmatch_suffix_nonempty in Hm. discriminate. }
  destruct (String.eqb_spec folder "") as [->|Hne].
  - (* the pattern is relative to the working directory *)
    rewrite join_empty_l. unfold scan_root. simpl rstrip_sep. cbn [String.eqb].
    rewrite (map_ext _ (fun x => x) join_empty_l), map_id.
    assert (Hig : forall fuel,
               iglob (S (S fuel)) h ("**" ++ String sep ("*." ++ e)) false
               = flat_map (fun d => map (join d) (glob1 h d ("*." ++ e) false))
                          (glob2 h "" "**" true)).
    { intros fuel.
      rewrite (iglob_step _ _ _ _ "**" ("*." ++ e)%string)
        by (rewrite path_split_pattern by (trivial; discriminate); reflexivity).
      reflexivity. }
    unfold glob.
    change ("**/*." ++ e)%string with ("**" ++ String sep ("*." ++ e))%string.
    change (String.length ("**" ++ String sep ("*." ++ e)))
      with (S (S (String.length (String sep ("*." ++ e))))).
    rewrite Hig.
    change (String.eqb ("**" ++ String sep ("*." ++ e)) ""
            || isrecursive (substring 0 2 ("**" ++ String sep ("*." ++ e))))
      with true.
    cbv iota.
    destruct (flat_map _ _) as [|first rest] eqn:Ef; [reflexivity|].
    destruct (String.eqb_spec first "") as [->|_]; [|reflexivity].
    exfalso. unfold glob2 in Ef. cbn [String.eqb orb app flat_map] in Ef.
    destruct (map (join "") (glob1 h "" ("*." ++ e) false)) as [|n0 r0] eqn:E0.
    + cbn [app] in Ef.
      (* the first name comes from a directory further down *)
      clear E0. revert Ef. generalize (rlistdir h "" true).
      induction l as [|d l IH]; [discriminate|]. cbn [flat_map].
      destruct (map (join d) (glob1 h d ("*." ++ e) false)) as [|n1 r1] eqn:E1;
        [exact IH|].
      cbn [app]. intros [= -> _]. now apply (Hfirst d "" r1).
    + cbn [app] in Ef. injection Ef as -> _. now apply (Hfirst "" "" r0).
  - destruct (join_folder_tail folder ("**/*." ++ e) Hne eq_refl) as [F [-> [HF HF']]].
    assert (HD : (if String.eqb (rstrip_sep F) "" then (F ++ "/")%string
                  else rstrip_sep F) = scan_root folder).
    { unfold scan_root. rewrite HF.
      destruct (String.eqb_spec (rstrip_sep folder) ""); [now apply HF' | reflexivity]. }
    assert (HmD : has_magic (scan_root folder) = false).
    { unfold scan_root. destruct (String.eqb (rstrip_sep folder) "");
        [exact Hmagic | now apply has_magic_rstrip_sep]. }
    assert (HneD : scan_root folder <> "").
    { unfold scan_root. destruct (String.eqb_spec (rstrip_sep folder) ""); assumption. }
    set (D1 := (F ++ String sep "**")%string).
    assert (HP : (F ++ String sep ("**/*." ++ e))%string
                 = (D1 ++ String sep ("*." ++ e))%string).
    { unfold D1. rewrite append_assoc. reflexivity. }
    rewrite HP.
    assert (HmD1 : has_magic D1 = true).
    { unfold D1. rewrite has_magic_app. apply orb_true_iff. now right. }
    assert (Hsplit1 : path_split (D1 ++ String sep ("*." ++ e)) = (D1, ("*." ++ e)%string)).
    { rewrite path_split_pattern by (trivial; discriminate).
      assert (Hr : rstrip_sep D1 = D1).
      { apply rstrip_sep_id. unfold D1.
        change (F ++ String sep "**")%string with (F ++ (String sep "**"))%string.
        now rewrite endswith_sep_app by discriminate. }
      rewrite Hr. destruct (String.eqb_spec D1 "") as [E|_]; [|reflexivity].
      unfold D1 in E. destruct F; discriminate. }
    assert (Hsplit2 : path_split D1 = (scan_root folder, "**")).
    { unfold D1. rewrite path_split_pattern by (trivial; discriminate). now rewrite HD. }
    assert (Hig : forall fuel,
               iglob (S (S fuel)) h (D1 ++ String sep ("*." ++ e)) false
               = flat_map (fun d => map (join d) (glob1 h d ("*." ++ e) false))
                          (map (join (scan_root folder))
                               (glob2 h (scan_root folder) "**" true))).
    { intros fuel.
      rewrite (iglob_step _ _ _ _ _ _ Hsplit1), (iglob_step _ _ _ _ _ _ Hsplit2).
      rewrite has_magic_app, HmD1. cbn [orb negb].
      destruct (String.eqb_spec D1 "") as [E|_];
        [unfold D1 in E; destruct F; discriminate|].
      destruct (String.eqb_spec D1 (D1 ++ String sep ("*." ++ e))) as [E|_];
        [symmetry in E; now apply append_longer in E|].
      cbn [negb andb]. rewrite HmD. rewrite andb_false_r.
      destruct (String.eqb_spec (scan_root folder) "") as [E|_]; [contradiction|].
      cbn [flat_map]. rewrite app_nil_r. reflexivity. }
    unfold glob.
    assert (Hlen : exists fuel, String.length (D1 ++ String sep ("*." ++ e)) = S fuel).
    { rewrite length_append. cbn [String.length]. rewrite Nat.add_succ_r. eauto. }
    destruct Hlen as [fuel ->]. rewrite Hig.
    assert (Hrec : isrecursive (substring 0 2 (D1 ++ String sep ("*." ++ e))) = false).
    { unfold D1. destruct F as [|c F].
      - reflexivity.
      - cbn [append substring]. unfold isrecursive. cbn [String.eqb].
        destruct (Ascii.eqb_spec c "*") as [->|_]; [|reflexivity].
        exfalso. pose proof (has_magic_rstrip_sep folder Hmagic) as Hm.
        rewrite <- HF in Hm. cbn [rstrip_sep] in Hm.
        change (Ascii.eqb "*" sep) with false in Hm. rewrite andb_false_r in Hm.
        discriminate. }
    rewrite Hrec.
    destruct (String.eqb_spec (D1 ++ String sep ("*." ++ e)) "") as [E|_]; [|reflexivity].
    unfold D1 in E. destruct F; discriminate.
Qed.

(** ** The tree: well-formed names, and what [rlist] lists *)

(** Structural induction on the tree. *)
Lemma node_induction (P : node -> Prop) :
  (forall c, P (File c)) ->
  (forall es, Forall (fun e => P (snd e)) es -> P (Dir es)) ->
  forall n, P n.
Proof.
  intros HF HD.
  fix IH 1. intros [c|es]; [apply HF|]. apply HD.
  induction es as [|[x child] es IHes]; constructor; [apply IH | exact IHes].
Qed.

Lemma distinct_NoDup names : distinct names = true -> NoDup names.
Proof.
  induction names as [|x rest IH]; simpl; [constructor|].
  rewrite andb_true_iff, negb_true_iff, mem_false. intros [Hx Hr].
  constructor; [exact Hx | now apply IH].
Qed.

Lemma wf_node_entries es :
  wf_node (Dir es) = true ->
  NoDup (map fst es)
  /\ Forall (fun e => clean (fst e) = true /\ wf_node (snd e) = true) es.
Proof.
  cbn [wf_node]. rewrite andb_true_iff. intros [Hd Hall].
  split; [now apply distinct_NoDup|]. clear Hd.
  induction es as [|[x child] es IH]; [constructor|].
  rewrite !andb_true_iff in Hall. destruct Hall as [[Hx Hc] Hall].
  constructor; [now split | now apply IH].
Qed.

Lemma lookup_In (A : Type) (es : list (string * A)) x a :
  lookup x es = Some a -> In (x, a) es.
Proof.
  induction es as [|[y b] es IH]; simpl; [discriminate|].
  destruct (String.eqb_spec y x) as [->|_]; [intros [= ->]; now left|].
  intros H. right. now apply IH.
Qed.

Lemma In_lookup (A : Type) (es : list (string * A)) x a :
  NoDup (map fst es) -> In (x, a) es -> lookup x es = Some a.
Proof.
  induction es as [|[y b] es IH]; simpl; [contradiction|].
  intros Hnd [E|HIn].
  - injection E as -> ->. now rewrite String.eqb_refl.
  - inversion Hnd as [|? ? Hnot Hnd']; subst.
    destruct (String.eqb_spec y x) as [->|_]; [|now apply IH].
    exfalso. apply Hnot. apply (in_map fst) in HIn. exact HIn.
Qed.

Lemma get_app n a b :
  get n (a ++ b) = match get n a with Some m => get m b | None => None end.
Proof.
  revert n. induction a as [|x a IH]; intros n; [reflexivity|].
  cbn [app get]. destruct n as [c|es]; [reflexivity|].
  destruct (lookup x es); [apply IH | reflexivity].
Qed.

Lemma get_wf n names m :
  wf_node n = true -> get n names = Some m -> wf_node m = true.
Proof.
  revert n. induction names as [|x names IH]; intros n Hwf; cbn [get].
  - now intros [= <-].
  - destruct n as [c|es]; [discriminate|].
    destruct (lookup x es) as [child|] eqn:El; [|discriminate].
    apply IH. apply lookup_In in El.
    destruct (wf_node_entries es Hwf) as [_ Hall].
    rewrite Forall_forall in Hall. now apply (Hall (x, child)).
Qed.

Lemma get_clean n names m :
  wf_node n = true -> get n names = Some m ->
  Forall (fun c => clean c = true) names.
Proof.
  revert n. induction names as [|x names IH]; intros n Hwf; cbn [get]; [constructor|].
  destruct n as [c|es]; [discriminate|].
  destruct (lookup x es) as [child|] eqn:El; [|discriminate].
  intros Hg. apply lookup_In in El.
  destruct (wf_node_entries es Hwf) as [_ Hall].
  rewrite Forall_forall in Hall. destruct (Hall (x, child) El) as [Hx Hc].
  constructor; [exact Hx | now apply (IH child)].
Qed.

Lemma join_name_chain x names :
  clean x = true -> names <> [] -> Forall (fun c => clean c = true) names ->
  join x (join_sep names) = join_sep (x :: names).
Proof.
  intros Hx Hne Hnames. apply clean_spec in Hx. destruct Hx as [Hx [_ [_ Hs]]].
  unfold join. rewrite (startswith_sep_join_sep names Hnames).
  apply String.eqb_neq in Hx. rewrite Hx, (endswith_sep_no_sep x Hs).
  destruct names; [congruence | reflexivity].
Qed.

(** [rlist True n]: the chains of visible names that lead from [n] to a
    directory below it. *)
Lemma rlist_dirs n :
  wf_node n = true ->
  forall x,
    In x (rlist true n) <->
    exists names es,
      names <> [] /\ x = join_sep names
      /\ Forall (fun c => visible c = true) names
      /\ get n names = Some (Dir es).
Proof.
  induction n as [c|es IH] using node_induction; intros Hwf x.
  - simpl. split; [intros [] | intros [names [es [Hne [_ [_ Hg]]]]]].
    destruct names; [congruence | discriminate].
  - destruct (wf_node_entries es Hwf) as [Hnd Hall].
    assert (Hshape :
              In x (rlist true (Dir es)) <->
              exists name child,
                In (name, child) es /\ is_dir child = true /\ visible name = true
                /\ (x = name \/ exists y, In y (rlist true child) /\ x = join name y)).
    { cbn [rlist]. clear IH Hwf Hnd Hall. induction es as [|[name child] es IHes].
      - simpl. split; [intros [] | intros [? [? [[] _]]]].
      - rewrite in_app_iff, IHes. cbn [negb orb]. unfold visible. split.
        + intros [H|[n' [c' [Hin H]]]].
          * destruct (is_dir child && negb (ishidden name)) eqn:E; [|destruct H].
            apply andb_true_iff in E. destruct E as [E1 E2].
            exists name, child. split; [now left|]. split; [exact E1|].
            split; [exact E2|]. destruct H as [H|H]; [now left|right].
            apply in_map_iff in H. destruct H as [y [<- Hy]]. eauto.
          * exists n', c'. split; [now right | exact H].
        + intros [n' [c' [[E|Hin] [Hd [Hv H]]]]].
          * injection E as -> ->. left. rewrite Hd, Hv. cbn [andb].
            destruct H as [->|[y [Hy ->]]]; [now left | right].
            apply in_map_iff. eauto.
          * right. exists n', c'. pure_tauto. }
    rewrite Hshape. clear Hshape. split.
    + intros [name [child [Hin [Hd [Hv H]]]]].
      pose proof (In_lookup _ es name child Hnd Hin) as Hl.
      rewrite Forall_forall in IH, Hall.
      destruct (Hall _ Hin) as [Hclean Hwfc]. cbn [fst snd] in *.
      destruct H as [->|[y [Hy ->]]].
      * destruct child as [c|es']; [discriminate|].
        exists [name], es'. repeat split; try discriminate.
        -- constructor; [exact Hv | constructor].
        -- cbn [get]. now rewrite Hl.
      * apply (IH _ Hin Hwfc) in Hy.
        destruct Hy as [names [es' [Hne [-> [Hvis Hg]]]]].
        exists (name :: names), es'. split; [discriminate|]. split.
        -- apply join_name_chain; [exact Hclean | exact Hne |].
           now apply (get_clean child names (Dir es')).
        -- split; [now constructor|]. cbn [get]. now rewrite Hl.
    + intros [names [es' [Hne [-> [Hvis Hg]]]]].
      destruct names as [|name names]; [congruence|].
      cbn [get] in Hg. destruct (lookup name es) as [child|] eqn:El; [|discriminate].
      pose proof (lookup_In _ es name child El) as Hin.
      rewrite Forall_forall in IH, Hall.
      destruct (Hall _ Hin) as [Hclean Hwfc]. cbn [fst snd] in *.
      inversion Hvis as [|? ? Hv Hvis']; subst.
      exists name, child. split; [exact Hin|]. split.
      * destruct names; [cbn [get] in Hg; injection Hg as ->; reflexivity|].
        destruct child; [discriminate | reflexivity].
      * split; [exact Hv|]. destruct names as [|n2 names]; [now left|]. right.
        exists (join_sep (n2 :: names)). split.
        -- apply (IH _ Hin Hwfc). exists (n2 :: names), es'.
           repeat split; trivial; discriminate.
        -- symmetry. apply join_name_chain; [exact Hclean | discriminate |].
           now apply (get_clean child (n2 :: names) (Dir es')).
Qed.

(** ** Path resolution along a chain of names *)

Lemma stat_stat_from h path :
  path <> "" ->
  stat h path = stat_from (root h) (start_stack h path) (split_sep path).
Proof.
  intros Hne. unfold stat, resolve, stat_from, start_stack.
  apply String.eqb_neq in Hne. now rewrite Hne.
Qed.

Lemma locate_app r l1 l2 stack :
  locate r stack (l1 ++ l2)
  = match locate r stack l1 with
    | Some stack1 => locate r stack1 l2
    | None => None
    end.
Proof.
  revert stack. induction l1 as [|c l1 IH]; intros stack; [reflexivity|].
  cbn [app locate]. destruct (get r (rev stack)) as [[c0|es]|]; try reflexivity.
  destruct (String.eqb c "" || String.eqb c "."); [apply IH|].
  destruct (String.eqb c ".."); apply IH.
Qed.

Lemma stat_from_app r l1 l2 stack :
  stat_from r stack (l1 ++ l2)
  = match locate r stack l1 with
    | Some stack1 => stat_from r stack1 l2
    | None => None
    end.
Proof.
  unfold stat_from. rewrite locate_app. now destruct (locate r stack l1).
Qed.

Lemma stat_from_missing r stack comps :
  get r (rev stack) = None -> stat_from r stack comps = None.
Proof.
  intros H. unfold stat_from. destruct comps as [|c comps]; cbn [locate].
  - exact H.
  - now rewrite H.
Qed.

Lemma stat_from_file r stack comps c :
  get r (rev stack) = Some (File c) -> comps <> [] -> stat_from r stack comps = None.
Proof.
  intros H Hne. unfold stat_from. destruct comps as [|x comps]; [congruence|].
  cbn [locate]. now rewrite H.
Qed.

Lemma step_clean_locate r stack c comps es :
  clean c = true -> get r (rev stack) = Some (Dir es) ->
  locate r stack (c :: comps) = locate r (c :: stack) comps.
Proof.
  intros Hc Hg. cbn [locate]. rewrite Hg.
  apply clean_spec in Hc. destruct Hc as [H1 [H2 [H3 _]]].
  apply String.eqb_neq in H1, H2, H3. now rewrite H1, H2, H3.
Qed.

(** Along proper names resolution is [get]. *)
Lemma stat_from_names r names :
  Forall (fun c => clean c = true) names ->
  forall stack n,
    get r (rev stack) = Some n -> stat_from r stack names = get n names.
Proof.
  induction 1 as [|c names Hc Hnames IH]; intros stack n Hg.
  - unfold stat_from. cbn [locate get]. exact Hg.
  - destruct n as [c0|es].
    + rewrite (stat_from_file r stack (c :: names) c0 Hg) by discriminate. reflexivity.
    + unfold stat_from. rewrite (step_clean_locate r stack c names es Hc Hg).
      fold (stat_from r (c :: stack) names). cbn [get].
      assert (Hg' : get r (rev (c :: stack)) = lookup c es).
      { cbn [rev]. rewrite get_app, Hg. cbn [get]. now destruct (lookup c es). }
      destruct (lookup c es) as [child|] eqn:El.
      * now apply IH.
      * now apply stat_from_missing.
Qed.

(** A trailing slash asks for a directory. *)
Lemma stat_from_empties r stack n k :
  get r (rev stack) = Some n ->
  stat_from r stack (repeat "" (S k)) = if is_dir n then Some n else None.
Proof.
  intros Hg. unfold stat_from. induction k as [|k IH].
  - cbn [repeat locate]. rewrite Hg. destruct n; [reflexivity|]. cbn [String.eqb orb].
    exact Hg.
  - change (repeat "" (S (S k))) with ("" :: repeat "" (S k)).
    cbn [locate]. rewrite Hg. destruct n; [reflexivity|]. cbn [String.eqb orb]. exact IH.
Qed.

Lemma start_stack_app h a b : a <> "" -> start_stack h (a ++ b) = start_stack h a.
Proof.
  intros Ha. unfold start_stack, isabs. now rewrite startswith_sep_app.
Qed.

(** Resolution goes through a prefix that ends at a slash. *)
Lemma stat_prefix h D tail :
  D <> "" ->
  stat h (D ++ String sep tail)
  = match resolve h D with
    | Some stack => stat_from (root h) stack (split_sep tail)
    | None => None
    end.
Proof.
  intros HD. rewrite stat_stat_from by (destruct D; [congruence | discriminate]).
  rewrite split_sep_app, stat_from_app, start_stack_app by exact HD.
  unfold resolve. apply String.eqb_neq in HD. rewrite HD. reflexivity.
Qed.

Lemma stat_resolve h path n :
  stat h path = Some n ->
  exists stack, resolve h path = Some stack /\ get (root h) (rev stack) = Some n.
Proof.
  unfold stat. destruct (resolve h path) as [stack|]; [|discriminate]. eauto.
Qed.

Lemma join_root D x :
  D <> "" -> startswith_sep x = false ->
  exists D0, join D x = (D0 ++ String sep x)%string
             /\ (D0 = D \/ D = (D0 ++ "/")%string).
Proof.
  intros HD Hx. unfold join. rewrite Hx. apply String.eqb_neq in HD. rewrite HD.
  cbn [orb]. destruct (endswith_sep D) eqn:He.
  - destruct (endswith_sep_snoc D He) as [D0 ->]. exists D0.
    rewrite append_assoc. split; [reflexivity | now right].
  - exists D. split; [reflexivity | now left].
Qed.

Lemma join_not_empty D x : D <> "" -> join D x <> "".
Proof.
  intros HD. unfold join. destruct (startswith_sep x) eqn:Hx.
  - destruct x; discriminate.
  - destruct D as [|c D]; [congruence|].
    destruct (String.eqb (String c D) "" || endswith_sep (String c D)); discriminate.
Qed.

Lemma stat_root_prefix h D D0 n :
  D <> "" -> D0 = D \/ D = (D0 ++ "/")%string -> stat h D = Some n ->
  exists stack,
    get (root h) (rev stack) = Some n
    /\ forall tail,
        stat h (D0 ++ String sep tail) = stat_from (root h) stack (split_sep tail).
Proof.
  intros HD [-> | ->] Hs.
  - destruct (stat_resolve h D n Hs) as [stack [Hr Hg]]. exists stack.
    split; [exact Hg|]. intros tail. now rewrite stat_prefix, Hr.
  - destruct (String.eqb_spec D0 "") as [->|HD0].
    + (* the root directory *)
      exists []. cbn [append] in *.
      assert (Habs : start_stack h "/" = []) by reflexivity.
      rewrite stat_stat_from, Habs in Hs by discriminate.
      change (split_sep "/") with (repeat "" 2) in Hs.
      rewrite (stat_from_empties (root h) [] (root h) 1 eq_refl) in Hs.
      destruct (is_dir (root h)) eqn:Hd; [|discriminate]. injection Hs as <-.
      split; [reflexivity|]. intros tail.
      rewrite stat_stat_from by discriminate.
      assert (Habs' : start_stack h (String sep tail) = []).
      { unfold start_stack, isabs. cbn [startswith_sep]. now rewrite Ascii.eqb_refl. }
      rewrite Habs', split_sep_cons_sep.
      change ("" :: split_sep tail) with ([""] ++ split_sep tail).
      rewrite stat_from_app. cbn [locate rev get].
      destruct (root h); [discriminate | reflexivity].
    + change (D0 ++ "/")%string with (D0 ++ String sep "")%string in Hs.
      rewrite stat_prefix in Hs by exact HD0.
      destruct (resolve h D0) as [stack|] eqn:Hr; [|discriminate].
      change (split_sep "") with (repeat "" 1) in Hs.
      destruct (get (root h) (rev stack)) as [m|] eqn:Hg;
        [|rewrite stat_from_missing in Hs by exact Hg; discriminate].
      rewrite (stat_from_empties _ _ m 0 Hg) in Hs.
      destruct (is_dir m); [|discriminate]. injection Hs as ->.
      exists stack. split; [exact Hg|]. intros tail. now rewrite stat_prefix, Hr.
Qed.

Lemma stat_dir_chain h D n names :
  D <> "" -> stat h D = Some n ->
  names <> [] -> Forall (fun c => clean c = true) names ->
  stat h (join D (join_sep names)) = get n names.
Proof.
  intros HD Hs Hne Hnames.
  destruct (join_root D (join_sep names) HD (startswith_sep_join_sep names Hnames))
    as [D0 [-> HD0]].
  destruct (stat_root_prefix h D D0 n HD HD0 Hs) as [stack [Hg ->]].
  rewrite split_join_sep by (trivial; now apply clean_no_sep).
  now apply stat_from_names.
Qed.

Lemma stat_dir_self h D n :
  D <> "" -> stat h D = Some n ->
  stat h (join D "") = if is_dir n then Some n else None.
Proof.
  intros HD Hs. destruct (join_root D "" HD eq_refl) as [D0 [-> HD0]].
  destruct (stat_root_prefix h D D0 n HD HD0 Hs) as [stack [Hg ->]].
  change (split_sep "") with (repeat "" 1). now apply stat_from_empties.
Qed.

Lemma stat_dot h n :
  stat h "." = Some n ->
  is_dir n = true /\ get (root h) (rev (start_stack h ".")) = Some n.
Proof.
  rewrite stat_stat_from by discriminate.
  change (split_sep ".") with ["."].
  unfold stat_from. cbn [locate].
  destruct (get (root h) (rev (start_stack h "."))) as [[c|es]|] eqn:E;
    try discriminate.
  change (String.eqb "." "" || String.eqb "." ".") with true. cbv iota.
  rewrite E. intros [= <-]. now split.
Qed.

(** ** fnmatch: the pattern [*suffix] *)

Lemma has_magic_cons c s :
  has_magic (String c s) = false ->
  Ascii.eqb c "*" = false /\ Ascii.eqb c "?" = false /\ Ascii.eqb c "[" = false
  /\ has_magic s = false.
Proof.
  unfold has_magic. cbn [contains].
  rewrite (Ascii.eqb_sym "*" c), (Ascii.eqb_sym "?" c), (Ascii.eqb_sym "[" c).
  rewrite !orb_false_iff. pure_tauto.
Qed.

Lemma tokens_literal s :
  has_magic s = false -> tokens Plain s = map TLit (list_ascii_of_string s).
Proof.
  induction s as [|c s IH]; [reflexivity|]. intros H.
  apply has_magic_cons in H. destruct H as [H1 [H2 [H3 H]]].
  cbn [tokens list_ascii_of_string map]. rewrite H1, H2, H3. now rewrite IH.
Qed.

Lemma matches_literal s name :
  matches (map TLit (list_ascii_of_string s)) name = String.eqb s name.
Proof.
  revert name. induction s as [|c s IH]; intros [|c' name]; try reflexivity.
  cbn [list_ascii_of_string map matches String.eqb]. rewrite IH.
  now destruct (Ascii.eqb c c').
Qed.

Lemma matches_star toks name :
  matches (TStar :: toks) name = true
  <-> exists a b, name = (a ++ b)%string /\ matches toks b = true.
Proof.
  induction name as [|c name IH].
  - cbn [matches]. rewrite orb_false_r. split.
    + intros H. now exists "", "".
    + intros [a [b [E H]]]. destruct a; [|discriminate]. simpl in E. now subst.
  - change (matches (TStar :: toks) (String c name))
      with (matches toks (String c name) || matches (TStar :: toks) name).
    rewrite orb_true_iff, IH. split.
    + intros [H|[a [b [-> H]]]].
      * now exists "", (String c name).
      * now exists (String c a), b.
    + intros [[|c' a] [b [E H]]].
      * left. simpl in E. now subst.
      * right. simpl in E. injection E as <- ->. eauto.
Qed.

Lemma fnmatch_star_suffix name suffix :
  has_magic suffix = false ->
  fnmatch name ("*" ++ suffix) = true <-> has_suffix name suffix.
Proof.
  intros H. unfold fnmatch, has_suffix. cbn [append tokens].
  change (Ascii.eqb "*" "*") with true. cbv iota.
  rewrite matches_star, (tokens_literal suffix H). split.
  - intros [a [b [-> Hb]]]. rewrite matches_literal in Hb.
    apply String.eqb_eq in Hb. subst. now exists a.
  - intros [stem ->]. exists stem, suffix. split; [reflexivity|].
    rewrite matches_literal. apply String.eqb_refl.
Qed.

(** ** glob: the entries the scan returns *)

Lemma stat_dir_string h D n0 names :
  stat h (root_or_dot D) = Some n0 -> is_dir n0 = true ->
  Forall (fun c => clean c = true) names ->
  stat h (root_or_dot (dir_string D names)) = get n0 names.
Proof.
  intros Hs Hd Hnames. unfold dir_string, root_or_dot in *.
  destruct (String.eqb_spec D "") as [->|HD].
  - rewrite join_empty_l. destruct names as [|x names]; [exact Hs|].
    pose proof (join_sep_nonempty (x :: names)) as Hne.
    destruct (String.eqb_spec (join_sep (x :: names)) "") as [E|_];
      [exfalso; apply Hne; trivial; discriminate|].
    rewrite stat_stat_from by (apply Hne; trivial; discriminate).
    rewrite split_join_sep by (try discriminate; now apply clean_no_sep).
    destruct (stat_dot h n0 Hs) as [_ Hg].
    assert (Hst : start_stack h (join_sep (x :: names)) = start_stack h ".").
    { unfold start_stack, isabs. now rewrite startswith_sep_join_sep. }
    rewrite Hst. now apply stat_from_names.
  - destruct (String.eqb_spec (join D (join_sep names)) "") as [E|_];
      [now apply join_not_empty in E|].
    destruct names as [|x names].
    + change (join_sep []) with "". rewrite (stat_dir_self h D n0 HD Hs), Hd.
      reflexivity.
    + apply stat_dir_chain; trivial; discriminate.
Qed.

Lemma listdir_dir_string h D n0 names dironly :
  stat h (root_or_dot D) = Some n0 -> is_dir n0 = true ->
  Forall (fun c => clean c = true) names ->
  listdir h (dir_string D names) dironly
  = match get n0 names with
    | Some (Dir es) => map fst (filter (fun e => negb dironly || is_dir (snd e)) es)
    | _ => []
    end.
Proof.
  intros Hs Hd Hnames. unfold listdir.
  fold (root_or_dot (dir_string D names)).
  now rewrite (stat_dir_string h D n0 names Hs Hd Hnames).
Qed.

Lemma glob2_dirs h D n0 :
  stat h (root_or_dot D) = Some n0 -> is_dir n0 = true ->
  glob2 h D "**" true = "" :: rlist true n0.
Proof.
  intros Hs Hd. unfold glob2, rlistdir, path_isdir. fold (root_or_dot D).
  rewrite Hs. unfold root_or_dot in Hs.
  destruct (String.eqb D ""); [reflexivity|]. now rewrite Hs, Hd.
Qed.

Lemma glob2_not_dir h D pattern :
  (forall es, stat h (root_or_dot D) <> Some (Dir es)) ->
  flat_map (fun d => map (join d) (glob1 h d pattern false))
           (map (join D) (glob2 h D "**" true)) = [].
Proof.
  intros Hnd. unfold glob2, rlistdir, path_isdir, root_or_dot in *.
  destruct (String.eqb_spec D "") as [->|HD].
  - cbn [orb String.eqb] in *.
    destruct (stat h ".") as [[c|es]|] eqn:E; [|now destruct (Hnd es)|];
      cbn [rlist app map flat_map]; rewrite join_empty_l, app_nil_r;
      unfold glob1, listdir; cbn [String.eqb]; rewrite E;
      destruct (negb (ishidden pattern)); reflexivity.
  - cbn [orb].
    destruct (stat h D) as [[c|es]|] eqn:E; [reflexivity | now destruct (Hnd es) | reflexivity].
Qed.

Lemma filter_all (A : Type) (f : A -> bool) (l : list A) :
  (forall x, f x = true) -> filter f l = l.
Proof.
  intros H. induction l as [|x l IH]; simpl; [reflexivity|]. now rewrite H, IH.
Qed.

Lemma In_glob1 h D n0 names es name e :
  stat h (root_or_dot D) = Some n0 -> is_dir n0 = true ->
  Forall (fun c => clean c = true) names ->
  get n0 names = Some (Dir es) -> has_magic e = false ->
  In name (glob1 h (dir_string D names) ("*." ++ e) false)
  <-> In name (map fst es) /\ visible name = true /\ has_suffix name ("." ++ e).
Proof.
  intros Hs Hd Hnames Hg He. unfold glob1.
  rewrite (listdir_dir_string h D n0 names false Hs Hd Hnames), Hg.
  change (ishidden ("*." ++ e)) with false. cbn [negb].
  rewrite (filter_all _ (fun e : string * node => true || is_dir (snd e)))
    by reflexivity.
  rewrite !filter_In. fold (visible name).
  change ("*." ++ e)%string with ("*" ++ ("." ++ e))%string.
  rewrite fnmatch_star_suffix.
  - pure_tauto.
  - change ("." ++ e)%string with (String "." e).
    unfold has_magic in *. cbn [contains].
    change (Ascii.eqb "*" ".") with false. change (Ascii.eqb "?" ".") with false.
    change (Ascii.eqb "[" ".") with false. exact He.
Qed.

(** What one pattern matches below a directory [n0]. *)
Lemma glob_entries h folder e n0 p :
  has_magic folder = false -> no_sep e = true -> has_magic e = false ->
  wf_node n0 = true ->
  stat h (root_or_dot (scan_root folder)) = Some n0 -> is_dir n0 = true ->
  In p (glob h (join folder ("**/*." ++ e)))
  <-> exists names es name,
      Forall (fun c => visible c = true) names
      /\ get n0 names = Some (Dir es)
      /\ In name (map fst es) /\ visible name = true
      /\ has_suffix name ("." ++ e)
      /\ p = join (dir_string (scan_root folder) names) name.
Proof.
  intros Hmagic Hsep He Hwf Hs Hd.
  rewrite (glob_pattern h folder e Hmagic Hsep).
  rewrite (glob2_dirs h (scan_root folder) n0 Hs Hd).
  rewrite in_flat_map. split.
  - intros [d [Hd' Hp]].
    apply in_map_iff in Hd'. destruct Hd' as [x [<- Hx]].
    apply in_map_iff in Hp. destruct Hp as [name [<- Hname]].
    assert (Hx' : exists names es,
               x = join_sep names /\ Forall (fun c => visible c = true) names
               /\ get n0 names = Some (Dir es)).
    { destruct Hx as [<-|Hx].
      - destruct n0 as [c|es0]; [discriminate|]. exists [], es0. now repeat split.
      - apply (rlist_dirs n0 Hwf) in Hx.
        destruct Hx as [names [es [_ [-> [Hvis Hg]]]]]. eauto. }
    destruct Hx' as [names [es [-> [Hvis Hg]]]].
    fold (dir_string (scan_root folder) names) in Hname |- *.
    apply (In_glob1 h _ n0 names es name e Hs Hd
                    (get_clean n0 names _ Hwf Hg) Hg He) in Hname.
    exists names, es, name. pure_tauto.
  - intros [names [es [name [Hvis [Hg [Hin [Hv [Hsuf ->]]]]]]]].
    exists (dir_string (scan_root folder) names). split.
    + unfold dir_string. apply in_map. destruct names as [|x names]; [now left | right].
      apply (rlist_dirs n0 Hwf). exists (x :: names), es.
      repeat split; trivial; discriminate.
    + apply in_map.
      apply (In_glob1 h _ n0 names es name e Hs Hd
                      (get_clean n0 names _ Hwf Hg) Hg He).
      pure_tauto.
Qed.

Lemma glob_not_dir h folder e :
  has_magic folder = false -> no_sep e = true ->
  (forall es, stat h (root_or_dot (scan_root folder)) <> Some (Dir es)) ->
  glob h (join folder ("**/*." ++ e)) = [].
Proof.
  intros Hmagic Hsep Hnd. rewrite (glob_pattern h folder e Hmagic Hsep).
  now apply glob2_not_dir.
Qed.

Lemma rstrip_sep_seps s : exists k, s = (rstrip_sep s ++ seps k)%string.
Proof.
  induction s as [|c s [k IH]]; [now exists 0|].
  cbn [rstrip_sep].
  destruct (String.eqb_spec (rstrip_sep s) "") as [E|_]; cbn [andb].
  - destruct (Ascii.eqb_spec c sep) as [->|_].
    + exists (S k). rewrite E in IH. simpl in *. now rewrite <- IH.
    + exists k. cbn [append]. now rewrite <- IH.
  - exists k. cbn [append]. now rewrite <- IH.
Qed.

Lemma split_sep_seps k : split_sep (seps k) = repeat "" (S k).
Proof.
  induction k as [|k IH]; [reflexivity|].
  cbn [seps]. rewrite split_sep_cons_sep, IH. reflexivity.
Qed.

Lemma stat_trailing h D k :
  D <> "" ->
  stat h (D ++ seps (S k))
  = match stat h D with
    | Some n => if is_dir n then Some n else None
    | None => None
    end.
Proof.
  intros HD. cbn [seps]. rewrite stat_prefix by exact HD.
  unfold stat. destruct (resolve h D) as [stack|]; [|reflexivity].
  rewrite split_sep_seps.
  destruct (get (root h) (rev stack)) as [n|] eqn:Hg.
  - now apply stat_from_empties.
  - now apply stat_from_missing.
Qed.

Lemma stat_dir_scan_root h folder es :
  stat h folder = Some (Dir es) <-> stat h (scan_root folder) = Some (Dir es).
Proof.
  unfold scan_root.
  destruct (String.eqb_spec (rstrip_sep folder) "") as [E|HD]; [reflexivity|].
  destruct (rstrip_sep_seps folder) as [[|k] Hk].
  - rewrite append_empty_r in Hk. now rewrite <- Hk.
  - rewrite Hk at 1. rewrite stat_trailing by exact HD.
    destruct (stat h (rstrip_sep folder)) as [[c|es']|]; cbn [is_dir];
      split; congruence.
Qed.

Lemma stat_root_or_dot_scan_root h folder es :
  stat h (root_or_dot folder) = Some (Dir es)
  <-> stat h (root_or_dot (scan_root folder)) = Some (Dir es).
Proof.
  unfold root_or_dot. destruct (String.eqb_spec folder "") as [->|Hne].
  - reflexivity.
  - assert (Hs : String.eqb (scan_root folder) "" = false).
    { apply String.eqb_neq. unfold scan_root.
      destruct (String.eqb_spec (rstrip_sep folder) ""); assumption. }
    rewrite Hs. apply stat_dir_scan_root.
Qed.

(** ** The scan *)

Lemma extensions_plain :
  Forall (fun e => (no_sep e = true /\ has_magic e = false)
                   /\ (no_sep (upper e) = true /\ has_magic (upper e) = false))
         extensions.
Proof. repeat constructor. Qed.

Lemma In_get_audio_files h folder p :
  In p (get_audio_files h folder)
  <-> exists q ext,
      In ext extensions
      /\ (In q (glob h (join folder ("**/*." ++ ext)))
          \/ In q (glob h (join folder ("**/*." ++ upper ext))))
      /\ p = abspath (cwd h) q.
Proof.
  unfold get_audio_files. rewrite in_map_iff. split.
  - intros [q [<- Hq]]. apply in_flat_map in Hq. destruct Hq as [ext [Hext Hq]].
    apply in_app_iff in Hq. exists q, ext. pure_tauto.
  - intros [q [ext [Hext [Hq ->]]]]. exists q. split; [reflexivity|].
    apply in_flat_map. exists ext. split; [exact Hext|]. apply in_app_iff. pure_tauto.
Qed.


(** C1, amended.  For a folder without wildcard characters that names a
    directory [D] (the empty folder names the working directory), the scan
    returns exactly the absolute paths of the entries, files or
    directories, that lie in [D] or in a directory reached from [D]
    through names that do not begin with a dot, whose own name does not
    begin with a dot and ends in [.ext] or [.EXT], the extension written
    all in lower case or all in upper case, for [ext] one of mp3, wav,
    flac, ogg. *)
Theorem scan_returns_matching_entries (h : filesys) (folder : string)
        (es0 : list (string * node)) (p : string) :
  has_magic folder = false ->
  wf_node (root h) = true ->
  stat h (root_or_dot folder) = Some (Dir es0) ->
  In p (get_audio_files h folder)
  <-> exists names es name ext,
      Forall (fun c => visible c = true) names
      /\ get (Dir es0) names = Some (Dir es)
      /\ In name (map fst es) /\ visible name = true
      /\ In ext extensions
      /\ (has_suffix name ("." ++ ext) \/ has_suffix name ("." ++ upper ext))
      /\ p = abspath (cwd h) (join (dir_string (scan_root folder) names) name).
Proof.
  intros Hmagic Hwf Hs.
  apply stat_root_or_dot_scan_root in Hs.
  assert (Hwf0 : wf_node (Dir es0) = true).
  { destruct (stat_resolve h _ _ Hs) as [stack [_ Hg]].
    now apply (get_wf (root h) (rev stack)). }
  pose proof extensions_plain as Hplain. rewrite Forall_forall in Hplain.
  rewrite In_get_audio_files. split.
  - intros [q [ext [Hext [Hq ->]]]].
    destruct (Hplain ext Hext) as [[Hl1 Hl2] [Hu1 Hu2]].
    destruct Hq as [Hq|Hq].
    + apply (glob_entries h folder ext (Dir es0) q Hmagic Hl1 Hl2 Hwf0 Hs eq_refl) in Hq.
      destruct Hq as [names [es [name [H1 [H2 [H3 [H4 [H5 ->]]]]]]]].
      exists names, es, name, ext. pure_tauto.
    + apply (glob_entries h folder (upper ext) (Dir es0) q Hmagic Hu1 Hu2 Hwf0 Hs eq_refl)
        in Hq.
      destruct Hq as [names [es [name [H1 [H2 [H3 [H4 [H5 ->]]]]]]]].
      exists names, es, name, ext. pure_tauto.
  - intros [names [es [name [ext [H1 [H2 [H3 [H4 [Hext [H5 ->]]]]]]]]]].
    destruct (Hplain ext Hext) as [[Hl1 Hl2] [Hu1 Hu2]].
    exists (join (dir_string (scan_root folder) names) name), ext.
    split; [exact Hext|]. split; [|reflexivity].
    destruct H5 as [H5|H5]; [left | right].
    + apply (glob_entries h folder ext (Dir es0) _ Hmagic Hl1 Hl2 Hwf0 Hs eq_refl).
      exists names, es, name. pure_tauto.
    + apply (glob_entries h folder (upper ext) (Dir es0) _ Hmagic Hu1 Hu2 Hwf0 Hs eq_refl).
      exists names, es, name. pure_tauto.
Qed.

(** ** Whole runs *)

Lemma abspath_not_empty cwd p : abspath cwd p <> "".
Proof.
  unfold abspath, normpath.
  destruct (String.eqb (if isabs p then p else join cwd p) ""); [discriminate|].
  match goal with |- (if String.eqb ?x "" then _ else _) <> _ =>
    destruct (String.eqb_spec x "") as [E|E]; [discriminate | exact E]
  end.
Qed.

Lemma get_audio_files_not_empty h folder k :
  In k (get_audio_files h folder) -> k <> "".
Proof.
  unfold get_audio_files. rewrite in_map_iff. intros [q [<- _]].
  apply abspath_not_empty.
Qed.

(** [load_cache] reads the file system only. *)
Lemma load_cache_same_fs cache_path s t :
  fs s = fs t -> fst (load_cache cache_path s) = fst (load_cache cache_path t).
Proof.
  intros E. unfold load_cache. rewrite E.
  destruct (path_exists (fs t) cache_path); [|reflexivity].
  destruct (read_file (fs t) cache_path) as [c|]; [|reflexivity].
  destruct (json_load c) as [[]|[]]; reflexivity.
Qed.

Lemma reconcile_all cache files :
  NoDup (keys cache) -> (forall k, In k (keys cache) -> In k files) ->
  reconcile cache files = cache.
Proof.
  intros Hnd Hin. rewrite reconcile_filter by exact Hnd.
  induction cache as [|[k v] cache IH]; [reflexivity|]. cbn [filter fst].
  assert (Hk : mem k files = true) by (apply mem_In, Hin; now left).
  rewrite Hk. f_equal. apply IH.
  - now inversion Hnd.
  - intros k' Hk'. apply Hin. now right.
Qed.

Lemma collapse_collapse cwd k :
  wf_cwd cwd = true -> collapse cwd (collapse cwd k) = collapse cwd k.
Proof.
  intros Hwf.
  pose proof (path_list_clean cwd k Hwf) as HP.
  assert (H : path_list cwd (collapse cwd k) = path_list cwd k).
  { unfold path_list at 1. unfold collapse.
    change (String sep (join_sep (path_list cwd k)))
      with (slashes_string 1 ++ join_sep (path_list cwd k))%string.
    unfold abspath. rewrite isabs_normal by now left.
    rewrite normpath_normal by (trivial; now left).
    now apply nonempty_split_join. }
  unfold collapse at 1. rewrite H. reflexivity.
Qed.

(** The batch of a run, when it finds new files: what it leaves in the
    cache file. *)
Lemma process_saved cache_path files cache s :
  detect_new cache files <> [] ->
  (forall k, In k (keys cache) -> k <> "") ->
  (forall k, In k files -> k <> "") ->
  writable (fs s) cache_path = true ->
  let batch := process cache_path files cache s in
  cwd (fs (snd batch)) = cwd (fs s)
  /\ path_exists (fs (snd batch)) cache_path = true
  /\ read_file (fs (snd batch)) cache_path
     = Ok (Json (JObject (saved_members (cwd (fs s)) (fst batch)))).
Proof using Type as_completed_perm.
  intros Hnew Hc Hf Hw. cbv zeta. rewrite process_new by exact Hnew. cbn [fst snd].
  set (done := fold_left collect _ _).
  assert (Hfs : fs (snd done) = fs s).
  { unfold done. rewrite fold_collect_fs. unfold announced. cbn [snd].
    now rewrite fold_emit_submitted_fs. }
  assert (Hkeys : forall k, In k (keys (fst done)) -> k <> "").
  { intros k Hk. unfold done in Hk. apply fold_collect_keys in Hk. cbn [fst] in Hk.
    destruct Hk as [Hk|Hk]; [now apply Hc|].
    apply (Permutation_in _ (as_completed_perm _)) in Hk.
    apply In_detect_new in Hk. apply Hf. pure_tauto. }
  rewrite <- Hfs in Hw.
  destruct (save_cache_ok cache_path (fst done) (snd done) Hkeys Hw) as [h [Hh ->]].
  destruct (write_file_stat _ _ _ _ Hh) as [Hcwd _].
  destruct (write_file_read _ _ _ _ Hh) as [He Hr].
  cbn [fs emit]. rewrite Hfs in *. now repeat split.
Qed.

Lemma process_not_saved cache_path files cache s :
  writable (fs s) cache_path = false ->
  fs (snd (process cache_path files cache s)) = fs s.
Proof.
  intros Hw. destruct (detect_new cache files) as [|x l] eqn:E.
  - now rewrite process_no_new.
  - rewrite process_new by congruence. cbn [snd].
    set (done := fold_left collect _ _).
    assert (Hfs : fs (snd done) = fs s).
    { unfold done. rewrite fold_collect_fs. unfold announced. cbn [snd].
      now rewrite fold_emit_submitted_fs. }
    rewrite save_cache_failed by (right; now rewrite Hfs).
    now rewrite emit_fs.
Qed.

Lemma process_keys cache_path files cache s k :
  (forall k', In k' (keys cache) -> In k' files) ->
  In k (keys (fst (process cache_path files cache s))) -> In k files.
Proof using Type as_completed_perm.
  intros Hc. destruct (detect_new cache files) as [|x l] eqn:E.
  - rewrite process_no_new by exact E. apply Hc.
  - rewrite process_new by congruence. cbn [fst]. intros Hk.
    apply fold_collect_keys in Hk. cbn [fst] in Hk.
    destruct Hk as [Hk|Hk]; [now apply Hc|].
    apply (Permutation_in _ (as_completed_perm _)) in Hk.
    apply In_detect_new in Hk. pure_tauto.
Qed.

Lemma reconcile_keys cache files k :
  In k (keys (reconcile cache files)) -> In k (keys cache) /\ In k files.
Proof.
  unfold reconcile. rewrite keys_dict_of_items. unfold keys.
  rewrite in_map_iff. intros [[k' v] [E H]]. cbn [fst] in E. subst k'.
  apply filter_In in H. destruct H as [H Hm]. cbn [fst] in Hm. apply mem_In in Hm.
  split; [|exact Hm]. apply (in_map fst) in H. exact H.
Qed.

Lemma load_cache_events cache_path s e :
  In e (events (snd (load_cache cache_path s))) ->
  In e (events s) \/ exists lv msg, e = Logged lv msg.
Proof.
  unfold load_cache. destruct (path_exists _ _); [|now left].
  destruct (read_file _ _) as [c|]; [|now left].
  destruct (json_load c) as [[]|[]]; try (now left).
  cbn [snd]. rewrite In_events_emit. intros [H| ->]; [now left | right; eauto].
Qed.

Lemma new_files_of_steps folder cache_path s loaded s1 :
  load_cache cache_path s = (Ok loaded, s1) ->
  new_files_of folder cache_path s
  = detect_new (reconcile loaded (get_audio_files (fs s) folder))
               (get_audio_files (fs s) folder).
Proof.
  intros Hl. unfold new_files_of. rewrite Hl.
  pose proof (load_cache_fs cache_path s) as Hfs. rewrite Hl in Hfs. cbn [snd] in Hfs.
  now rewrite Hfs.
Qed.


(** C4, amended.  A run that finds no new file submits no computation and
    does not rewrite the cache file: all it adds to the trace are log
    records, and the cache file, unless it is the log file itself, reads
    after the run as it did before.  When moreover the state it starts in
    is the one the previous run ended in and the scan finds the same files
    as in that run (nothing was removed either), with the working
    directory a normalized absolute path, it returns the list the previous
    run returned. *)
Theorem run_without_new_files (folder cache_path : string) (s : state)
        (songs : list song) (s' : state) :
  sort_songs_by_loudness folder cache_path s = (Ok songs, s') ->
  new_files_of folder cache_path s = [] ->
  (forall e, In e (events s') ->
             In e (events s) \/ exists lv msg, e = Logged lv msg)
  /\ (resolve (fs s) cache_path <> resolve (fs s) log_file ->
      read_file (fs s') cache_path = read_file (fs s) cache_path)
  /\ (forall s0 songs0,
         wf_cwd (cwd (fs s0)) = true ->
         sort_songs_by_loudness folder cache_path s0 = (Ok songs0, s) ->
         get_audio_files (fs s) folder = get_audio_files (fs s0) folder ->
         songs = songs0).
Proof using Type as_completed_perm.
  intros Hrun Hnew. destruct (run_steps _ _ _ _ _ Hrun) as [loaded [s1 [Hl [Hfs H]]]].
  cbv zeta in H. destruct H as [Hsongs Hs'].
  rewrite (new_files_of_steps folder cache_path s loaded s1 Hl) in Hnew.
  set (files := get_audio_files (fs s) folder) in *.
  rewrite process_no_new in Hsongs, Hs' by exact Hnew. cbn [fst snd] in Hsongs, Hs'.
  split; [|split].
  - intros e He. rewrite Hs' in He. apply In_events_emit in He.
    destruct He as [He| ->]; [|right; eauto].
    apply (load_cache_events cache_path s). now rewrite Hl.
  - intros _. now rewrite Hs', emit_fs, Hfs.
  - intros s0 songs0 Hwf Hrun0 Hscan.
    destruct (run_steps _ _ _ _ _ Hrun0) as [loaded0 [s01 [Hl0 [Hfs0 H0]]]].
    cbv zeta in H0. rewrite <- Hscan in H0. fold files in H0.
    destruct H0 as [Hsongs0 Hs].
    set (c0 := reconcile loaded0 files) in *.
    assert (Hrk : forall k, In k (keys c0) -> In k files)
      by (intros k Hk; now apply reconcile_keys in Hk).
    assert (Hne : forall k, In k files -> k <> "")
      by (intros k Hk; now apply (get_audio_files_not_empty (fs s) folder)).
    assert (Hsame : fs s = fs s0 -> loaded = loaded0).
    { intros E. pose proof (load_cache_same_fs cache_path s s0 E) as Hsf.
      rewrite Hl, Hl0 in Hsf. cbn [fst] in Hsf. congruence. }
    rewrite Hsongs, Hsongs0.
    destruct (detect_new c0 files) as [|x l] eqn:Hnew0.
    + (* the previous run found nothing new either *)
      rewrite process_no_new in Hs |- * by exact Hnew0. cbn [fst].
      rewrite Hsame; [reflexivity|]. rewrite Hs. cbn [snd]. now rewrite emit_fs.
    + destruct (writable (fs s01) cache_path) eqn:Hw.
      * (* the previous run saved its cache *)
        assert (Hnew0' : detect_new c0 files <> []) by congruence.
        destruct (process_saved cache_path files c0 s01 Hnew0'
                                (fun k Hk => Hne k (Hrk k Hk)) Hne Hw)
          as [Hcwd [Hex Hread]].
        rewrite <- Hs in Hcwd, Hex, Hread.
        rewrite (load_cache_object cache_path s _ Hex Hread) in Hl.
        injection Hl as Hloaded _.
        set (c1 := fst (process cache_path files c0 s01)) in *.
        rewrite Hcwd, Hfs0 in Hloaded.
        rewrite loaded_saved_members in Hloaded by exact Hwf.
        assert (Hnd1 : NoDup (keys c1)) by apply process_NoDup, reconcile_NoDup.
        assert (Hk1 : forall k, In k (keys c1) -> In k files)
          by (intros k; apply process_keys; exact Hrk).
        assert (Hfix : forall k, In k (keys c1) -> collapse (cwd (fs s0)) k = k).
        { intros k Hk. apply Hk1 in Hk.
          assert (Hin : In k (keys (reconcile loaded files))).
          { destruct (dict_mem (reconcile loaded files) k) eqn:Hm;
              [now apply dict_mem_In in Hm|].
            apply dict_mem_false in Hm.
            assert (Hd : In k (detect_new (reconcile loaded files) files))
              by now apply In_detect_new.
            rewrite Hnew in Hd. destruct Hd. }
          apply reconcile_keys in Hin. destruct Hin as [Hin _].
          rewrite <- Hloaded in Hin.
          apply (proj1 (keys_dict_of_items _ _ _)) in Hin.
          rewrite keys_rekey in Hin. apply in_map_iff in Hin.
          destruct Hin as [k0 [<- _]]. now apply collapse_collapse. }
        assert (Hmap : map (rekey (collapse (cwd (fs s0)))) c1 = c1).
        { rewrite <- (map_id c1) at 2. apply map_ext_in. intros [k v] Hkv.
          unfold rekey. cbn [fst snd]. f_equal. apply Hfix.
          apply (in_map fst) in Hkv. exact Hkv. }
        rewrite Hmap, dict_of_items_NoDup in Hloaded by exact Hnd1.
        rewrite <- Hloaded. now rewrite reconcile_all.
      * (* the previous run could not save: its new files are new again *)
        exfalso.
        assert (E : fs s = fs s0).
        { rewrite Hs, process_not_saved by exact Hw. exact Hfs0. }
        rewrite (Hsame E) in Hnew. fold c0 in Hnew. congruence.
Qed.


(** * Further properties of the program *)

(** ** Loading the cache *)

Lemma abspath_normal cwd p :
  wf_cwd cwd = true -> normpath (abspath cwd p) = abspath cwd p.
Proof.
  intros Hwf. destruct (abspath_shape cwd p Hwf) as [n [P [Hn [HP [E _]]]]].
  rewrite E. now apply normpath_normal.
Qed.

Lemma In_dict_set (V : Type) (d : dict V) k v kv :
  In kv (dict_set d k v) -> In kv d \/ kv = (k, v).
Proof.
  induction d as [|[k' v'] d IH]; cbn [dict_set].
  - intros [<- | []]. now right.
  - destruct (String.eqb k' k) eqn:E.
    + apply String.eqb_eq in E. subst k'. intros [<- | H]; [now right | left; now right].
    + intros [<- | H]; [left; now left |].
      destruct (IH H) as [H' | H']; [left; now right | now right].
Qed.

Lemma In_fold_dict_set (V : Type) (items : list (string * V)) acc kv :
  In kv (fold_left (fun d kv => dict_set d (fst kv) (snd kv)) items acc) ->
  In kv acc \/ In kv items.
Proof.
  revert acc. induction items as [|[k v] items IH]; intros acc; cbn [fold_left fst snd].
  - now left.
  - intros H. destruct (IH _ H) as [H' | H']; [| right; now right].
    destruct (In_dict_set V acc k v kv H') as [H'' | ->]; [now left | right; now left].
Qed.

Lemma In_dict_of_items (V : Type) (items : list (string * V)) kv :
  In kv (dict_of_items items) -> In kv items.
Proof.
  intros H. destruct (In_fold_dict_set V items [] kv H) as [[] | H']. exact H'.
Qed.

Lemma read_file_exists h path c : read_file h path = Ok c -> path_exists h path = true.
Proof.
  unfold read_file, path_exists. destruct (stat h path) as [[|]|]; now intros.
Qed.

(** X1.  When the cache file is absent, [load_cache] returns the empty
    cache and does nothing else: nothing is logged.  When the file holds
    text that is not JSON, it returns the empty cache too, after logging
    the one error [Error reading cache file ...]. *)
Theorem load_cache_starts_empty (cache_path : string) (s : state) :
  path_exists (fs s) cache_path = false \/ read_file (fs s) cache_path = Ok NotJson ->
  fst (load_cache cache_path s) = Ok []
  /\ (path_exists (fs s) cache_path = false -> snd (load_cache cache_path s) = s)
  /\ (read_file (fs s) cache_path = Ok NotJson ->
      events (snd (load_cache cache_path s))
      = events s ++ [Logged ERROR ("Error reading cache file " ++ cache_path
                                   ++ ". A new cache will be created.")]).
Proof.
  intros H. split; [|split].
  - destruct H as [H | H].
    + now rewrite load_cache_absent.
    + now rewrite load_cache_not_json.
  - intros Ha. now rewrite load_cache_absent.
  - intros Hn. now rewrite load_cache_not_json.
Qed.

(** X2.  The keys of a loaded cache are pairwise different absolute paths
    in normal form: [load_cache] passes every key of the file through
    [os.path.abspath]. *)
Theorem loaded_keys_are_absolute (cache_path : string) (s : state)
        (c : dict float) (s' : state) :
  wf_cwd (cwd (fs s)) = true ->
  load_cache cache_path s = (Ok c, s') ->
  NoDup (keys c)
  /\ forall k, In k (keys c) -> isabs k = true /\ normpath k = k.
Proof.
  intros Hwf Hl. split; [now apply (load_cache_NoDup cache_path s c s')|].
  intros k Hk. assert (Hex : exists k0, k = abspath (cwd (fs s)) k0).
  { unfold load_cache in Hl. destruct (path_exists (fs s) cache_path).
    - destruct (read_file (fs s) cache_path) as [t|]; [|discriminate].
      destruct (json_load t) as [[members|]|[]]; try discriminate.
      + injection Hl as <- _.
        apply (proj1 (keys_dict_of_items _ _ _)) in Hk.
        unfold keys in Hk. rewrite map_map in Hk. apply in_map_iff in Hk.
        destruct Hk as [kv [<- _]]. now exists (fst kv).
      + injection Hl as <- _. destruct Hk.
    - injection Hl as <- _. destruct Hk. }
  destruct Hex as [k0 ->]. split; [now apply abspath_isabs | now apply abspath_normal].
Qed.

(** X3.  When the cache file holds a JSON object, [load_cache] returns
    normally without logging; every entry it returns carries the value of
    a member of the file whose name, made absolute, is the entry's key,
    and every member's name, made absolute, is a key. *)
Theorem loaded_entries_come_from_the_file (cache_path : string) (s : state)
        (members : list (string * float)) :
  read_file (fs s) cache_path = Ok (Json (JObject members)) ->
  exists c,
    load_cache cache_path s = (Ok c, s)
    /\ (forall k v, In (k, v) c ->
          exists k0, In (k0, v) members /\ k = abspath (cwd (fs s)) k0)
    /\ (forall k0, In k0 (keys members) -> In (abspath (cwd (fs s)) k0) (keys c)).
Proof.
  intros Hr. pose proof (read_file_exists _ _ _ Hr) as He.
  eexists. split; [exact (load_cache_object cache_path s members He Hr)|]. split.
  - intros k v H. apply In_dict_of_items in H. apply in_map_iff in H.
    destruct H as [[k0 v0] [E H]]. unfold rekey in E. cbn [fst snd] in E.
    injection E as <- <-. apply In_dict_of_items in H. now exists k0.
  - intros k0 H. apply (proj2 (keys_dict_of_items _ _ _)).
    rewrite keys_rekey. apply in_map.
    now apply (proj2 (keys_dict_of_items _ _ _)).
Qed.

(** ** Saving the cache *)

Lemma save_cache_cases cache_path cache s :
  (exists msg, save_cache cache_path cache s = emit (Logged ERROR msg) s)
  \/ (exists items h,
        relative_items (cwd (fs s)) cache = Ok items
        /\ write_file (fs s) cache_path (Json (JObject (dict_of_items items))) = Ok h
        /\ save_cache cache_path cache s
           = emit (Opened_for_writing cache_path) (mkState h (events s))).
Proof.
  unfold save_cache. destruct (relative_items (cwd (fs s)) cache) as [items|e].
  - destruct (write_file (fs s) cache_path _) as [h|e] eqn:E.
    + right. now exists items, h.
    + left. eauto.
  - left. eauto.
Qed.

(** X4.  When no key of the cache is the empty string and the cache path
    can be opened for writing, [save_cache] logs nothing and leaves at the
    cache path a JSON object whose members are the entries of the cache,
    each under [os.path.relpath] of its key. *)
Theorem saved_file_holds_relative_keys (cache_path : string) (cache : dict float)
        (s : state) :
  (forall k, In k (keys cache) -> k <> "") ->
  writable (fs s) cache_path = true ->
  events (save_cache cache_path cache s) = events s ++ [Opened_for_writing cache_path]
  /\ cwd (fs (save_cache cache_path cache s)) = cwd (fs s)
  /\ exists members,
       read_file (fs (save_cache cache_path cache s)) cache_path
       = Ok (Json (JObject members))
       /\ NoDup (keys members)
       /\ (forall r, In r (keys members) <->
                     exists k, In k (keys cache) /\ relpath (cwd (fs s)) k = Ok r)
       /\ (forall r v, In (r, v) members ->
                       exists k, In (k, v) cache /\ relpath (cwd (fs s)) k = Ok r).
Proof.
  intros Hk Hw. destruct (save_cache_ok cache_path cache s Hk Hw) as [h [Hh E]].
  rewrite E. destruct (write_file_stat _ _ _ _ Hh) as [Hcwd _].
  destruct (write_file_read _ _ _ _ Hh) as [_ Hr].
  split; [reflexivity|]. split; [exact Hcwd|].
  exists (saved_members (cwd (fs s)) cache). cbn [fs emit].
  split; [exact Hr|]. split; [apply NoDup_dict_of_items|]. split.
  - intros r. unfold saved_members. rewrite keys_dict_of_items, keys_rekey, in_map_iff.
    split.
    + intros [k [<- Hin]]. exists k. split; [exact Hin|].
      apply relpath_rel_string. now apply Hk.
    + intros [k [Hin Hrel]]. exists k. split; [|exact Hin].
      rewrite relpath_rel_string in Hrel by now apply Hk. now injection Hrel.
  - intros r v H. unfold saved_members in H. apply In_dict_of_items in H.
    apply in_map_iff in H. destruct H as [[k v0] [E' H]].
    unfold rekey in E'. cbn [fst snd] in E'. injection E' as <- <-.
    exists k. split; [exact H|]. apply relpath_rel_string. apply Hk.
    apply (in_map fst) in H. exact H.
Qed.

(** X5.  When a key of the cache is the empty string, or the cache path
    cannot be opened for writing, [save_cache] raises nothing: it logs one
    error, opens nothing for writing, and apart from the log file, which
    the record goes to, every path reads as it did before; so the cache
    file is not written. *)
Theorem failed_save_writes_nothing (cache_path : string) (cache : dict float)
        (s : state) :
  In "" (keys cache) \/ writable (fs s) cache_path = false ->
  (exists msg,
      events (save_cache cache_path cache s) = events s ++ [Logged ERROR msg])
  /\ forall q,
       resolve (fs s) q <> resolve (fs s) log_file ->
       read_file (fs (save_cache cache_path cache s)) q = read_file (fs s) q
       /\ path_isdir (fs (save_cache cache_path cache s)) q = path_isdir (fs s) q.
Proof.
  intros H. rewrite (save_cache_failed cache_path cache s H). split.
  - eexists. reflexivity.
  - intros q _. rewrite emit_fs. now split.
Qed.

(** *** Writing a file leaves the other files alone *)

Lemma write_file_inv h path c h' :
  write_file h path c = Ok h' ->
  exists name parent r,
    resolve h path = Some (name :: parent)
    /\ is_dir_at (root h) (rev parent ++ [name]) = false
    /\ put (rev parent) name (File c) (root h) = Some r
    /\ h' = mkFs (cwd h) r.
Proof.
  unfold write_file.
  destruct (resolve h path) as [[|name parent]|] eqn:Er; try discriminate.
  cbn [rev]. intros H. exists name, parent.
  assert (Hnd : is_dir_at (root h) (rev parent ++ [name]) = false).
  { unfold is_dir_at. destruct (get (root h) (rev parent ++ [name])) as [[|]|];
      [reflexivity | discriminate | reflexivity]. }
  assert (Hp : match put (rev parent) name (File c) (root h) with
               | Some r => Ok (mkFs (cwd h) r)
               | None => Raise FileNotFoundError
               end = Ok h').
  { destruct (get (root h) (rev parent ++ [name])) as [[|]|];
      [exact H | discriminate | exact H]. }
  destruct (put (rev parent) name (File c) (root h)) as [r|]; [|discriminate].
  exists r. injection Hp as <-. now repeat split.
Qed.

Lemma get_file_below c names : names <> [] -> get (File c) names = None.
Proof. destruct names; [congruence | reflexivity]. Qed.

Lemma file_at_put dir name c n n' L :
  put dir name (File c) n = Some n' ->
  is_dir_at n (dir ++ [name]) = false ->
  L <> dir ++ [name] ->
  file_at n' L = file_at n L.
Proof.
  revert n n' L. induction dir as [|d dir IH]; intros [c0|es] n' L; cbn [put];
    try discriminate.
  - intros [= <-] Hnd HL. destruct L as [|x rest]; [reflexivity|].
    unfold file_at, is_dir_at in *. cbn [get app] in *.
    destruct (String.eqb x name) eqn:E.
    + apply String.eqb_eq in E. subst x.
      rewrite lookup_set_entry_same.
      assert (Hrest : rest <> []) by (intros ->; now apply HL).
      rewrite (get_file_below c rest Hrest).
      destruct (lookup name es) as [[c1|es1]|]; [|discriminate|reflexivity].
      now rewrite (get_file_below c1 rest Hrest).
    + apply String.eqb_neq in E.
      rewrite lookup_set_entry_other by congruence. reflexivity.
  - destruct (lookup d es) as [child|] eqn:El; [|discriminate].
    destruct (put dir name (File c) child) as [child'|] eqn:Ep; [|discriminate].
    intros [= <-] Hnd HL. destruct L as [|x rest]; [reflexivity|].
    unfold file_at, is_dir_at in *. cbn [get app] in *. rewrite El in Hnd.
    destruct (String.eqb x d) eqn:E.
    + apply String.eqb_eq in E. subst x. rewrite lookup_set_entry_same, El.
      apply (IH child child' rest Ep Hnd). intros ->. now apply HL.
    + apply String.eqb_neq in E.
      rewrite lookup_set_entry_other by congruence. reflexivity.
Qed.

Lemma read_file_at h path :
  read_file h path
  = match resolve h path with
    | Some stack =>
        if is_dir_at (root h) (rev stack) then Raise IsADirectoryError
        else match file_at (root h) (rev stack) with
             | Some c => Ok c
             | None => Raise FileNotFoundError
             end
    | None => Raise FileNotFoundError
    end.
Proof.
  unfold read_file, stat, is_dir_at, file_at.
  destruct (resolve h path) as [stack|]; [|reflexivity].
  destruct (get (root h) (rev stack)) as [[|]|]; reflexivity.
Qed.

Lemma path_isdir_at h path :
  path_isdir h path
  = match resolve h path with
    | Some stack => is_dir_at (root h) (rev stack)
    | None => false
    end.
Proof.
  unfold path_isdir, stat, is_dir_at.
  destruct (resolve h path) as [stack|]; [|reflexivity].
  destruct (get (root h) (rev stack)) as [[|]|]; reflexivity.
Qed.

Lemma rev_inj (A : Type) (l1 l2 : list A) : rev l1 = rev l2 -> l1 = l2.
Proof. intros H. rewrite <- (rev_involutive l1), H. apply rev_involutive. Qed.

Lemma write_file_elsewhere h path c h' q :
  write_file h path c = Ok h' ->
  resolve h q <> resolve h path ->
  resolve h' q = resolve h q
  /\ read_file h' q = read_file h q
  /\ path_isdir h' q = path_isdir h q.
Proof.
  intros Hw Hq.
  destruct (write_file_inv h path c h' Hw) as [name [parent [r [Er [Hnd [Hp ->]]]]]].
  pose proof (is_dir_at_put _ _ _ _ _ Hp Hnd) as Hdir.
  assert (Hres : resolve (mkFs (cwd h) r) q = resolve h q).
  { unfold resolve. cbn [cwd root]. destruct (String.eqb q ""); [reflexivity|].
    apply (locate_ext (root h) r Hdir). }
  split; [exact Hres|].
  rewrite !read_file_at, !path_isdir_at, Hres. cbn [root].
  destruct (resolve h q) as [stack|] eqn:Eq; [|now split].
  rewrite Hdir.
  assert (HL : rev stack <> rev parent ++ [name]).
  { intros E. apply Hq. rewrite Er. f_equal. apply rev_inj. rewrite E.
    cbn [rev]. reflexivity. }
  rewrite (file_at_put _ _ _ _ _ (rev stack) Hp Hnd HL). now split.
Qed.

Lemma save_cache_elsewhere cache_path cache s q :
  resolve (fs s) q <> resolve (fs s) cache_path ->
  resolve (fs (save_cache cache_path cache s)) q = resolve (fs s) q
  /\ read_file (fs (save_cache cache_path cache s)) q = read_file (fs s) q
  /\ path_isdir (fs (save_cache cache_path cache s)) q = path_isdir (fs s) q.
Proof.
  intros Hq. destruct (save_cache_cases cache_path cache s)
    as [[msg ->] | [items [h [_ [Hw ->]]]]].
  - now rewrite emit_fs.
  - cbn [fs emit]. exact (write_file_elsewhere _ _ _ _ q Hw Hq).
Qed.

(** X6.  Besides the log file, which an error record goes to,
    [save_cache] writes one file at most, the cache file: a path that names
    neither the place of the cache path nor the log file reads the same
    before and after, and is a directory after exactly when it was
    before. *)
Theorem save_cache_writes_one_file (cache_path : string) (cache : dict float)
        (s : state) (q : string) :
  resolve (fs s) q <> resolve (fs s) cache_path ->
  resolve (fs s) q <> resolve (fs s) log_file ->
  read_file (fs (save_cache cache_path cache s)) q = read_file (fs s) q
  /\ path_isdir (fs (save_cache cache_path cache s)) q = path_isdir (fs s) q.
Proof.
  intros Hq _. now destruct (save_cache_elsewhere cache_path cache s q Hq) as [_ H].
Qed.

Lemma process_fs_cases cache_path files cache s :
  fs (snd (process cache_path files cache s)) = fs s
  \/ exists cache' s1,
       fs s1 = fs s
       /\ fs (snd (process cache_path files cache s))
          = fs (save_cache cache_path cache' s1).
Proof.
  destruct (detect_new cache files) as [|x l] eqn:E.
  - left. now rewrite process_no_new.
  - right. rewrite process_new by congruence. cbn [snd].
    set (done := fold_left collect _ _). exists (fst done), (snd done).
    split; [|reflexivity]. unfold done. rewrite fold_collect_fs. unfold announced.
    cbn [snd]. now rewrite fold_emit_submitted_fs.
Qed.

(** X7.  A run writes one file at most, the cache file: a path that names
    another place than the cache path reads the same before and after the
    run (the music files are never modified), and is a directory after
    exactly when it was before.  Log records are events of the trace, not
    files of the model. *)
Theorem run_writes_one_file (folder cache_path : string) (s : state)
        (songs : list song) (s' : state) (q : string) :
  sort_songs_by_loudness folder cache_path s = (Ok songs, s') ->
  resolve (fs s) q <> resolve (fs s) cache_path ->
  read_file (fs s') q = read_file (fs s) q
  /\ path_isdir (fs s') q = path_isdir (fs s) q.
Proof.
  intros Hrun Hq. destruct (run_steps _ _ _ _ _ Hrun) as [loaded [s1 [Hl [Hfs H]]]].
  cbv zeta in H. destruct H as [_ ->].
  destruct (process_fs_cases cache_path (get_audio_files (fs s) folder)
              (reconcile loaded (get_audio_files (fs s) folder)) s1)
    as [E | [cache' [s2 [E2 E]]]]; rewrite E.
  - rewrite Hfs. now split.
  - rewrite <- Hfs, <- E2 in Hq.
    destruct (save_cache_elsewhere cache_path cache' s2 q Hq) as [_ [Hr Hd]].
    rewrite Hr, Hd, E2, Hfs. now split.
Qed.

(** ** Scanning the folder *)

(** X8.  Every path the scan returns is absolute and in normal form: the
    scan passes each match through [os.path.abspath]. *)
Theorem scanned_paths_are_absolute (h : filesys) (folder p : string) :
  wf_cwd (cwd h) = true ->
  In p (get_audio_files h folder) ->
  isabs p = true /\ normpath p = p.
Proof.
  intros Hwf Hp. unfold get_audio_files in Hp. apply in_map_iff in Hp.
  destruct Hp as [q [<- _]]. split; [now apply abspath_isabs | now apply abspath_normal].
Qed.



Lemma join_trailing_slash folder b :
  folder <> "" -> endswith_sep folder = false ->
  join (folder ++ "/") b = join folder b.
Proof.
  intros Hne He. unfold join. destruct (startswith_sep b); [reflexivity|].
  rewrite endswith_sep_app by discriminate. cbn [endswith_sep Ascii.eqb].
  rewrite orb_true_r, He, orb_false_r.
  destruct (String.eqb folder "") eqn:E; [apply String.eqb_eq in E; contradiction|].
  apply append_assoc.
Qed.

(** X10.  A slash at the end of the folder makes no difference: the scan
    of [folder/] returns what the scan of [folder] returns, and so does
    the whole run. *)
Theorem trailing_slash_is_ignored (folder cache_path : string) (s : state) :
  folder <> "" -> endswith_sep folder = false ->
  get_audio_files (fs s) (folder ++ "/") = get_audio_files (fs s) folder
  /\ sort_songs_by_loudness (folder ++ "/") cache_path s
     = sort_songs_by_loudness folder cache_path s.
Proof.
  intros Hne He.
  assert (H : forall h, get_audio_files h (folder ++ "/") = get_audio_files h folder).
  { intros h. unfold get_audio_files. f_equal. apply flat_map_ext. intros ext.
    now rewrite !join_trailing_slash. }
  split; [apply H|]. unfold sort_songs_by_loudness.
  destruct (load_cache cache_path s) as [[c|e] s1]; [|reflexivity]. now rewrite H.
Qed.

(** *** The name of a scanned file *)

Lemma join_sep_snoc A name :
  exists pre, (String sep (join_sep (A ++ [name])) = pre ++ String sep name)%string.
Proof.
  induction A as [|a A IH].
  - exists "". reflexivity.
  - destruct IH as [pre E]. cbn [app]. destruct (A ++ [name]) as [|y l] eqn:El.
    + destruct A; discriminate.
    + rewrite join_sep_cons. exists (String sep a ++ pre)%string.
      rewrite E. cbn [append]. now rewrite append_assoc.
Qed.

Lemma normpath_tail Z name :
  isabs (Z ++ String sep name) = true -> clean name = true ->
  exists pre, normpath (Z ++ String sep name) = (pre ++ String sep name)%string.
Proof.
  intros Habs Hc. rewrite (normpath_abs _ Habs).
  set (n := initial_slashes (Z ++ String sep name)).
  assert (Hn : n = 1 \/ n = 2) by now apply initial_slashes_abs.
  unfold norm_comps. rewrite split_sep_app, fold_step_app.
  assert (Hns : no_sep name = true) by now apply clean_spec in Hc.
  rewrite (split_sep_no_sep name Hns). cbn [fold_left]. rewrite step_clean by exact Hc.
  cbn [rev]. destruct (join_sep_snoc (rev (fold_left (normpath_step n) (split_sep Z) [])) name)
    as [pre E].
  destruct Hn as [-> | ->]; cbn [slashes_string].
  - exists pre. exact E.
  - exists (String sep pre). change ("//" ++ ?x)%string with (String sep (String sep x)).
    now rewrite E.
Qed.

Lemma clean_not_abs name : clean name = true -> startswith_sep name = false.
Proof.
  intros Hc. apply clean_spec in Hc. destruct Hc as [_ [_ [_ Hns]]].
  destruct name as [|c r]; [reflexivity|]. unfold no_sep in Hns. cbn [contains] in Hns.
  cbn [startswith_sep]. rewrite Ascii.eqb_sym.
  destruct (Ascii.eqb sep c); [discriminate | reflexivity].
Qed.

Lemma abspath_join_name cwd D name :
  wf_cwd cwd = true -> clean name = true ->
  exists pre, abspath cwd (join D name) = (pre ++ String sep name)%string.
Proof.
  intros Hwf Hc. pose proof (clean_not_abs name Hc) as Hrel.
  destruct (wf_cwd_shape cwd Hwf) as [S [_ Ecwd]].
  assert (Hcwd : cwd <> "") by (rewrite Ecwd; discriminate).
  assert (Hcabs : startswith_sep cwd = true) by (rewrite Ecwd; reflexivity).
  assert (Hq : exists Z, (if isabs (join D name) then join D name
                          else join cwd (join D name)) = (Z ++ String sep name)%string
                         /\ isabs (Z ++ String sep name) = true).
  { destruct (String.eqb D "") eqn:ED.
    - apply String.eqb_eq in ED. subst D. rewrite join_empty_l.
      unfold isabs at 1. rewrite Hrel.
      destruct (join_folder_tail cwd name Hcwd Hrel) as [F [E _]].
      exists F. split; [exact E|]. rewrite <- E. unfold isabs, join. rewrite Hrel.
      destruct (String.eqb cwd "" || endswith_sep cwd);
        now rewrite startswith_sep_app by exact Hcwd.
    - apply String.eqb_neq in ED.
      destruct (join_folder_tail D name ED Hrel) as [F [E _]]. rewrite E.
      destruct (isabs (F ++ String sep name)) eqn:Ea.
      + exists F. now split.
      + assert (Hr : startswith_sep (F ++ String sep name) = false) by exact Ea.
        unfold join. rewrite Hr.
        destruct (String.eqb cwd "" || endswith_sep cwd).
        * exists (cwd ++ F)%string. rewrite append_assoc. split; [reflexivity|].
          unfold isabs. now rewrite startswith_sep_app by exact Hcwd.
        * exists (cwd ++ "/" ++ F)%string. rewrite !append_assoc. split; [reflexivity|].
          unfold isabs. now rewrite startswith_sep_app by exact Hcwd. }
  destruct Hq as [Z [E Habs]]. unfold abspath. rewrite E.
  now apply normpath_tail.
Qed.

Lemma basename_tail pre name :
  no_sep name = true -> basename (pre ++ String sep name) = name.
Proof. intros H. unfold basename. now rewrite rsplit_sep_app. Qed.

Lemma scanned_entry h folder p :
  has_magic folder = false -> wf_node (root h) = true ->
  In p (get_audio_files h folder) ->
  exists D name ext,
    clean name = true /\ visible name = true /\ In ext extensions
    /\ (has_suffix name ("." ++ ext) \/ has_suffix name ("." ++ upper ext))
    /\ p = abspath (cwd h) (join D name).
Proof.
  intros Hm Hwf Hp. apply In_get_audio_files in Hp.
  destruct Hp as [q [ext [Hext [Hq ->]]]].
  pose proof extensions_plain as Hplain. rewrite Forall_forall in Hplain.
  destruct (Hplain ext Hext) as [[Hl1 Hl2] [Hu1 Hu2]].
  assert (Hone : forall e, no_sep e = true -> has_magic e = false ->
                 In q (glob h (join folder ("**/*." ++ e))) ->
                 exists D name, clean name = true /\ visible name = true
                                /\ has_suffix name ("." ++ e) /\ q = join D name).
  { intros e He1 He2 Hin.
    destruct (stat h (root_or_dot (scan_root folder))) as [n0|] eqn:Es.
    - destruct n0 as [c|es0].
      + rewrite glob_not_dir in Hin; [destruct Hin | exact Hm | exact He1 |].
        intros es. rewrite Es. discriminate.
      + destruct (stat_resolve _ _ _ Es) as [stack [_ Hget]].
        pose proof (get_wf _ _ _ Hwf Hget) as Hwf0.
        apply (glob_entries h folder e (Dir es0) q Hm He1 He2 Hwf0 Es eq_refl) in Hin.
        destruct Hin as [names [es [name [_ [Hg [Hn [Hv [Hs ->]]]]]]]].
        exists (dir_string (scan_root folder) names), name.
        pose proof (get_wf _ _ _ Hwf0 Hg) as Hwfe.
        apply wf_node_entries in Hwfe. destruct Hwfe as [_ Hall].
        rewrite Forall_forall in Hall. apply in_map_iff in Hn.
        destruct Hn as [entry [<- Hentry]].
        destruct (Hall entry Hentry) as [Hclean _]. now repeat split.
    - rewrite glob_not_dir in Hin; [destruct Hin | exact Hm | exact He1 |].
      intros es. rewrite Es. discriminate. }
  destruct Hq as [Hq | Hq].
  - destruct (Hone ext Hl1 Hl2 Hq) as [D [name [Hc [Hv [Hs ->]]]]].
    exists D, name, ext. repeat split; try assumption. now left.
  - destruct (Hone (upper ext) Hu1 Hu2 Hq) as [D [name [Hc [Hv [Hs ->]]]]].
    exists D, name, ext. repeat split; try assumption. now right.
Qed.

(** X11.  For a folder written without wildcard characters, the last
    component of every path the scan returns, which is the name [main]
    displays, is a proper entry name: it does not begin with a dot and it
    ends in [.ext] or [.EXT] for one of the four extensions. *)
Theorem scanned_file_names (h : filesys) (folder p : string) :
  has_magic folder = false -> wf_node (root h) = true -> wf_cwd (cwd h) = true ->
  In p (get_audio_files h folder) ->
  clean (basename p) = true
  /\ visible (basename p) = true
  /\ has_suffix p ("/" ++ basename p)
  /\ exists ext,
       In ext extensions
       /\ (has_suffix (basename p) ("." ++ ext)
           \/ has_suffix (basename p) ("." ++ upper ext)).
Proof.
  intros Hm Hwf Hcwd Hp.
  destruct (scanned_entry h folder p Hm Hwf Hp)
    as [D [name [ext [Hc [Hv [Hext [Hs ->]]]]]]].
  destruct (abspath_join_name (cwd h) D name Hcwd Hc) as [pre E]. rewrite E.
  assert (Hns : no_sep name = true) by now apply clean_spec in Hc.
  rewrite (basename_tail pre name Hns).
  split; [exact Hc|]. split; [exact Hv|]. split; [now exists pre|]. now exists ext.
Qed.

(** ** The batch and the report *)

Lemma collect_measured acc f v :
  measure f = Ok v -> dict_get (fst (collect acc f)) f = Some v.
Proof.
  intros Hm. destruct acc as [cache s]. unfold collect.
  pose proof (calculate_loudness_spec f s) as H. rewrite Hm in H. rewrite H.
  cbn [fst]. apply dict_get_set_same.
Qed.

Lemma fold_collect_stable done acc f v :
  measure f = Ok v -> dict_get (fst acc) f = Some v ->
  dict_get (fst (fold_left collect done acc)) f = Some v.
Proof.
  intros Hm. revert acc. induction done as [|x done IH]; intros acc Hacc; [exact Hacc|].
  cbn [fold_left]. apply IH. destruct (String.eqb x f) eqn:E.
  - apply String.eqb_eq in E. subst x. now apply collect_measured.
  - apply String.eqb_neq in E. rewrite collect_get by congruence. exact Hacc.
Qed.

Lemma fold_collect_measured done acc f v :
  measure f = Ok v -> In f done ->
  dict_get (fst (fold_left collect done acc)) f = Some v.
Proof.
  intros Hm. revert acc. induction done as [|x done IH]; intros acc Hin; [destruct Hin|].
  cbn [fold_left]. destruct (String.eqb x f) eqn:E.
  - apply String.eqb_eq in E. subst x. apply fold_collect_stable; [exact Hm|].
    now apply collect_measured.
  - apply String.eqb_neq in E. destruct Hin as [-> | Hin]; [congruence|]. now apply IH.
Qed.

(** What the batch leaves in the cache for a file of the folder. *)
Lemma process_get cache_path files cache s f :
  In f files ->
  dict_get (fst (process cache_path files cache s)) f
  = match dict_get cache f with
    | Some v => Some v
    | None => match measure f with Ok v => Some v | Raise _ => None end
    end.
Proof using Type as_completed_perm.
  intros Hf. destruct (detect_new cache files) as [|x l] eqn:E.
  - rewrite process_no_new by exact E. cbn [fst].
    destruct (dict_get cache f) as [v|] eqn:Eg; [reflexivity|].
    exfalso. apply dict_get_None in Eg.
    assert (Hin : In f (detect_new cache files)) by now apply In_detect_new.
    rewrite E in Hin. destruct Hin.
  - rewrite process_new by congruence. cbn [fst]. clear E.
    destruct (dict_get cache f) as [v|] eqn:Eg.
    + rewrite fold_collect_get; [exact Eg|]. intros Hin.
      apply (Permutation_in _ (as_completed_perm _)) in Hin.
      apply In_detect_new in Hin. destruct Hin as [_ Hin]. apply Hin.
      apply dict_get_In in Eg. apply (in_map fst) in Eg. exact Eg.
    + apply dict_get_None in Eg.
      assert (Hin : In f (as_completed (detect_new cache files))).
      { apply (Permutation_in _ (Permutation_sym (as_completed_perm _))).
        now apply In_detect_new. }
      destruct (measure f) as [v|e] eqn:Em.
      * now apply fold_collect_measured.
      * apply dict_get_None. intros Hk.
        apply (fold_collect_failed _ _ f e Em) in Hk. now apply Eg.
Qed.

Lemma dict_get_filter_mem (cache : dict float) files f :
  In f files ->
  dict_get (filter (fun kv => mem (fst kv) files) cache) f = dict_get cache f.
Proof.
  intros Hf. induction cache as [|[k v] cache IH]; [reflexivity|].
  cbn [filter fst dict_get]. destruct (String.eqb k f) eqn:E.
  - apply String.eqb_eq in E. subst k.
    assert (Hm : mem f files = true) by now apply mem_In.
    rewrite Hm. cbn [dict_get]. now rewrite String.eqb_refl.
  - destruct (mem k files); [cbn [dict_get]; now rewrite E | exact IH].
Qed.

Lemma dict_get_reconcile cache files f :
  NoDup (keys cache) -> In f files ->
  dict_get (reconcile cache files) f = dict_get cache f.
Proof.
  intros Hnd Hf. rewrite reconcile_filter by exact Hnd. now apply dict_get_filter_mem.
Qed.

(** X12.  After the batch, every file of the folder that was not in the
    cache and whose measurement succeeds has the measured loudness as its
    cache entry, whatever the order in which the computations finish. *)
Theorem measured_value_is_cached (cache_path : string) (files : list string)
        (cache : dict float) (s : state) (f : string) (v : float) :
  In f files -> ~ In f (keys cache) -> measure f = Ok v ->
  dict_get (fst (process cache_path files cache s)) f = Some v.
Proof using Type as_completed_perm.
  intros Hf Hnew Hm. rewrite process_get by exact Hf.
  apply dict_get_None in Hnew. now rewrite Hnew, Hm.
Qed.

(** X13.  Whenever the run returns a list, the list holds exactly these
    entries: for every file the scan finds, the loudness the loaded cache
    has for it or, when the cache has none, the loudness its measurement
    gives, provided the measurement succeeds. *)
Theorem report_lists_cached_and_measured_files (folder cache_path : string)
        (s : state) (loaded : dict float) (s1 : state)
        (songs : list song) (s' : state) :
  load_cache cache_path s = (Ok loaded, s1) ->
  sort_songs_by_loudness folder cache_path s = (Ok songs, s') ->
  forall f v,
    In (f, v) songs
    <-> In f (get_audio_files (fs s) folder)
        /\ (dict_get loaded f = Some v
            \/ (~ In f (keys loaded) /\ measure f = Ok v)).
Proof using Type as_completed_perm.
  intros Hl Hrun. unfold sort_songs_by_loudness in Hrun. rewrite Hl in Hrun.
  pose proof (load_cache_fs cache_path s) as Hfs. rewrite Hl in Hfs. cbn [snd] in Hfs.
  rewrite Hfs in Hrun. set (files := get_audio_files (fs s) folder) in *.
  pose proof (load_cache_NoDup cache_path s loaded s1 Hl) as Hnd.
  destruct (process cache_path files (reconcile loaded files) s1) as [cache s2] eqn:Ep.
  injection Hrun as <- _.
  assert (Hc : cache = fst (process cache_path files (reconcile loaded files) s1))
    by now rewrite Ep.
  assert (Hndc : NoDup (keys cache)).
  { rewrite Hc. apply process_NoDup, reconcile_NoDup. }
  intros f v. rewrite sorted_songs_In. cbn [fst].
  assert (Hget : In f files ->
                 dict_get cache f
                 = match dict_get loaded f with
                   | Some v => Some v
                   | None => match measure f with Ok v => Some v | Raise _ => None end
                   end).
  { intros Hf. rewrite Hc, process_get by exact Hf.
    now rewrite dict_get_reconcile by assumption. }
  split.
  - intros [Hin Hf]. split; [exact Hf|].
    apply (In_dict_get _ _ _ _ Hndc) in Hin. rewrite (Hget Hf) in Hin.
    destruct (dict_get loaded f) as [v0|] eqn:Eg; [now left|].
    right. split; [now apply dict_get_None|].
    destruct (measure f) as [v0|e]; [congruence | discriminate].
  - intros [Hf H]. split; [|exact Hf]. apply dict_get_In. rewrite (Hget Hf).
    destruct H as [H | [Hn Hm]]; [now rewrite H|].
    apply dict_get_None in Hn. now rewrite Hn, Hm.
Qed.

(** X14.  Reconciliation keeps of a loaded cache exactly the entries whose
    file the scan has found, with their values and in their order: every
    key that is left is a file of the folder. *)
Theorem reconciled_cache_holds_scanned_files (cache : dict float)
        (files : list string) :
  NoDup (keys cache) ->
  reconcile cache files = filter (fun kv => mem (fst kv) files) cache
  /\ (forall k, In k (keys (reconcile cache files)) <-> In k (keys cache) /\ In k files)
  /\ (forall f, In f files -> dict_get (reconcile cache files) f = dict_get cache f).
Proof.
  intros Hnd. split; [now apply reconcile_filter|]. split.
  - intros k. split; [apply reconcile_keys|]. intros [Hk Hf].
    apply dict_mem_In. unfold dict_mem. rewrite dict_get_reconcile by assumption.
    apply dict_mem_In in Hk. exact Hk.
  - intros f Hf. now apply dict_get_reconcile.
Qed.

(** *** What a run records *)

Lemma load_cache_events_mono cache_path s e :
  In e (events s) -> In e (events (snd (load_cache cache_path s))).
Proof.
  intros H. unfold load_cache. destruct (path_exists _ _); [|exact H].
  destruct (read_file _ _) as [c|]; [|exact H].
  destruct (json_load c) as [[]|[]]; try exact H.
  cbn [snd]. apply In_events_emit. now left.
Qed.

Lemma fold_collect_events done acc e :
  In e (events (snd (fold_left collect done acc))) ->
  In e (events (snd acc)) \/ exists lv msg, e = Logged lv msg.
Proof.
  revert acc. induction done as [|x done IH]; intros acc H; [now left|].
  cbn [fold_left] in H. destruct (IH _ H) as [H' | H']; [|now right].
  destruct acc as [c s]. unfold collect in H'.
  pose proof (calculate_loudness_spec x s) as Hc. destruct (measure x).
  - rewrite Hc in H'. now left.
  - destruct Hc as [msg Hc]. rewrite Hc in H'. cbn [snd] in H'.
    apply In_events_emit in H'. destruct H' as [H' | ->]; [now left | right; eauto].
Qed.

Lemma fold_emit_submitted_events l s e :
  In e (events (fold_left (fun s file => emit (Submitted file) s) l s)) ->
  In e (events s) \/ exists f, e = Submitted f /\ In f l.
Proof.
  revert s. induction l as [|x l IH]; intros s H; cbn [fold_left] in H; [now left|].
  destruct (IH _ H) as [H' | [f [-> Hf]]].
  - apply In_events_emit in H'. destruct H' as [H' | ->]; [now left|].
    right. exists x. split; [reflexivity | now left].
  - right. exists f. split; [reflexivity | now right].
Qed.

Lemma announced_events s new_files e :
  In e (events (announced s new_files)) ->
  In e (events s) \/ (exists lv msg, e = Logged lv msg)
  \/ exists f, e = Submitted f /\ In f new_files.
Proof.
  unfold announced. intros H.
  destruct (fold_emit_submitted_events _ _ _ H) as [H' | H']; [|now right; right].
  apply In_events_emit in H'. destruct H' as [H' | ->]; [now left|].
  right. left. eauto.
Qed.

Lemma process_events cache_path files cache s e :
  In e (events (snd (process cache_path files cache s))) ->
  In e (events s) \/ (exists lv msg, e = Logged lv msg)
  \/ (exists f, e = Submitted f /\ In f (detect_new cache files))
  \/ (e = Opened_for_writing cache_path /\ detect_new cache files <> []).
Proof.
  destruct (detect_new cache files) as [|x l] eqn:E.
  - rewrite process_no_new by exact E. cbn [snd]. rewrite In_events_emit.
    intros [H | ->]; [now left | right; left; eauto].
  - assert (Hnew : detect_new cache files <> []) by congruence.
    rewrite process_new by exact Hnew. cbn [snd]. rewrite E.
    set (done := fold_left collect _ _). intros H.
    assert (Hdone : In e (events (snd done)) ->
                    In e (events s) \/ (exists lv msg, e = Logged lv msg)
                    \/ (exists f, e = Submitted f /\ In f (x :: l))
                    \/ (e = Opened_for_writing cache_path /\ x :: l <> [])).
    { intros Hd. unfold done in Hd. apply fold_collect_events in Hd.
      destruct Hd as [Hd | Hd]; [|now right; left]. cbn [snd] in Hd.
      apply announced_events in Hd.
      destruct Hd as [Hd | [Hd | Hd]]; [now left | now right; left | now right; right; left]. }
    destruct (save_cache_cases cache_path (fst done) (snd done))
      as [[msg Es] | [items [h [_ [_ Es]]]]]; rewrite Es in H;
      apply In_events_emit in H; cbn [events] in H.
    + destruct H as [H | ->]; [now apply Hdone | right; left; eauto].
    + destruct H as [H | ->]; [now apply Hdone|].
      right. right. right. split; [reflexivity | discriminate].
Qed.

Lemma process_submits cache_path files cache s f :
  In (Submitted f) (events s) \/ In f (detect_new cache files) ->
  In (Submitted f) (events (snd (process cache_path files cache s))).
Proof.
  intros H. destruct (detect_new cache files) as [|x l] eqn:E.
  - rewrite process_no_new by exact E. cbn [snd]. apply In_events_emit.
    destruct H as [H | []]. now left.
  - rewrite process_new by congruence. cbn [snd]. rewrite E.
    apply save_cache_events_mono, fold_collect_events_mono. cbn [snd].
    unfold announced. apply fold_emit_submitted_In.
    destruct H as [H | H]; [left | now right].
    apply In_events_emit. now left.
Qed.

(** X15.  A run submits a computation for exactly the files it takes as
    new, and for no other file; it opens for writing no path but the
    cache path, and this one only when it has found a new file. *)
Theorem run_submits_the_new_files (folder cache_path : string) (s : state)
        (songs : list song) (s' : state) :
  sort_songs_by_loudness folder cache_path s = (Ok songs, s') ->
  (forall f, In (Submitted f) (events s')
             <-> In (Submitted f) (events s) \/ In f (new_files_of folder cache_path s))
  /\ (forall p, In (Opened_for_writing p) (events s') ->
                In (Opened_for_writing p) (events s)
                \/ (p = cache_path /\ new_files_of folder cache_path s <> [])).
Proof.
  intros Hrun. destruct (run_steps _ _ _ _ _ Hrun) as [loaded [s1 [Hl [Hfs H]]]].
  cbv zeta in H. destruct H as [_ ->].
  rewrite (new_files_of_steps folder cache_path s loaded s1 Hl).
  set (files := get_audio_files (fs s) folder).
  assert (Hback : forall e, In e (events s1) ->
                            In e (events s) \/ exists lv msg, e = Logged lv msg).
  { intros e He. apply (load_cache_events cache_path s). now rewrite Hl. }
  assert (Hmono : forall e, In e (events s) -> In e (events s1)).
  { intros e He. pose proof (load_cache_events_mono cache_path s e He) as H.
    now rewrite Hl in H. }
  split.
  - intros f. split.
    + intros H. apply process_events in H.
      destruct H as [H | [[lv [msg H]] | [[f' [H Hin]] | [H _]]]]; try discriminate.
      * destruct (Hback _ H) as [H' | [lv [msg H']]]; [now left | discriminate].
      * injection H as ->. now right.
    + intros H. apply process_submits. destruct H as [H | H]; [left | now right].
      now apply Hmono.
  - intros p H. apply process_events in H.
    destruct H as [H | [[lv [msg H]] | [[f' [H Hin]] | [H Hnew]]]]; try discriminate.
    + destruct (Hback _ H) as [H' | [lv [msg H']]]; [now left | discriminate].
    + injection H as ->. now right.
Qed.

(** ** From one run to the next *)

Lemma filter_mem_all (cache : dict float) files :
  (forall k, In k (keys cache) -> In k files) ->
  filter (fun kv => mem (fst kv) files) cache = cache.
Proof.
  intros Hin. induction cache as [|[k v] cache IH]; [reflexivity|]. cbn [filter fst].
  assert (Hk : mem k files = true) by (apply mem_In, Hin; now left).
  rewrite Hk. f_equal. apply IH. intros k' Hk'. apply Hin. now right.
Qed.

Lemma scanned_path_fixed h folder k :
  wf_cwd (cwd h) = true -> In k (get_audio_files h folder) -> abspath (cwd h) k = k.
Proof.
  intros Hwf Hk. unfold get_audio_files in Hk. apply in_map_iff in Hk.
  destruct Hk as [q [<- _]]. now apply abspath_idempotent.
Qed.

(** A run that finds new files and can write the cache file leaves there
    the cache it reports from. *)
Lemma run_saved_reload folder cache_path s songs s' :
  wf_cwd (cwd (fs s)) = true ->
  sort_songs_by_loudness folder cache_path s = (Ok songs, s') ->
  new_files_of folder cache_path s <> [] ->
  writable (fs s) cache_path = true ->
  (forall f, In f (get_audio_files (fs s) folder) -> initial_slashes f <> 2) ->
  exists c1,
    load_cache cache_path s' = (Ok c1, s')
    /\ NoDup (keys c1)
    /\ (forall k, In k (keys c1) -> In k (get_audio_files (fs s) folder))
    /\ songs = sorted_songs c1 (get_audio_files (fs s) folder).
Proof using Type as_completed_perm.
  intros Hwf Hrun Hnew Hw Hsl.
  destruct (run_steps _ _ _ _ _ Hrun) as [loaded [s1 [Hl [Hfs H]]]].
  cbv zeta in H. destruct H as [Hsongs Hs'].
  rewrite (new_files_of_steps folder cache_path s loaded s1 Hl) in Hnew.
  set (files := get_audio_files (fs s) folder) in *.
  set (c0 := reconcile loaded files) in *.
  assert (Hrk : forall k, In k (keys c0) -> In k files)
    by (intros k Hk; now apply reconcile_keys in Hk).
  assert (Hne : forall k, In k files -> k <> "")
    by (intros k Hk; now apply (get_audio_files_not_empty (fs s) folder)).
  rewrite <- Hfs in Hw.
  destruct (process_saved cache_path files c0 s1 Hnew
                          (fun k Hk => Hne k (Hrk k Hk)) Hne Hw)
    as [Hcwd [Hex Hread]].
  rewrite <- Hs' in Hcwd, Hex, Hread.
  set (c1 := fst (process cache_path files c0 s1)) in *.
  assert (Hnd1 : NoDup (keys c1)) by apply process_NoDup, reconcile_NoDup.
  assert (Hk1 : forall k, In k (keys c1) -> In k files)
    by (intros k; apply process_keys; exact Hrk).
  exists c1. split; [|now repeat split].
  rewrite (load_cache_object cache_path s' _ Hex Hread). f_equal. f_equal.
  rewrite Hcwd, Hfs. rewrite loaded_saved_members by exact Hwf.
  assert (Hmap : map (rekey (collapse (cwd (fs s)))) c1 = c1).
  { rewrite <- (map_id c1) at 2. apply map_ext_in. intros [k v] Hkv.
    unfold rekey. cbn [fst snd]. f_equal.
    apply (in_map fst) in Hkv. apply Hk1 in Hkv. cbn [fst] in Hkv.
    rewrite collapse_abspath by (trivial; now apply Hsl).
    now apply (scanned_path_fixed (fs s) folder). }
  rewrite Hmap. now apply dict_of_items_NoDup.
Qed.

(** X16.  After a run that found new files and could write the cache
    file, the cache file holds the report: loading it again returns
    exactly the entries of the returned list (in the order of the cache).
    The paths of the scan are taken not to begin with exactly two
    slashes, which [relpath] does not keep. *)
Theorem saved_cache_is_the_report (folder cache_path : string) (s : state)
        (songs : list song) (s' : state) :
  wf_cwd (cwd (fs s)) = true ->
  sort_songs_by_loudness folder cache_path s = (Ok songs, s') ->
  new_files_of folder cache_path s <> [] ->
  writable (fs s) cache_path = true ->
  (forall f, In f (get_audio_files (fs s) folder) -> initial_slashes f <> 2) ->
  exists c, load_cache cache_path s' = (Ok c, s') /\ Permutation c songs.
Proof using Type as_completed_perm.
  intros Hwf Hrun Hnew Hw Hsl.
  destruct (run_saved_reload folder cache_path s songs s' Hwf Hrun Hnew Hw Hsl)
    as [c1 [Hl [_ [Hk ->]]]].
  exists c1. split; [exact Hl|]. unfold sorted_songs.
  rewrite filter_mem_all by exact Hk. apply Permutation_sym, sort_by_loudness_perm.
Qed.

(** X17.  After such a run, as long as the scan finds the same files, the
    next run takes as new exactly the files of the folder that the report
    lacks, those whose measurement failed: they are tried again, and no
    reported file is measured twice. *)
Theorem next_run_retries_what_failed (folder cache_path : string) (s : state)
        (songs : list song) (s' : state) (f : string) :
  wf_cwd (cwd (fs s)) = true ->
  sort_songs_by_loudness folder cache_path s = (Ok songs, s') ->
  new_files_of folder cache_path s <> [] ->
  writable (fs s) cache_path = true ->
  (forall f, In f (get_audio_files (fs s) folder) -> initial_slashes f <> 2) ->
  get_audio_files (fs s') folder = get_audio_files (fs s) folder ->
  In f (new_files_of folder cache_path s')
  <-> In f (get_audio_files (fs s) folder) /\ ~ In f (map fst songs).
Proof using Type as_completed_perm.
  intros Hwf Hrun Hnew Hw Hsl Hscan.
  destruct (run_saved_reload folder cache_path s songs s' Hwf Hrun Hnew Hw Hsl)
    as [c1 [Hl [Hnd [Hk ->]]]].
  rewrite (new_files_of_steps folder cache_path s' c1 s' Hl), Hscan.
  rewrite reconcile_all by assumption. rewrite In_detect_new.
  assert (Hkeys : In f (map fst (sorted_songs c1 (get_audio_files (fs s) folder)))
                  <-> In f (keys c1)).
  { unfold sorted_songs. rewrite filter_mem_all by exact Hk. unfold keys.
    split; apply Permutation_in, Permutation_map;
      [apply sort_by_loudness_perm | apply Permutation_sym, sort_by_loudness_perm]. }
  rewrite Hkeys. reflexivity.
Qed.

(** ** main *)

Lemma fold_emit_lines (lines : list song) (s : state) :
  fs (fold_left (fun s a => emit (Logged INFO (song_line a)) s) lines s) = fs s
  /\ events (fold_left (fun s a => emit (Logged INFO (song_line a)) s) lines s)
     = events s ++ map (fun a => Logged INFO (song_line a)) lines.
Proof.
  revert s. induction lines as [|a lines IH]; intros s; cbn [fold_left map].
  - now rewrite app_nil_r.
  - destruct (IH (emit (Logged INFO (song_line a)) s)) as [Hfs Hev].
    rewrite Hfs, Hev. cbn [emit events fs]. now rewrite <- app_assoc.
Qed.

(** X18.  When the run returns a list and [main] returns, [main] has
    added to the trace, after the records of the run, nothing but log
    records: for a non-empty list the heading and one line per song in the
    order of the list, each naming the file by the last component of its
    path with its loudness to two decimals, and for the empty list the one
    record [No songs to display.]. *)
Theorem main_displays_the_report (folder cache_path : string) (s : state)
        (songs : list song) (s1 s' : state) :
  sort_songs_by_loudness folder cache_path s = (Ok songs, s1) ->
  main folder cache_path s = (Ok tt, s') ->
  events s'
  = events s1
    ++ match songs with
       | [] => [Logged INFO "No songs to display."]
       | _ => Logged INFO (newline ++ "Songs sorted by loudness (lowest to highest):")
              :: map (fun a => Logged INFO (song_line a)) songs
       end.
Proof.
  intros Hrun Hmain. unfold main in Hmain. rewrite Hrun in Hmain.
  destruct songs as [|a songs]; cbv zeta in Hmain; injection Hmain as <-;
    [reflexivity|].
  rewrite (proj2 (fold_emit_lines songs _)). cbn [emit events map].
  rewrite <- !app_assoc. reflexivity.
Qed.

End Pyloud.

(** * The properties at work on the music folder *)

Abbreviation run :=
  (sort_songs_by_loudness table_read table_meter table_loudness last_first).

Lemma last_first_perm (l : list string) : Permutation (last_first l) l.
Proof. apply Permutation_sym, Permutation_rev. Qed.

Lemma run_result (A B : Type) (r : A * B) (a : A) : fst r = a -> r = (a, snd r).
Proof. intros <-. apply surjective_pairing. Qed.

(** ** The scan *)

(** C1 at work: the scan of [music] finds the FLAC file of the sub-folder,
    by the characterisation of the scan. *)
Lemma scan_returns_matching_entries_witness :
  has_magic "music" = false /\
  wf_node (root (fs first_visit)) = true /\
  stat (fs first_visit) (root_or_dot "music") = Some (Dir collection) /\
  In "/home/u/music/sub/d.flac" (get_audio_files (fs first_visit) "music").
Proof.
  assert (Hm : has_magic "music" = false) by reflexivity.
  assert (Hw : wf_node (root (fs first_visit)) = true) by (vm_compute; reflexivity).
  assert (Hs : stat (fs first_visit) (root_or_dot "music") = Some (Dir collection))
    by (vm_compute; reflexivity).
  repeat split; try assumption.
  apply (proj2 (scan_returns_matching_entries (fs first_visit) "music" collection
                  "/home/u/music/sub/d.flac" Hm Hw Hs)).
  exists ["sub"], [("d.flac", audio)], "d.flac", "flac".
  split; [repeat constructor |].
  split; [reflexivity |].
  split; [left; reflexivity |].
  split; [reflexivity |].
  split; [vm_compute; tauto |].
  split; [left; exists "d"; reflexivity |].
  vm_compute; reflexivity.
Defined.

(** C1 as stated fails: [b.Mp3] is a file of the folder whose extension is
    [mp3] when case is ignored, and the scan does not return its path. *)
Lemma scan_misses_mixed_case_extension :
  stat (fs first_visit) "music/b.Mp3" = Some audio /\
  upper "Mp3" = upper "mp3" /\
  abspath (cwd (fs first_visit)) "music/b.Mp3" = "/home/u/music/b.Mp3" /\
  ~ In "/home/u/music/b.Mp3" (get_audio_files (fs first_visit) "music").
Proof.
  split; [vm_compute; reflexivity |].
  split; [vm_compute; reflexivity |].
  split; [vm_compute; reflexivity |].
  vm_compute. intuition discriminate.
Qed.

(** C9: a folder that does not exist is not always scanned to nothing.
    No entry of the working directory is called [mu[s]ic], yet the scan of
    that folder returns the files of [music], and the run reports them:
    the folder is handed to [glob] unescaped, which reads it as a
    pattern. *)
Lemma missing_folder_is_read_as_pattern :
  path_exists (fs first_visit) "mu[s]ic" = false /\
  get_audio_files (fs first_visit) "mu[s]ic" =
    ["/home/u/music/a.mp3"; "/home/u/music/bad.wav"; "/home/u/music/c.WAV";
     "/home/u/music/sub/d.flac"] /\
  fst (run "mu[s]ic" "cache.json" first_visit) =
    Ok [("/home/u/music/a.mp3", (-20.5)%float); ("/home/u/music/c.WAV", (-14.5)%float);
        ("/home/u/music/sub/d.flac", (-9.25)%float)].
Proof. vm_compute. repeat split; reflexivity. Qed.

(** ** The cache file *)

(** C2: loading does crash on some file contents.  A cache file that
    holds a JSON array, or bytes that are not text, makes [load_cache]
    raise, and the run with it: only [json.JSONDecodeError] is caught. *)
Lemma load_cache_raises_on_other_content :
  let array := mkState (home collection [("cache.json", File (Json JOther))]) [] in
  let binary := mkState (home collection [("cache.json", File NotText)]) [] in
  path_exists (fs array) "cache.json" = true /\
  load_cache "cache.json" array = (Raise AttributeError, array) /\
  load_cache "cache.json" binary = (Raise UnicodeDecodeError, binary) /\
  fst (run "music" "cache.json" array) = Raise AttributeError.
Proof. vm_compute. repeat split; reflexivity. Qed.



(** ** The batch *)

(** C5 at work: on the first visit the batch keeps the loudness cached for
    [a.mp3] and does not submit the file again. *)
Lemma batch_keeps_cached_values_witness :
  let batch := process table_read table_meter table_loudness last_first
                 "cache.json" scanned (reconcile loaded scanned) first_visit in
  NoDup (keys loaded) /\
  dict_get loaded "/home/u/music/a.mp3" = Some (-20.5)%float /\
  (forall k, In k (keys (fst batch)) -> In k scanned) /\
  dict_get (fst batch) "/home/u/music/a.mp3" = Some (-20.5)%float /\
  ~ In (Submitted "/home/u/music/a.mp3") (events (snd batch)).
Proof.
  cbv zeta.
  assert (Hkeys : NoDup (keys loaded)).
  { vm_compute. repeat constructor; cbn; intuition discriminate. }
  assert (Hget : dict_get loaded "/home/u/music/a.mp3" = Some (-20.5)%float)
    by (vm_compute; reflexivity).
  assert (Hin : In "/home/u/music/a.mp3" scanned) by (left; reflexivity).
  assert (Hkey : In "/home/u/music/a.mp3" (keys loaded)) by (left; reflexivity).
  pose proof (batch_keeps_cached_values _ _ _ table_read table_meter table_loudness
                last_first last_first_perm scanned loaded "cache.json" first_visit Hkeys)
    as [Hsub [Hkeep Hquiet]].
  split; [exact Hkeys |].
  split; [exact Hget |].
  split; [exact Hsub |].
  split; [exact (Hkeep _ _ Hin Hget) |].
  intros Hsubmitted. exact (Hquiet _ Hin Hkey Hsubmitted).
Defined.

(** C6 at work: [bad.wav] cannot be decoded; the calculator logs an error
    and returns nothing, the batch submits the file and caches nothing for
    it. *)
Lemma failed_measurement_witness :
  let batch := process table_read table_meter table_loudness last_first
                 "cache.json" scanned (reconcile loaded scanned) first_visit in
  measure table_read table_meter table_loudness "/home/u/music/bad.wav" =
    Raise LibsndfileError /\
  (exists msg,
     calculate_loudness table_read table_meter table_loudness "/home/u/music/bad.wav"
       first_visit = (None, emit (Logged ERROR msg) first_visit)) /\
  ~ In "/home/u/music/bad.wav" (keys (fst batch)) /\
  In (Submitted "/home/u/music/bad.wav") (events (snd batch)).
Proof.
  cbv zeta.
  assert (Hfail : measure table_read table_meter table_loudness "/home/u/music/bad.wav" =
                  Raise LibsndfileError) by (vm_compute; reflexivity).
  assert (Hnew : ~ In "/home/u/music/bad.wav" (keys (reconcile loaded scanned)))
    by (vm_compute; intuition discriminate).
  assert (Hin : In "/home/u/music/bad.wav" scanned) by (right; left; reflexivity).
  pose proof (failed_measurement_is_logged_and_not_cached _ _ _ table_read table_meter
                table_loudness last_first "/home/u/music/bad.wav" LibsndfileError Hfail)
    as [Hlog [Hout Hretry]].
  split; [exact Hfail |].
  split; [exact (Hlog first_visit) |].
  split; [exact (Hout "cache.json" scanned _ first_visit Hnew) |].
  exact (Hretry "cache.json" scanned _ first_visit Hin Hnew).
Defined.

(** ** The report *)

(** C7 at work: four measured files, three of them in the folder, come out
    quietest first. *)
Lemma sorted_songs_ascending_witness :
  (forall a, In a (sorted_songs measured scanned) -> PrimFloat.is_nan (snd a) = false) /\
  sorted_songs measured scanned =
    [("/home/u/music/c.WAV", (-20.5)%float); ("/home/u/music/sub/d.flac", (-14.5)%float);
     ("/home/u/music/a.mp3", (-9.25)%float)] /\
  ascending (sorted_songs measured scanned) /\
  (forall file loudness, In (file, loudness) (sorted_songs measured scanned) ->
     In (file, loudness) measured /\ In file scanned).
Proof.
  assert (Hnum : forall a, In a (sorted_songs measured scanned) ->
                           PrimFloat.is_nan (snd a) = false).
  { intros a Ha. vm_compute in Ha.
    repeat (destruct Ha as [<- | Ha]; [vm_compute; reflexivity |]). contradiction. }
  split; [exact Hnum |].
  split; [vm_compute; reflexivity |].
  exact (sorted_songs_ascending measured scanned Hnum).
Defined.

(** C7 as stated fails: with [NaN] cached for [a.mp3] the run returns a
    report whose first loudness is not at most the second. *)
Lemma nan_breaks_ascending_order :
  let songs := [("/home/u/music/a.mp3", PrimFloat.nan);
                ("/home/u/music/c.WAV", (-14.5)%float)] in
  fst (run "music" "cache.json" unreadable_level) = Ok songs /\
  sorted_songs [("/home/u/music/a.mp3", PrimFloat.nan);
                ("/home/u/music/c.WAV", (-14.5)%float)]
               ["/home/u/music/a.mp3"; "/home/u/music/c.WAV"] = songs /\
  ~ ascending songs.
Proof.
  cbv zeta.
  split; [vm_compute; reflexivity |].
  split; [vm_compute; reflexivity |].
  intros H. specialize (H 0 _ _ eq_refl eq_refl). vm_compute in H. discriminate.
Qed.

(** C10 at work: the report of the first visit names no file twice. *)
Lemma result_has_no_duplicate_file_witness :
  let songs := [("/home/u/music/a.mp3", (-20.5)%float);
                ("/home/u/music/c.WAV", (-14.5)%float);
                ("/home/u/music/sub/d.flac", (-9.25)%float)] in
  run "music" "cache.json" first_visit =
    (Ok songs, snd (run "music" "cache.json" first_visit)) /\
  NoDup (map fst songs).
Proof.
  cbv zeta.
  assert (Hrun : run "music" "cache.json" first_visit =
                 (Ok [("/home/u/music/a.mp3", (-20.5)%float);
                      ("/home/u/music/c.WAV", (-14.5)%float);
                      ("/home/u/music/sub/d.flac", (-9.25)%float)],
                  snd (run "music" "cache.json" first_visit)))
    by (apply run_result; vm_compute; reflexivity).
  split; [exact Hrun |].
  exact (result_has_no_duplicate_file _ _ _ table_read table_meter table_loudness
           last_first _ _ _ _ _ Hrun).
Defined.

(** ** Whole runs *)



(** C4 at work: the run after the second visit finds nothing new, only
    logs, leaves the cache file as it reads, and reports what the visit
    reported. *)
Lemma run_without_new_files_witness :
  let songs := [("/home/u/music/a.mp3", (-20.5)%float);
                ("/home/u/music/c.WAV", (-14.5)%float);
                ("/home/u/music/sub/d.flac", (-9.25)%float)] in
  let s := snd (run "music" "cache.json" second_visit) in
  let s' := snd (run "music" "cache.json" s) in
  run "music" "cache.json" s = (Ok songs, s') /\
  new_files_of "music" "cache.json" s = [] /\
  wf_cwd (cwd (fs second_visit)) = true /\
  get_audio_files (fs s) "music" = get_audio_files (fs second_visit) "music" /\
  resolve (fs s) "cache.json" <> resolve (fs s) log_file /\
  (forall e, In e (events s') -> In e (events s) \/ exists lv msg, e = Logged lv msg) /\
  read_file (fs s') "cache.json" = read_file (fs s) "cache.json" /\
  fst (run "music" "cache.json" second_visit) = Ok songs.
Proof.
  cbv zeta.
  set (songs := [("/home/u/music/a.mp3", (-20.5)%float);
                 ("/home/u/music/c.WAV", (-14.5)%float);
                 ("/home/u/music/sub/d.flac", (-9.25)%float)]).
  set (s := snd (run "music" "cache.json" second_visit)).
  assert (Hrun : run "music" "cache.json" s = (Ok songs, snd (run "music" "cache.json" s)))
    by (apply run_result; vm_compute; reflexivity).
  assert (Hnew : new_files_of "music" "cache.json" s = []) by (vm_compute; reflexivity).
  assert (Hcwd : wf_cwd (cwd (fs second_visit)) = true) by (vm_compute; reflexivity).
  assert (Hscan : get_audio_files (fs s) "music" = get_audio_files (fs second_visit) "music")
    by (vm_compute; reflexivity).
  assert (Hlog : resolve (fs s) "cache.json" <> resolve (fs s) log_file)
    by (vm_compute; discriminate).
  destruct (run "music" "cache.json" second_visit) as [[songs0 | e] s0'] eqn:Hprev;
    [| vm_compute in Hprev; discriminate].
  pose proof (run_without_new_files _ _ _ table_read table_meter table_loudness
                last_first last_first_perm _ _ _ _ _ Hrun Hnew) as [Hev [Hfile Hsame]].
  specialize (Hfile Hlog).
  repeat (split; [assumption |]).
  cbn [fst]. f_equal. symmetry. apply (Hsame second_visit songs0 Hcwd); [| exact Hscan].
  subst s. rewrite Hprev. reflexivity.
Defined.

(** C4 as stated fails: once [c.WAV] is removed the folder holds nothing
    new, the cache file is as the run before left it, and the report is
    not the report of the run before. *)
Lemma report_changes_without_new_files :
  let previous := run "music" "cache.json" before_removal in
  let next := run "music" "cache.json" after_removal in
  fst previous = Ok [("/home/u/music/a.mp3", (-20.5)%float);
                     ("/home/u/music/c.WAV", (-14.5)%float)] /\
  read_file (fs (snd previous)) "cache.json"
  = read_file (fs before_removal) "cache.json" /\
  read_file (fs after_removal) "cache.json" = read_file (fs (snd previous)) "cache.json" /\
  new_files_of "music" "cache.json" after_removal = [] /\
  fst next = Ok [("/home/u/music/a.mp3", (-20.5)%float)] /\
  fst next <> fst previous.
Proof. vm_compute. repeat split; try reflexivity. discriminate. Qed.

(** * The further properties at work *)

(** X1 at work: a cache file that is not JSON gives the empty cache and
    one error record. *)
Lemma load_cache_starts_empty_witness :
  let s := mkState (home collection [("cache.json", File NotJson)]) [] in
  (path_exists (fs s) "cache.json" = false \/ read_file (fs s) "cache.json" = Ok NotJson)
  /\ fst (load_cache "cache.json" s) = Ok []
  /\ events (snd (load_cache "cache.json" s))
     = [Logged ERROR "Error reading cache file cache.json. A new cache will be created."].
Proof.
  cbv zeta.
  set (s := mkState (home collection [("cache.json", File NotJson)]) []).
  assert (Hr : read_file (fs s) "cache.json" = Ok NotJson) by (vm_compute; reflexivity).
  destruct (load_cache_starts_empty "cache.json" s (or_intror Hr)) as [H1 [_ H2]].
  split; [now right|]. split; [exact H1|]. exact (H2 Hr).
Defined.

(** X2 at work: the cache of the first visit. *)
Lemma loaded_keys_are_absolute_witness :
  wf_cwd (cwd (fs first_visit)) = true
  /\ load_cache "cache.json" first_visit = (Ok loaded, first_visit)
  /\ NoDup (keys loaded)
  /\ forall k, In k (keys loaded) -> isabs k = true /\ normpath k = k.
Proof.
  assert (Hwf : wf_cwd (cwd (fs first_visit)) = true) by (vm_compute; reflexivity).
  assert (Hl : load_cache "cache.json" first_visit = (Ok loaded, first_visit))
    by (vm_compute; reflexivity).
  split; [exact Hwf|]. split; [exact Hl|].
  exact (loaded_keys_are_absolute "cache.json" first_visit loaded first_visit Hwf Hl).
Defined.

(** X3 at work: the cache file of the first visit. *)
Lemma loaded_entries_come_from_the_file_witness :
  let members := [("music/a.mp3", (-20.5)%float); ("music/gone.mp3", (-7)%float)] in
  read_file (fs first_visit) "cache.json" = Ok (Json (JObject members))
  /\ exists c,
       load_cache "cache.json" first_visit = (Ok c, first_visit)
       /\ (forall k v, In (k, v) c ->
             exists k0, In (k0, v) members /\ k = abspath (cwd (fs first_visit)) k0)
       /\ (forall k0, In k0 (keys members) ->
             In (abspath (cwd (fs first_visit)) k0) (keys c)).
Proof.
  cbv zeta.
  assert (Hr : read_file (fs first_visit) "cache.json"
               = Ok (Json (JObject [("music/a.mp3", (-20.5)%float);
                                    ("music/gone.mp3", (-7)%float)])))
    by (vm_compute; reflexivity).
  split; [exact Hr|].
  exact (loaded_entries_come_from_the_file "cache.json" first_visit _ Hr).
Defined.

(** X4 at work: saving the measured cache on the first visit. *)
Lemma saved_file_holds_relative_keys_witness :
  (forall k, In k (keys measured) -> k <> "")
  /\ writable (fs first_visit) "cache.json" = true
  /\ read_file (fs (save_cache "cache.json" measured first_visit)) "cache.json"
     = Ok (Json (JObject [("music/a.mp3", (-9.25)%float); ("music/c.WAV", (-20.5)%float);
                          ("music/gone.mp3", (-30)%float);
                          ("music/sub/d.flac", (-14.5)%float)]))
  /\ events (save_cache "cache.json" measured first_visit)
     = events first_visit ++ [Opened_for_writing "cache.json"].
Proof.
  assert (Hk : forall k, In k (keys measured) -> k <> "").
  { intros k Hin. vm_compute in Hin.
    repeat (destruct Hin as [<- | Hin]; [discriminate|]). contradiction. }
  assert (Hw : writable (fs first_visit) "cache.json" = true) by (vm_compute; reflexivity).
  destruct (saved_file_holds_relative_keys "cache.json" measured first_visit Hk Hw)
    as [Hev _].
  split; [exact Hk|]. split; [exact Hw|]. split; [vm_compute; reflexivity | exact Hev].
Defined.

(** X5 at work: a cache with the empty key is not saved, and the cache
    file of the first visit stays as it is. *)
Lemma failed_save_writes_nothing_witness :
  let cache := [("", (-14.5)%float)] in
  (In "" (keys cache) \/ writable (fs first_visit) "cache.json" = false)
  /\ resolve (fs first_visit) "cache.json" <> resolve (fs first_visit) log_file
  /\ (exists msg,
         events (save_cache "cache.json" cache first_visit)
         = events first_visit ++ [Logged ERROR msg])
  /\ read_file (fs (save_cache "cache.json" cache first_visit)) "cache.json"
     = read_file (fs first_visit) "cache.json".
Proof.
  cbv zeta.
  assert (H : In "" (keys [("", (-14.5)%float)])
              \/ writable (fs first_visit) "cache.json" = false)
    by (left; left; reflexivity).
  assert (Hq : resolve (fs first_visit) "cache.json"
               <> resolve (fs first_visit) log_file) by (vm_compute; discriminate).
  destruct (failed_save_writes_nothing "cache.json" [("", (-14.5)%float)] first_visit H)
    as [Hev Hfiles].
  split; [exact H|]. split; [exact Hq|]. split; [exact Hev|].
  exact (proj1 (Hfiles "cache.json" Hq)).
Defined.

(** X6 at work: saving the cache leaves [a.mp3] as it is. *)
Lemma save_cache_writes_one_file_witness :
  resolve (fs first_visit) "music/a.mp3" <> resolve (fs first_visit) "cache.json"
  /\ resolve (fs first_visit) "music/a.mp3" <> resolve (fs first_visit) log_file
  /\ read_file (fs (save_cache "cache.json" measured first_visit)) "music/a.mp3"
     = read_file (fs first_visit) "music/a.mp3"
  /\ path_isdir (fs (save_cache "cache.json" measured first_visit)) "music/a.mp3"
     = path_isdir (fs first_visit) "music/a.mp3".
Proof.
  assert (H : resolve (fs first_visit) "music/a.mp3"
              <> resolve (fs first_visit) "cache.json") by (vm_compute; discriminate).
  assert (Hlog : resolve (fs first_visit) "music/a.mp3"
                 <> resolve (fs first_visit) log_file) by (vm_compute; discriminate).
  split; [exact H|]. split; [exact Hlog|].
  exact (save_cache_writes_one_file "cache.json" measured first_visit "music/a.mp3"
           H Hlog).
Defined.

(** X7 at work: the run of the first visit leaves [c.WAV] as it is. *)
Lemma run_writes_one_file_witness :
  let songs := [("/home/u/music/a.mp3", (-20.5)%float);
                ("/home/u/music/c.WAV", (-14.5)%float);
                ("/home/u/music/sub/d.flac", (-9.25)%float)] in
  let s' := snd (run "music" "cache.json" first_visit) in
  run "music" "cache.json" first_visit = (Ok songs, s')
  /\ resolve (fs first_visit) "music/c.WAV" <> resolve (fs first_visit) "cache.json"
  /\ read_file (fs s') "music/c.WAV" = read_file (fs first_visit) "music/c.WAV"
  /\ path_isdir (fs s') "music/c.WAV" = path_isdir (fs first_visit) "music/c.WAV".
Proof.
  cbv zeta.
  assert (Hrun : run "music" "cache.json" first_visit =
                 (Ok [("/home/u/music/a.mp3", (-20.5)%float);
                      ("/home/u/music/c.WAV", (-14.5)%float);
                      ("/home/u/music/sub/d.flac", (-9.25)%float)],
                  snd (run "music" "cache.json" first_visit)))
    by (apply run_result; vm_compute; reflexivity).
  assert (H : resolve (fs first_visit) "music/c.WAV"
              <> resolve (fs first_visit) "cache.json") by (vm_compute; discriminate).
  split; [exact Hrun|]. split; [exact H|].
  exact (run_writes_one_file _ _ _ table_read table_meter table_loudness last_first
           _ _ _ _ _ "music/c.WAV" Hrun H).
Defined.

(** X8 at work: a path of the first visit's scan. *)
Lemma scanned_paths_are_absolute_witness :
  wf_cwd (cwd (fs first_visit)) = true
  /\ In "/home/u/music/sub/d.flac" (get_audio_files (fs first_visit) "music")
  /\ isabs "/home/u/music/sub/d.flac" = true
  /\ normpath "/home/u/music/sub/d.flac" = "/home/u/music/sub/d.flac".
Proof.
  assert (Hwf : wf_cwd (cwd (fs first_visit)) = true) by (vm_compute; reflexivity).
  assert (Hin : In "/home/u/music/sub/d.flac" (get_audio_files (fs first_visit) "music"))
    by (vm_compute; tauto).
  split; [exact Hwf|]. split; [exact Hin|].
  exact (scanned_paths_are_absolute (fs first_visit) "music" _ Hwf Hin).
Defined.


(** X10 at work: [music/] is scanned as [music] is. *)
Lemma trailing_slash_is_ignored_witness :
  "music" <> "" /\ endswith_sep "music" = false
  /\ get_audio_files (fs first_visit) "music/" = get_audio_files (fs first_visit) "music"
  /\ run "music/" "cache.json" first_visit = run "music" "cache.json" first_visit.
Proof.
  assert (Hne : "music" <> "") by discriminate.
  assert (He : endswith_sep "music" = false) by reflexivity.
  split; [exact Hne|]. split; [exact He|].
  exact (trailing_slash_is_ignored _ _ _ table_read table_meter table_loudness last_first
           "music" "cache.json" first_visit Hne He).
Defined.

(** X11 at work: the file of the sub-folder is displayed as [d.flac]. *)
Lemma scanned_file_names_witness :
  has_magic "music" = false
  /\ wf_node (root (fs first_visit)) = true
  /\ wf_cwd (cwd (fs first_visit)) = true
  /\ In "/home/u/music/sub/d.flac" (get_audio_files (fs first_visit) "music")
  /\ basename "/home/u/music/sub/d.flac" = "d.flac"
  /\ clean (basename "/home/u/music/sub/d.flac") = true
  /\ visible (basename "/home/u/music/sub/d.flac") = true.
Proof.
  assert (Hm : has_magic "music" = false) by reflexivity.
  assert (Hn : wf_node (root (fs first_visit)) = true) by (vm_compute; reflexivity).
  assert (Hwf : wf_cwd (cwd (fs first_visit)) = true) by (vm_compute; reflexivity).
  assert (Hin : In "/home/u/music/sub/d.flac" (get_audio_files (fs first_visit) "music"))
    by (vm_compute; tauto).
  destruct (scanned_file_names (fs first_visit) "music" _ Hm Hn Hwf Hin)
    as [Hc [Hv _]].
  repeat (split; [assumption|]). split; [reflexivity|]. now split.
Defined.

(** X12 at work: [c.WAV] is new on the first visit and measures -14.5. *)
Lemma measured_value_is_cached_witness :
  In "/home/u/music/c.WAV" scanned
  /\ ~ In "/home/u/music/c.WAV" (keys (reconcile loaded scanned))
  /\ measure table_read table_meter table_loudness "/home/u/music/c.WAV"
     = Ok (-14.5)%float
  /\ dict_get (fst (process table_read table_meter table_loudness last_first
                      "cache.json" scanned (reconcile loaded scanned) first_visit))
              "/home/u/music/c.WAV" = Some (-14.5)%float.
Proof.
  assert (Hin : In "/home/u/music/c.WAV" scanned) by (vm_compute; tauto).
  assert (Hnew : ~ In "/home/u/music/c.WAV" (keys (reconcile loaded scanned)))
    by (vm_compute; intuition discriminate).
  assert (Hm : measure table_read table_meter table_loudness "/home/u/music/c.WAV"
               = Ok (-14.5)%float) by (vm_compute; reflexivity).
  repeat (split; [assumption|]).
  exact (measured_value_is_cached _ _ _ table_read table_meter table_loudness last_first
           last_first_perm "cache.json" scanned _ first_visit _ _ Hin Hnew Hm).
Defined.

(** X13 at work: the report of the first visit. *)
Lemma report_lists_cached_and_measured_files_witness :
  let songs := [("/home/u/music/a.mp3", (-20.5)%float);
                ("/home/u/music/c.WAV", (-14.5)%float);
                ("/home/u/music/sub/d.flac", (-9.25)%float)] in
  load_cache "cache.json" first_visit = (Ok loaded, first_visit)
  /\ run "music" "cache.json" first_visit
     = (Ok songs, snd (run "music" "cache.json" first_visit))
  /\ forall f v,
       In (f, v) songs
       <-> In f (get_audio_files (fs first_visit) "music")
           /\ (dict_get loaded f = Some v
               \/ (~ In f (keys loaded)
                   /\ measure table_read table_meter table_loudness f = Ok v)).
Proof.
  cbv zeta.
  assert (Hl : load_cache "cache.json" first_visit = (Ok loaded, first_visit))
    by (vm_compute; reflexivity).
  assert (Hrun : run "music" "cache.json" first_visit =
                 (Ok [("/home/u/music/a.mp3", (-20.5)%float);
                      ("/home/u/music/c.WAV", (-14.5)%float);
                      ("/home/u/music/sub/d.flac", (-9.25)%float)],
                  snd (run "music" "cache.json" first_visit)))
    by (apply run_result; vm_compute; reflexivity).
  split; [exact Hl|]. split; [exact Hrun|].
  exact (report_lists_cached_and_measured_files _ _ _ table_read table_meter
           table_loudness last_first last_first_perm "music" "cache.json"
           first_visit loaded first_visit _ _ Hl Hrun).
Defined.

(** X14 at work: reconciling the cache of the first visit drops the file
    that is gone. *)
Lemma reconciled_cache_holds_scanned_files_witness :
  NoDup (keys loaded)
  /\ reconcile loaded scanned = [("/home/u/music/a.mp3", (-20.5)%float)]
  /\ (forall k, In k (keys (reconcile loaded scanned))
                <-> In k (keys loaded) /\ In k scanned).
Proof.
  assert (Hnd : NoDup (keys loaded)).
  { vm_compute. repeat constructor; cbn; intuition discriminate. }
  destruct (reconciled_cache_holds_scanned_files loaded scanned Hnd) as [_ [H _]].
  split; [exact Hnd|]. split; [vm_compute; reflexivity | exact H].
Defined.

(** X15 at work: the run of the first visit submits [bad.wav], which is
    new, and not [a.mp3], which is cached. *)
Lemma run_submits_the_new_files_witness :
  let songs := [("/home/u/music/a.mp3", (-20.5)%float);
                ("/home/u/music/c.WAV", (-14.5)%float);
                ("/home/u/music/sub/d.flac", (-9.25)%float)] in
  let s' := snd (run "music" "cache.json" first_visit) in
  run "music" "cache.json" first_visit = (Ok songs, s')
  /\ In (Submitted "/home/u/music/bad.wav") (events s')
  /\ ~ In (Submitted "/home/u/music/a.mp3") (events s').
Proof.
  cbv zeta.
  assert (Hrun : run "music" "cache.json" first_visit =
                 (Ok [("/home/u/music/a.mp3", (-20.5)%float);
                      ("/home/u/music/c.WAV", (-14.5)%float);
                      ("/home/u/music/sub/d.flac", (-9.25)%float)],
                  snd (run "music" "cache.json" first_visit)))
    by (apply run_result; vm_compute; reflexivity).
  destruct (run_submits_the_new_files _ _ _ table_read table_meter table_loudness
              last_first "music" "cache.json" first_visit _ _ Hrun) as [H _].
  split; [exact Hrun|]. split.
  - apply (proj2 (H "/home/u/music/bad.wav")). right. vm_compute. tauto.
  - intros Hin. apply (proj1 (H "/home/u/music/a.mp3")) in Hin.
    destruct Hin as [Hin | Hin]; vm_compute in Hin; intuition discriminate.
Defined.

(** X16 at work: after the first visit the cache file holds the report. *)
Lemma saved_cache_is_the_report_witness :
  let songs := [("/home/u/music/a.mp3", (-20.5)%float);
                ("/home/u/music/c.WAV", (-14.5)%float);
                ("/home/u/music/sub/d.flac", (-9.25)%float)] in
  let s' := snd (run "music" "cache.json" first_visit) in
  wf_cwd (cwd (fs first_visit)) = true
  /\ run "music" "cache.json" first_visit = (Ok songs, s')
  /\ new_files_of "music" "cache.json" first_visit <> []
  /\ writable (fs first_visit) "cache.json" = true
  /\ (forall f, In f (get_audio_files (fs first_visit) "music") -> initial_slashes f <> 2)
  /\ exists c, load_cache "cache.json" s' = (Ok c, s') /\ Permutation c songs.
Proof.
  cbv zeta.
  assert (Hwf : wf_cwd (cwd (fs first_visit)) = true) by (vm_compute; reflexivity).
  assert (Hrun : run "music" "cache.json" first_visit =
                 (Ok [("/home/u/music/a.mp3", (-20.5)%float);
                      ("/home/u/music/c.WAV", (-14.5)%float);
                      ("/home/u/music/sub/d.flac", (-9.25)%float)],
                  snd (run "music" "cache.json" first_visit)))
    by (apply run_result; vm_compute; reflexivity).
  assert (Hnew : new_files_of "music" "cache.json" first_visit <> [])
    by (vm_compute; discriminate).
  assert (Hw : writable (fs first_visit) "cache.json" = true) by (vm_compute; reflexivity).
  assert (Hsl : forall f, In f (get_audio_files (fs first_visit) "music") ->
                          initial_slashes f <> 2).
  { intros f Hin. vm_compute in Hin.
    repeat (destruct Hin as [<- | Hin]; [vm_compute; discriminate|]). contradiction. }
  repeat (split; [assumption|]).
  exact (saved_cache_is_the_report _ _ _ table_read table_meter table_loudness last_first
           last_first_perm "music" "cache.json" first_visit _ _ Hwf Hrun Hnew Hw Hsl).
Defined.

(** X17 at work: after the first visit, [bad.wav] is what the next run
    takes as new. *)
Lemma next_run_retries_what_failed_witness :
  let songs := [("/home/u/music/a.mp3", (-20.5)%float);
                ("/home/u/music/c.WAV", (-14.5)%float);
                ("/home/u/music/sub/d.flac", (-9.25)%float)] in
  let s' := snd (run "music" "cache.json" first_visit) in
  wf_cwd (cwd (fs first_visit)) = true
  /\ run "music" "cache.json" first_visit = (Ok songs, s')
  /\ new_files_of "music" "cache.json" first_visit <> []
  /\ writable (fs first_visit) "cache.json" = true
  /\ (forall f, In f (get_audio_files (fs first_visit) "music") -> initial_slashes f <> 2)
  /\ get_audio_files (fs s') "music" = get_audio_files (fs first_visit) "music"
  /\ In "/home/u/music/bad.wav" (new_files_of "music" "cache.json" s')
  /\ ~ In "/home/u/music/c.WAV" (new_files_of "music" "cache.json" s').
Proof.
  cbv zeta.
  assert (Hwf : wf_cwd (cwd (fs first_visit)) = true) by (vm_compute; reflexivity).
  assert (Hrun : run "music" "cache.json" first_visit =
                 (Ok [("/home/u/music/a.mp3", (-20.5)%float);
                      ("/home/u/music/c.WAV", (-14.5)%float);
                      ("/home/u/music/sub/d.flac", (-9.25)%float)],
                  snd (run "music" "cache.json" first_visit)))
    by (apply run_result; vm_compute; reflexivity).
  assert (Hnew : new_files_of "music" "cache.json" first_visit <> [])
    by (vm_compute; discriminate).
  assert (Hw : writable (fs first_visit) "cache.json" = true) by (vm_compute; reflexivity).
  assert (Hsl : forall f, In f (get_audio_files (fs first_visit) "music") ->
                          initial_slashes f <> 2).
  { intros f Hin. vm_compute in Hin.
    repeat (destruct Hin as [<- | Hin]; [vm_compute; discriminate|]). contradiction. }
  assert (Hscan : get_audio_files (fs (snd (run "music" "cache.json" first_visit))) "music"
                  = get_audio_files (fs first_visit) "music") by (vm_compute; reflexivity).
  pose proof (fun f => next_run_retries_what_failed _ _ _ table_read table_meter
                         table_loudness last_first last_first_perm "music" "cache.json"
                         first_visit _ _ f Hwf Hrun Hnew Hw Hsl Hscan) as H.
  repeat (split; [assumption|]). split.
  - apply (proj2 (H "/home/u/music/bad.wav")). split; [vm_compute; tauto|].
    vm_compute. intuition discriminate.
  - intros Hin. apply (proj1 (H "/home/u/music/c.WAV")) in Hin. destruct Hin as [_ Hin].
    apply Hin. vm_compute. tauto.
Defined.

(** X18 at work: what [main] displays on the first visit. *)
Lemma main_displays_the_report_witness :
  let songs := [("/home/u/music/a.mp3", (-20.5)%float);
                ("/home/u/music/c.WAV", (-14.5)%float);
                ("/home/u/music/sub/d.flac", (-9.25)%float)] in
  let s1 := snd (run "music" "cache.json" first_visit) in
  let s' := snd (main table_read table_meter table_loudness last_first
                      "music" "cache.json" first_visit) in
  run "music" "cache.json" first_visit = (Ok songs, s1)
  /\ main table_read table_meter table_loudness last_first "music" "cache.json"
          first_visit = (Ok tt, s')
  /\ map (fun a => Logged INFO (song_line a)) songs
     = [Logged INFO "  a.mp3: -20.50 LUFS"; Logged INFO "  c.WAV: -14.50 LUFS";
        Logged INFO "  d.flac: -9.25 LUFS"]
  /\ events s'
     = events s1
       ++ Logged INFO (newline ++ "Songs sorted by loudness (lowest to highest):")
          :: map (fun a => Logged INFO (song_line a)) songs.
Proof.
  cbv zeta.
  assert (Hrun : run "music" "cache.json" first_visit =
                 (Ok [("/home/u/music/a.mp3", (-20.5)%float);
                      ("/home/u/music/c.WAV", (-14.5)%float);
                      ("/home/u/music/sub/d.flac", (-9.25)%float)],
                  snd (run "music" "cache.json" first_visit)))
    by (apply run_result; vm_compute; reflexivity).
  assert (Hmain : main table_read table_meter table_loudness last_first
                       "music" "cache.json" first_visit
                  = (Ok tt, snd (main table_read table_meter table_loudness last_first
                                      "music" "cache.json" first_visit)))
    by (apply run_result; vm_compute; reflexivity).
  split; [exact Hrun|]. split; [exact Hmain|]. split; [vm_compute; reflexivity|].
  exact (main_displays_the_report _ _ _ table_read table_meter table_loudness last_first
           "music" "cache.json" first_visit _ _ _ Hrun Hmain).
Defined.
